(** * DataTalk: the offline rule-based natural-language-to-SQL translator

    A shallow embedding of [src/local_nl_sql.py] (class [LocalNLtoSQL]) and
    the properties of its dispatch, its generators and its keyword fallback;
    and of what the model-backed translators ([src/gemini_nl_sql.py],
    [src/openai_nl_sql.py], [src/vanna_nl_sql.py], [src/ollama_nl_sql.py])
    do with the answer of their model.

    Questions and answers are strings of code points below 256: Stdlib's
    [string], whose characters are 8-bit.  On that range [str.lower],
    [str.upper], [str.strip] and the classes [\s], [\d], [\w] of [re] are
    modelled exactly (Unicode tables restricted to U+0000..U+00FF).  Python
    integers are unbounded ([N]); the conversions between integers and
    decimal texts, [int] and [str], raise [ValueError] beyond the
    interpreter's limit of 4300 digits ([sys.get_int_max_str_digits()], the
    default of CPython 3.11 and later). *)

From Stdlib Require Import Bool List Ascii String NArith Lia.
From Stdlib Require Import DecimalString DecimalPos DecimalN.
Import ListNotations.
Open Scope string_scope.
Open Scope bool_scope.

(** ** The fragment of Python that the translator uses *)

Module Py.

(** A computation that either returns a value or raises an exception. *)
Inductive py (A : Type) : Type :=
| Ret (a : A)
| Raise.
Arguments Ret {A} a.
Arguments Raise {A}.

Definition bind {A B : Type} (c : py A) (f : A -> py B) : py B :=
  match c with
  | Ret a => f a
  | Raise => Raise
  end.

Notation "x <- c ;; k" := (bind c (fun x => k))
  (at level 61, c at next level, right associativity).

(** *** Character classes (code points 0..255) *)

Definition code (c : ascii) : N := N_of_ascii c.

Definition between (lo hi n : N) : bool := (lo <=? n)%N && (n <=? hi)%N.

(** [str.isspace], which is also [\s] of a [str] pattern. *)
Definition is_space (c : ascii) : bool :=
  let n := code c in
  between 9 13 n || between 28 32 n || (n =? 133)%N || (n =? 160)%N.

(** [\d] of a [str] pattern: the decimal digits. *)
Definition is_digit (c : ascii) : bool := between 48 57 (code c).

(** [\w] of a [str] pattern: alphanumeric code points and the underscore. *)
Definition is_word (c : ascii) : bool :=
  let n := code c in
  between 48 57 n || between 65 90 n || (n =? 95)%N || between 97 122 n
  || (n =? 170)%N || between 178 179 n || (n =? 181)%N || between 185 186 n
  || between 188 190 n || between 192 214 n || between 216 246 n
  || between 248 255 n.

Definition is_upper (c : ascii) : bool :=
  let n := code c in
  between 65 90 n || between 192 214 n || between 216 222 n.

Definition lower_char (c : ascii) : ascii :=
  if is_upper c then ascii_of_N (code c + 32) else c.

(** *** [str] methods *)

Fixpoint lower (s : string) : string :=
  match s with
  | EmptyString => EmptyString
  | String c s' => String (lower_char c) (lower s')
  end.

Fixpoint lstrip (s : string) : string :=
  match s with
  | EmptyString => EmptyString
  | String c s' => if is_space c then lstrip s' else s
  end.

Fixpoint rstrip (s : string) : string :=
  match s with
  | EmptyString => EmptyString
  | String c s' =>
      match rstrip s' with
      | EmptyString => if is_space c then EmptyString else String c EmptyString
      | r => String c r
      end
  end.

Definition strip (s : string) : string := rstrip (lstrip s).

(** [sub in s]. *)
Fixpoint contains (sub s : string) : bool :=
  prefix sub s ||
  match s with
  | EmptyString => false
  | String _ s' => contains sub s'
  end.

(** [s.startswith(p)]. *)
Definition startswith (s p : string) : bool := prefix p s.

(** [s.replace(old, new)] for one-character [old] and [new]. *)
Fixpoint replace (old new : ascii) (s : string) : string :=
  match s with
  | EmptyString => EmptyString
  | String c s' => String (if Ascii.eqb c old then new else c) (replace old new s')
  end.

(** [s[:n]]. *)
Definition slice_to (n : nat) (s : string) : string := substring 0 n s.

(** [s.upper()].  The capital of U+00DF is the two letters SS; the capitals
    of U+00B5 and U+00FF lie above U+00FF and have no 8-bit code, so those
    two characters are kept (neither they nor their capitals are ASCII
    letters). *)
Definition upper_char (c : ascii) : string :=
  let n := code c in
  if between 97 122 n || between 224 246 n || between 248 254 n
  then String (ascii_of_N (n - 32)) EmptyString
  else if (n =? 223)%N then "SS"
  else String c EmptyString.

Fixpoint upper (s : string) : string :=
  match s with
  | EmptyString => EmptyString
  | String c s' => upper_char c ++ upper s'
  end.

(** Python truthiness of an [Optional[str]]. *)
Definition truthy (o : option string) : bool :=
  match o with
  | Some (String _ _) => true
  | _ => false
  end.

(** *** [int] and its [str] *)

Definition digit_value (c : ascii) : N := (code c - 48)%N.

Fixpoint all (p : ascii -> bool) (s : string) : bool :=
  match s with
  | EmptyString => true
  | String c s' => p c && all p s'
  end.

Fixpoint digits_value (acc : N) (s : string) : N :=
  match s with
  | EmptyString => acc
  | String c s' => digits_value (10 * acc + digit_value c) s'
  end.

(** [sys.get_int_max_str_digits()], at its default: a conversion between
    an integer and a decimal text of more digits raises [ValueError]. *)
Definition max_str_digits : nat := 4300.

(** [int(s)] on the texts a [\d+] capture delivers: a non-empty run of
    decimal digits, of which every one counts for the limit, leading
    zeros included.  Any other text makes the model raise ([int] itself
    also accepts a sign, blanks and underscores, which no caller passes). *)
Definition int (s : string) : py N :=
  match s with
  | EmptyString => Raise
  | _ =>
      if all is_digit s then
        if Nat.leb (String.length s) max_str_digits then Ret (digits_value 0 s)
        else Raise
      else Raise
  end.

(** The decimal text of a non-negative integer. *)
Definition decimal (n : N) : string := NilEmpty.string_of_uint (N.to_uint n).

(** [str(n)], and the formatting of [n] in an f-string, for a non-negative
    integer: its decimal text, unless that has too many digits. *)
Definition str (n : N) : py string :=
  let s := decimal n in
  if Nat.leb (String.length s) max_str_digits then Ret s else Raise.

(** *** Regular expressions: the syntax the fifteen patterns use *)

Inductive atom : Type :=
| Chr (c : ascii)   (* a literal character, compared under re.IGNORECASE *)
| Space             (* \s *)
| Digit             (* \d *)
| Word.             (* \w *)

Inductive regex : Type :=
| Eps
| Atom (a : atom)
| Plus (a : atom)                 (* a+ , greedy *)
| Star (a : atom)                 (* a* , greedy *)
| Seq (r1 r2 : regex)
| Alt (r1 r2 : regex)             (* r1|r2 , left alternative first *)
| Opt (r : regex)                 (* (?:r)? , greedy *)
| Group (i : nat) (r : regex).    (* the i-th capturing group *)

Definition atom_ok (a : atom) (c : ascii) : bool :=
  match a with
  | Chr p => Ascii.eqb (lower_char c) (lower_char p)
  | Space => is_space c
  | Digit => is_digit c
  | Word => is_word c
  end.

(** Captured groups, most recent binding first. *)
Definition caps : Type := list (nat * string).

Fixpoint group (m : caps) (i : nat) : option string :=
  match m with
  | [] => None
  | (j, t) :: m' => if Nat.eqb i j then Some t else group m' i
  end.

(** The text of group [i] of a match.  On a group that the match did not
    bind the model raises (Python raises IndexError for a group the pattern
    lacks and hands out None for one that took no part); every group of the
    fifteen patterns lies on every path through its pattern, so that a
    match binds it. *)
Definition group_text (m : caps) (i : nat) : py string :=
  match group m i with
  | Some t => Ret t
  | None => Raise
  end.

(** The text consumed between a position [s] and a later position [s']. *)
Definition consumed (s s' : string) : string :=
  substring 0 (String.length s - String.length s') s.

(** Greedy repetition of an atom: longest run first, then shorter ones. *)
Fixpoint star (a : atom) (s : string) (k : string -> option caps) : option caps :=
  match s with
  | String c s' =>
      if atom_ok a c then
        match star a s' k with
        | Some res => Some res
        | None => k s
        end
      else k s
  | EmptyString => k s
  end.

(** The backtracking matcher, in continuation-passing style: [k] is the
    rest of the pattern; [None] is failure and makes the caller try its
    next alternative. *)
Fixpoint rx (r : regex) (s : string) (m : caps)
    (k : string -> caps -> option caps) : option caps :=
  match r with
  | Eps => k s m
  | Atom a =>
      match s with
      | String c s' => if atom_ok a c then k s' m else None
      | EmptyString => None
      end
  | Plus a =>
      match s with
      | String c s' => if atom_ok a c then star a s' (fun s'' => k s'' m) else None
      | EmptyString => None
      end
  | Star a => star a s (fun s'' => k s'' m)
  | Seq r1 r2 => rx r1 s m (fun s1 m1 => rx r2 s1 m1 k)
  | Alt r1 r2 =>
      match rx r1 s m k with
      | Some res => Some res
      | None => rx r2 s m k
      end
  | Opt r1 =>
      match rx r1 s m k with
      | Some res => Some res
      | None => k s m
      end
  | Group i r1 => rx r1 s m (fun s1 m1 => k s1 ((i, consumed s s1) :: m1))
  end.

Definition match_here (r : regex) (s : string) : option caps :=
  rx r s [] (fun _ m => Some m).

(** [re.search(r, s, re.IGNORECASE)]: the match at the leftmost position
    that has one. *)
Fixpoint search (r : regex) (s : string) : option caps :=
  match match_here r s with
  | Some m => Some m
  | None =>
      match s with
      | EmptyString => None
      | String _ s' => search r s'
      end
  end.

(** Pattern syntax helpers. *)
Fixpoint lit (s : string) : regex :=
  match s with
  | EmptyString => Eps
  | String c s' => Seq (Atom (Chr c)) (lit s')
  end.

Fixpoint seq (rs : list regex) : regex :=
  match rs with
  | [] => Eps
  | r :: rs' => Seq r (seq rs')
  end.

Fixpoint alt (r : regex) (rs : list regex) : regex :=
  match rs with
  | [] => r
  | r' :: rs' => Alt r (alt r' rs')
  end.

(** *** More [str] methods, used by the model-backed translators *)

(** [s.split(sep)] for a one-character [sep]. *)
Fixpoint split (sep : ascii) (s : string) : list string :=
  match s with
  | EmptyString => [EmptyString]
  | String c s' =>
      if Ascii.eqb c sep then EmptyString :: split sep s'
      else match split sep s' with
           | [] => [String c EmptyString]
           | l :: ls => String c l :: ls
           end
  end.

(** [sep.join(l)]. *)
Fixpoint join (sep : string) (l : list string) : string :=
  match l with
  | [] => EmptyString
  | [x] => x
  | x :: rest => x ++ sep ++ join sep rest
  end.

(** [s.replace(old, new)] for a non-empty [old]: occurrences are replaced
    from left to right and do not overlap; [skip] counts the characters of
    the occurrence just replaced that are still to be passed over. *)
Fixpoint replace_from (old new : string) (skip : nat) (s : string) : string :=
  match s with
  | EmptyString => EmptyString
  | String c s' =>
      match skip with
      | S k => replace_from old new k s'
      | O =>
          if prefix old s then new ++ replace_from old new (String.length old - 1) s'
          else String c (replace_from old new 0 s')
      end
  end.

Definition replace_str (old new s : string) : string := replace_from old new 0 s.

(** [s.endswith(suffix)]. *)
Fixpoint endswith (s suffix : string) : bool :=
  String.eqb s suffix ||
  match s with
  | EmptyString => false
  | String _ s' => endswith s' suffix
  end.

(** [c in chars]. *)
Fixpoint mem (c : ascii) (chars : string) : bool :=
  match chars with
  | EmptyString => false
  | String x chars' => Ascii.eqb c x || mem c chars'
  end.

(** [s.rstrip(chars)]. *)
Fixpoint rstrip_chars (chars s : string) : string :=
  match s with
  | EmptyString => EmptyString
  | String c s' =>
      match rstrip_chars chars s' with
      | EmptyString => if mem c chars then EmptyString else String c EmptyString
      | r => String c r
      end
  end.

(** [s[:-1]]. *)
Fixpoint drop_last (s : string) : string :=
  match s with
  | EmptyString => EmptyString
  | String c EmptyString => EmptyString
  | String c s' => String c (drop_last s')
  end.

(** [s[n:]]. *)
Fixpoint drop (n : nat) (s : string) : string :=
  match n, s with
  | S k, String _ s' => drop k s'
  | _, _ => s
  end.

(** Python truthiness of a [str]. *)
Definition truthy_str (s : string) : bool :=
  match s with
  | EmptyString => false
  | String _ _ => true
  end.

End Py.

(** ** The translator: class [LocalNLtoSQL] *)

Module LocalNLtoSQL.
Import Py.

(** A result of [parse_question] and of every handler: [(sql, explanation)],
    each an [Optional[str]]. *)
Definition answer : Type := (option string * option string)%type.

(** [self.tables]: a dict, iterated in insertion order. *)
Definition tables : list (string * list string) :=
  [ ("workspaces", ["id"; "name"; "owner_id"; "created_at"; "plan"; "status"]);
    ("users", ["id"; "email"; "name"; "workspace_id"; "role"; "created_at"]);
    ("agents", ["id"; "workspace_id"; "name"; "language"; "llm_model"; "status"; "created_at"]);
    ("integrations", ["id"; "workspace_id"; "type"; "config"; "status"; "last_sync_at"; "created_at"]);
    ("agent_tools", ["id"; "agent_id"; "tool_name"; "tool_config"; "created_at"]);
    ("agent_runs", ["id"; "agent_id"; "workspace_id"; "run_type"; "status"; "duration_ms"; "started_at"; "completed_at"]);
    ("test_runs", ["id"; "agent_id"; "workspace_id"; "test_input"; "expected_output"; "actual_output"; "result"; "error_message"; "created_at"]);
    ("run_logs", ["id"; "run_id"; "step"; "event_type"; "message"; "payload"; "timestamp"]);
    ("errors", ["id"; "run_id"; "workspace_id"; "source"; "code"; "message"; "metadata"; "created_at"]);
    ("integration_sync_logs", ["id"; "integration_id"; "workspace_id"; "sync_type"; "status"; "items_synced"; "error_message"; "created_at"]);
    ("billing_usage", ["id"; "workspace_id"; "agent_id"; "characters_generated"; "calls_made"; "tokens_used"; "total_cost_usd"; "created_at"]);
    ("audit_events", ["id"; "workspace_id"; "user_id"; "action"; "entity"; "before"; "after"; "created_at"]) ].

(** [self.tables.keys()]. *)
Definition table_names : list string := map fst tables.

(** [self.languages]. *)
Definition languages : list (string * string) :=
  [ ("english", "en"); ("hindi", "hi"); ("gujarati", "gu"); ("tamil", "ta");
    ("telugu", "te"); ("marathi", "mr"); ("bengali", "bn"); ("kannada", "kn");
    ("malayalam", "ml"); ("punjabi", "pa") ].

(** [d.get(key, default)]. *)
Fixpoint dict_get {V : Type} (d : list (string * V)) (key : string) (default : V) : V :=
  match d with
  | [] => default
  | (k, v) :: d' => if String.eqb key k then v else dict_get d' key default
  end.

Definition nl : string := String "010" EmptyString.

(** *** [_get_time_filter] *)

Definition unit_map : list (string * string) :=
  [ ("hour", "hours"); ("day", "days"); ("week", "days"); ("month", "days") ].

Definition multiplier : list (string * N) :=
  [ ("hour", 1%N); ("day", 1%N); ("week", 7%N); ("month", 30%N) ].

Definition _get_time_filter (value unit : string) : py string :=
  n <- int value ;;
  let actual_value := (n * dict_get multiplier unit 1)%N in
  let actual_unit := dict_get unit_map unit "days" in
  text <- str actual_value ;;
  Ret ("datetime('now', '-" ++ text ++ " " ++ actual_unit ++ "')").

(** *** The handlers.  Each receives the match object and the question. *)

Definition _handle_top_errors (m : caps) (question : string) : py answer :=
  limit <- group_text m 1 ;;
  time_value <- group_text m 2 ;;
  time_unit <- group_text m 3 ;;
  time_filter <- _get_time_filter time_value time_unit ;;
  let sql :=
    nl ++
    "        SELECT code, message, source, COUNT(*) as error_count " ++ nl ++
    "        FROM errors " ++ nl ++
    "        WHERE created_at >= " ++ time_filter ++ nl ++
    "        GROUP BY code, message, source " ++ nl ++
    "        ORDER BY error_count DESC " ++ nl ++
    "        LIMIT " ++ limit ++ nl ++
    "        " in
  let explanation :=
    "Finding top " ++ limit ++ " errors from the last " ++ time_value ++ " "
      ++ time_unit ++ "(s)" in
  Ret (Some (strip sql), Some explanation).

Definition _handle_errors_timeframe (m : caps) (question : string) : py answer :=
  time_value <- group_text m 1 ;;
  time_unit <- group_text m 2 ;;
  time_filter <- _get_time_filter time_value time_unit ;;
  let sql :=
    nl ++
    "        SELECT * " ++ nl ++
    "        FROM errors " ++ nl ++
    "        WHERE created_at >= " ++ time_filter ++ nl ++
    "        ORDER BY created_at DESC" ++ nl ++
    "        " in
  let explanation :=
    "Showing all errors from the last " ++ time_value ++ " " ++ time_unit ++ "(s)" in
  Ret (Some (strip sql), Some explanation).

Definition _handle_failed_tests (m : caps) (question : string) : py answer :=
  time_value <- group_text m 1 ;;
  time_unit <- group_text m 2 ;;
  time_filter <- _get_time_filter time_value time_unit ;;
  let sql :=
    nl ++
    "        SELECT tr.*, a.name as agent_name " ++ nl ++
    "        FROM test_runs tr " ++ nl ++
    "        JOIN agents a ON tr.agent_id = a.id " ++ nl ++
    "        WHERE tr.result = 'fail' " ++ nl ++
    "        AND tr.created_at >= " ++ time_filter ++ nl ++
    "        ORDER BY tr.created_at DESC" ++ nl ++
    "        " in
  let explanation :=
    "Finding failed test runs from the last " ++ time_value ++ " " ++ time_unit ++ "(s)" in
  Ret (Some (strip sql), Some explanation).

Definition _handle_successful_tests (m : caps) (question : string) : py answer :=
  let sql :=
    nl ++
    "        SELECT tr.*, a.name as agent_name " ++ nl ++
    "        FROM test_runs tr " ++ nl ++
    "        JOIN agents a ON tr.agent_id = a.id " ++ nl ++
    "        WHERE tr.result = 'pass' " ++ nl ++
    "        ORDER BY tr.created_at DESC" ++ nl ++
    "        " in
  let explanation := "Finding all successful test runs" in
  Ret (Some (strip sql), Some explanation).

Definition _handle_inactive_integrations (m : caps) (question : string) : py answer :=
  let sql :=
    nl ++
    "        SELECT i.*, w.name as workspace_name " ++ nl ++
    "        FROM integrations i " ++ nl ++
    "        JOIN workspaces w ON i.workspace_id = w.id " ++ nl ++
    "        WHERE i.status = 'inactive'" ++ nl ++
    "        ORDER BY i.created_at DESC" ++ nl ++
    "        " in
  let explanation := "Finding all inactive integrations" in
  Ret (Some (strip sql), Some explanation).

Definition _handle_integrations_by_status (m : caps) (question : string) : py answer :=
  let sql :=
    nl ++
    "        SELECT type, status, COUNT(*) as count " ++ nl ++
    "        FROM integrations " ++ nl ++
    "        GROUP BY type, status " ++ nl ++
    "        ORDER BY type, status" ++ nl ++
    "        " in
  let explanation := "Grouping integrations by type and status" in
  Ret (Some (strip sql), Some explanation).

Definition _handle_agents_by_language (m : caps) (question : string) : py answer :=
  g <- group_text m 1 ;;
  let language_name := lower g in
  let language_code := dict_get languages language_name (slice_to 2 language_name) in
  let sql :=
    nl ++
    "        SELECT a.*, w.name as workspace_name " ++ nl ++
    "        FROM agents a " ++ nl ++
    "        JOIN workspaces w ON a.workspace_id = w.id " ++ nl ++
    "        WHERE a.language = '" ++ language_code ++ "'" ++ nl ++
    "        ORDER BY a.created_at DESC" ++ nl ++
    "        " in
  let explanation := "Finding all agents using " ++ language_name ++ " language" in
  Ret (Some (strip sql), Some explanation).

Definition _handle_all_agents (m : caps) (question : string) : py answer :=
  let sql :=
    nl ++
    "        SELECT a.*, w.name as workspace_name " ++ nl ++
    "        FROM agents a " ++ nl ++
    "        JOIN workspaces w ON a.workspace_id = w.id " ++ nl ++
    "        ORDER BY a.created_at DESC" ++ nl ++
    "        " in
  let explanation := "Listing all agents" in
  Ret (Some (strip sql), Some explanation).

Definition _handle_all_workspaces (m : caps) (question : string) : py answer :=
  let sql :=
    nl ++
    "        SELECT * " ++ nl ++
    "        FROM workspaces " ++ nl ++
    "        ORDER BY created_at DESC" ++ nl ++
    "        " in
  let explanation := "Listing all workspaces" in
  Ret (Some (strip sql), Some explanation).

Definition _handle_workspaces_by_plan (m : caps) (question : string) : py answer :=
  let sql :=
    nl ++
    "        SELECT plan, COUNT(*) as count " ++ nl ++
    "        FROM workspaces " ++ nl ++
    "        GROUP BY plan " ++ nl ++
    "        ORDER BY count DESC" ++ nl ++
    "        " in
  let explanation := "Grouping workspaces by plan type" in
  Ret (Some (strip sql), Some explanation).

(** The loop over [self.tables.keys()] that stops at the first table name
    accepted by [test]. *)
Definition first_table (test : string -> bool) : option string :=
  find test table_names.

Definition _handle_count (m : caps) (question : string) : py answer :=
  g <- group_text m 1 ;;
  let entity := lower g in
  let table :=
    first_table (fun table_name =>
      contains entity table_name || startswith table_name entity) in
  if negb (truthy table) then Ret (None, None)
  else
    let sql := "SELECT COUNT(*) as count FROM " ++ match table with Some t => t | None => "None" end in
    let explanation := "Counting total " ++ entity in
    Ret (Some (strip sql), Some explanation).

Definition _handle_errors_by_source (m : caps) (question : string) : py answer :=
  let sql :=
    nl ++
    "        SELECT source, COUNT(*) as count " ++ nl ++
    "        FROM errors " ++ nl ++
    "        GROUP BY source " ++ nl ++
    "        ORDER BY count DESC" ++ nl ++
    "        " in
  let explanation := "Grouping errors by source" in
  Ret (Some (strip sql), Some explanation).

Definition _handle_agent_runs_status (m : caps) (question : string) : py answer :=
  let sql :=
    nl ++
    "        SELECT a.name as agent_name, ar.status, COUNT(*) as count " ++ nl ++
    "        FROM agent_runs ar " ++ nl ++
    "        JOIN agents a ON ar.agent_id = a.id " ++ nl ++
    "        GROUP BY a.name, ar.status " ++ nl ++
    "        ORDER BY a.name, ar.status" ++ nl ++
    "        " in
  let explanation := "Grouping agent runs by status" in
  Ret (Some (strip sql), Some explanation).

Definition _handle_billing_by_workspace (m : caps) (question : string) : py answer :=
  let sql :=
    nl ++
    "        SELECT w.name as workspace_name, " ++ nl ++
    "               SUM(b.total_cost_usd) as total_cost, " ++ nl ++
    "               SUM(b.tokens_used) as total_tokens," ++ nl ++
    "               SUM(b.calls_made) as total_calls" ++ nl ++
    "        FROM billing_usage b " ++ nl ++
    "        JOIN workspaces w ON b.workspace_id = w.id " ++ nl ++
    "        GROUP BY w.id, w.name " ++ nl ++
    "        ORDER BY total_cost DESC" ++ nl ++
    "        " in
  let explanation := "Showing billing usage by workspace" in
  Ret (Some (strip sql), Some explanation).

Definition _handle_top_usage (m : caps) (question : string) : py answer :=
  limit <- group_text m 1 ;;
  let sql :=
    nl ++
    "        SELECT a.name as agent_name, " ++ nl ++
    "               SUM(b.tokens_used) as total_tokens," ++ nl ++
    "               SUM(b.total_cost_usd) as total_cost" ++ nl ++
    "        FROM billing_usage b " ++ nl ++
    "        JOIN agents a ON b.agent_id = a.id " ++ nl ++
    "        GROUP BY a.name " ++ nl ++
    "        ORDER BY total_tokens DESC " ++ nl ++
    "        LIMIT " ++ limit ++ nl ++
    "        " in
  let explanation := "Finding top " ++ limit ++ " agents by token usage" in
  Ret (Some (strip sql), Some explanation).

(** *** [_keyword_based_query] *)

Definition not_understood : string :=
  "Could not understand the question. Try using query templates or be more specific.".

Definition _keyword_based_query (question : string) : py answer :=
  let table :=
    first_table (fun table_name =>
      contains (replace "_" " " table_name) question || contains table_name question) in
  if negb (truthy table) then Ret (None, Some not_understood)
  else
    let t := match table with Some t => t | None => "None" end in
    let sql := "SELECT * FROM " ++ t ++ " LIMIT 100" in
    let explanation := "Showing data from " ++ t ++ " table" in
    Ret (Some sql, Some explanation).

(** *** [_build_patterns]: the ordered rule table *)

Record rule : Type := {
  pattern : regex;
  handler : caps -> string -> py answer
}.

(** [\s+], [\s*] and an optional final [s]. *)
Definition ws1 : regex := Plus Space.
Definition ws0 : regex := Star Space.
Definition s_opt : regex := Opt (lit "s").

(** [(?:for|in|from)?\s*(?:the)?\s*last\s+(\d+)\s+(hour|day|week|month)s?],
    the tail shared by the three time-windowed patterns; [v] and [u] number
    its two groups. *)
Definition last_window (v u : nat) : list regex :=
  [ Opt (alt (lit "for") [lit "in"; lit "from"]); ws0; Opt (lit "the"); ws0;
    lit "last"; ws1; Group v (Plus Digit); ws1;
    Group u (alt (lit "hour") [lit "day"; lit "week"; lit "month"]); s_opt ].

(** [top\s+(\d+)\s+errors?\s+(?:for|in|from)?\s*(?:the)?\s*last\s+(\d+)\s+(hour|day|week|month)s?] *)
Definition pat_top_errors : regex :=
  seq ([ lit "top"; ws1; Group 1 (Plus Digit); ws1; lit "error"; s_opt; ws1 ]
       ++ last_window 2 3).

(** [(?:show|list|get|find)\s+(?:all\s+)?errors?\s+(?:for|in|from)?\s*(?:the)?\s*last\s+(\d+)\s+(hour|day|week|month)s?] *)
Definition pat_errors_timeframe : regex :=
  seq ([ alt (lit "show") [lit "list"; lit "get"; lit "find"]; ws1;
         Opt (seq [lit "all"; ws1]); lit "error"; s_opt; ws1 ]
       ++ last_window 1 2).

(** [(?:show|list|get|find)\s+(?:all\s+)?failed\s+test\s*runs?\s+(?:for|in|from)?\s*(?:the)?\s*last\s+(\d+)\s+(hour|day|week|month)s?] *)
Definition pat_failed_tests : regex :=
  seq ([ alt (lit "show") [lit "list"; lit "get"; lit "find"]; ws1;
         Opt (seq [lit "all"; ws1]); lit "failed"; ws1; lit "test"; ws0;
         lit "run"; s_opt; ws1 ]
       ++ last_window 1 2).

(** [(?:show|list|get|find)\s+(?:all\s+)?(?:successful|passed)\s+test\s*runs?] *)
Definition pat_successful_tests : regex :=
  seq [ alt (lit "show") [lit "list"; lit "get"; lit "find"]; ws1;
        Opt (seq [lit "all"; ws1]); alt (lit "successful") [lit "passed"]; ws1;
        lit "test"; ws0; lit "run"; s_opt ].

(** [(?:which|what|show|list)\s+integrations?\s+(?:are\s+)?inactive] *)
Definition pat_inactive_integrations : regex :=
  seq [ alt (lit "which") [lit "what"; lit "show"; lit "list"]; ws1;
        lit "integration"; s_opt; ws1; Opt (seq [lit "are"; ws1]); lit "inactive" ].

(** [(?:show|list|get)\s+(?:all\s+)?integrations?\s+(?:by\s+)?status] *)
Definition pat_integrations_by_status : regex :=
  seq [ alt (lit "show") [lit "list"; lit "get"]; ws1;
        Opt (seq [lit "all"; ws1]); lit "integration"; s_opt; ws1;
        Opt (seq [lit "by"; ws1]); lit "status" ].

(** [(?:show|list|get|find)\s+(?:all\s+)?agents?\s+(?:using|with|in)\s+(\w+)\s+language] *)
Definition pat_agents_by_language : regex :=
  seq [ alt (lit "show") [lit "list"; lit "get"; lit "find"]; ws1;
        Opt (seq [lit "all"; ws1]); lit "agent"; s_opt; ws1;
        alt (lit "using") [lit "with"; lit "in"]; ws1; Group 1 (Plus Word); ws1;
        lit "language" ].

(** [(?:show|list|get)\s+(?:all\s+)?agents?] *)
Definition pat_all_agents : regex :=
  seq [ alt (lit "show") [lit "list"; lit "get"]; ws1;
        Opt (seq [lit "all"; ws1]); lit "agent"; s_opt ].

(** [(?:show|list|get)\s+(?:all\s+)?workspaces?] *)
Definition pat_all_workspaces : regex :=
  seq [ alt (lit "show") [lit "list"; lit "get"]; ws1;
        Opt (seq [lit "all"; ws1]); lit "workspace"; s_opt ].

(** [workspaces?\s+(?:by\s+)?plan] *)
Definition pat_workspaces_by_plan : regex :=
  seq [ lit "workspace"; s_opt; ws1; Opt (seq [lit "by"; ws1]); lit "plan" ].

(** [(?:how many|count)\s+(\w+)] *)
Definition pat_count : regex :=
  seq [ alt (lit "how many") [lit "count"]; ws1; Group 1 (Plus Word) ].

(** [errors?\s+(?:by\s+)?source] *)
Definition pat_errors_by_source : regex :=
  seq [ lit "error"; s_opt; ws1; Opt (seq [lit "by"; ws1]); lit "source" ].

(** [agent\s+runs?\s+(?:by\s+)?status] *)
Definition pat_agent_runs_status : regex :=
  seq [ lit "agent"; ws1; lit "run"; s_opt; ws1; Opt (seq [lit "by"; ws1]);
        lit "status" ].

(** [(?:billing|usage|cost)\s+(?:by\s+)?workspace] *)
Definition pat_billing_by_workspace : regex :=
  seq [ alt (lit "billing") [lit "usage"; lit "cost"]; ws1;
        Opt (seq [lit "by"; ws1]); lit "workspace" ].

(** [(?:top|highest)\s+(\d+)\s+(?:token|cost|usage)] *)
Definition pat_top_usage : regex :=
  seq [ alt (lit "top") [lit "highest"]; ws1; Group 1 (Plus Digit); ws1;
        alt (lit "token") [lit "cost"; lit "usage"] ].

Definition patterns : list rule :=
  [ {| pattern := pat_top_errors;             handler := _handle_top_errors |};
    {| pattern := pat_errors_timeframe;       handler := _handle_errors_timeframe |};
    {| pattern := pat_failed_tests;           handler := _handle_failed_tests |};
    {| pattern := pat_successful_tests;       handler := _handle_successful_tests |};
    {| pattern := pat_inactive_integrations;  handler := _handle_inactive_integrations |};
    {| pattern := pat_integrations_by_status; handler := _handle_integrations_by_status |};
    {| pattern := pat_agents_by_language;     handler := _handle_agents_by_language |};
    {| pattern := pat_all_agents;             handler := _handle_all_agents |};
    {| pattern := pat_all_workspaces;         handler := _handle_all_workspaces |};
    {| pattern := pat_workspaces_by_plan;     handler := _handle_workspaces_by_plan |};
    {| pattern := pat_count;                  handler := _handle_count |};
    {| pattern := pat_errors_by_source;       handler := _handle_errors_by_source |};
    {| pattern := pat_agent_runs_status;      handler := _handle_agent_runs_status |};
    {| pattern := pat_billing_by_workspace;   handler := _handle_billing_by_workspace |};
    {| pattern := pat_top_usage;              handler := _handle_top_usage |} ].

(** *** [parse_question] *)

(** The [for pattern_info in self.patterns] loop on the normalised question;
    after the last rule, the keyword fallback. *)
Fixpoint try_patterns (rules : list rule) (question : string) : py answer :=
  match rules with
  | [] => _keyword_based_query question
  | pattern_info :: rest =>
      match search (pattern pattern_info) question with
      | Some m =>
          match handler pattern_info m question with
          | Ret (sql, explanation) => Ret (sql, explanation)
          | Raise => try_patterns rest question   (* except Exception: continue *)
          end
      | None => try_patterns rest question
      end
  end.

Definition parse_question (question : string) : py answer :=
  let question := strip (lower question) in
  try_patterns patterns question.

(** *** [get_suggestions] *)

Definition get_suggestions : list string :=
  [ "Top 5 errors for the last 24 hours";
    "Show all failed test runs from last week";
    "Which integrations are inactive";
    "List all agents using Gujarati language";
    "Show all workspaces";
    "Workspaces by plan";
    "How many agents";
    "Errors by source";
    "Agent runs by status";
    "Billing by workspace";
    "Top 10 token users";
    "Show errors for last 7 days";
    "List all agents";
    "Show successful test runs" ].

End LocalNLtoSQL.

(** ** The model-backed translators

    [GeminiNLtoSQL] (src/gemini_nl_sql.py) and [OpenAINLtoSQL]
    (src/openai_nl_sql.py) share the text of [_clean_sql] and of what
    [parse_question] does with the answer of the model.  The model itself is
    outside the program: it is a parameter [ask], which for a question
    gives the text of the answer or fails with the message of an
    exception. *)

Module GeminiNLtoSQL.
Import Py.

Definition answer : Type := (option string * option string)%type.

(** What the call to the model gives: [response.text], or an exception
    with its [str(e)]. *)
Inductive reply : Type :=
| Text (t : string)
| Failed (message : string).

Definition newline : ascii := "010"%char.

(** The loop of [_clean_sql] over the lines; [in_query] is its flag and the
    result is [sql_lines]. *)
Fixpoint scan_lines (lines : list string) (in_query : bool) : list string :=
  match lines with
  | [] => []
  | line :: rest =>
      let line := strip line in
      let in_query := if startswith (upper line) "SELECT" then true else in_query in
      if in_query then
        line :: (if endswith line ";" then [] else scan_lines rest in_query)
      else scan_lines rest in_query
  end.

Definition _clean_sql (sql : string) : string :=
  let sql := replace_str "```" "" (replace_str "```sql" "" sql) in
  let sql := strip sql in
  let lines := split newline sql in
  let sql_lines := scan_lines lines false in
  let sql := join " " sql_lines in
  let sql := strip (rstrip_chars ";" sql) in
  sql.

Definition could_not_generate : string :=
  "Could not generate SQL query. Please try rephrasing your question.".

Definition only_select : string := "Only SELECT queries are allowed for safety.".

Definition parse_question (ask : string -> reply) (question : string) : answer :=
  match ask question with
  | Text t =>
      let sql := strip t in
      let sql := _clean_sql sql in
      if negb (truthy_str sql) then (None, Some could_not_generate)
      else if negb (startswith (upper sql) "SELECT") then (None, Some only_select)
      else
        let explanation := "Generated SQL query for: " ++ question in
        (Some sql, Some explanation)
  | Failed message => (None, Some ("Error generating SQL: " ++ message))
  end.

End GeminiNLtoSQL.

(** [VannaNLtoSQL] (src/vanna_nl_sql.py): [generate_sql], inherited from the
    library, is the parameter; it gives a text, nothing, or fails. *)

Module VannaNLtoSQL.
Import Py.

Definition answer : Type := (option string * option string)%type.

Inductive reply : Type :=
| Generated (sql : option string)
| Failed (message : string).

Definition could_not_generate : string :=
  "Could not generate SQL query. Please try rephrasing your question.".

Definition only_select : string := "Only SELECT queries are allowed for safety.".

Definition parse_question (generate_sql : string -> reply) (question : string) : answer :=
  match generate_sql question with
  | Generated o =>
      if negb (truthy o) then (None, Some could_not_generate)
      else
        let sql := match o with Some t => t | None => EmptyString end in
        let sql := strip sql in
        let sql := if endswith sql ";" then drop_last sql else sql in
        if negb (startswith (upper sql) "SELECT") then (None, Some only_select)
        else
          let explanation := "Generated SQL query using Vanna AI for: " ++ question in
          (Some sql, Some explanation)
  | Failed message => (None, Some ("Error generating SQL: " ++ message))
  end.

End VannaNLtoSQL.

(** [OllamaNLtoSQL] (src/ollama_nl_sql.py): the HTTP call to the local
    server is the parameter [post]; it gives the status code of the answer
    with the text of the field [response] of its body (the empty text when
    the field is missing), or fails by a timeout, a refused connection or
    another exception with its message.  [model] is [self.model].  A status
    code has three digits ([http.client] accepts no other), so that its
    formatting in the error message stays far below the limit of [str]. *)

Module OllamaNLtoSQL.
Import Py.

Definition answer : Type := (option string * option string)%type.

Inductive reply : Type :=
| Response (status_code : N) (response : string)
| Timeout
| ConnectionError
| Failed (message : string).

Definition newline : ascii := "010"%char.

Definition prefixes : list string := ["SQL:"; "Query:"; "Answer:"; "SELECT"].

(** The body of the loop over [prefixes[:-1]]. *)
Definition remove_prefix (sql prefix : string) : string :=
  if startswith sql prefix then strip (drop (String.length prefix) sql) else sql.

(** The loop of [_clean_sql] over the lines, from the current [sql_lines]
    to the final one. *)
Fixpoint scan_lines (lines : list string) (sql_lines : list string) : list string :=
  match lines with
  | [] => sql_lines
  | line :: rest =>
      let line := strip line in
      if negb (truthy_str line) || startswith line "--" then scan_lines rest sql_lines
      else if startswith (upper line) "SELECT" then scan_lines rest [line]
      else
        match sql_lines with
        | _ :: _ =>
            let sql_lines := (sql_lines ++ [line])%list in
            if endswith line ";" then sql_lines else scan_lines rest sql_lines
        | [] => scan_lines rest sql_lines
        end
  end.

Definition _clean_sql (sql : string) : string :=
  let sql := replace_str "```" "" (replace_str "```sql" "" sql) in
  let sql := fold_left remove_prefix (removelast prefixes) sql in
  let lines := split newline sql in
  let sql_lines := scan_lines lines [] in
  let sql :=
    match sql_lines with
    | _ :: _ => join " " sql_lines
    | [] => hd EmptyString (split newline sql)
    end in
  let sql := strip (rstrip_chars ";" sql) in
  sql.

Definition could_not_generate : string :=
  "Could not generate SQL query. Please try rephrasing your question.".

Definition only_select : string := "Only SELECT queries are allowed for safety.".

Definition parse_question (post : string -> reply) (model question : string) : answer :=
  match post question with
  | Response status_code response =>
      if negb (N.eqb status_code 200) then
        (None, Some ("Ollama API error: " ++ decimal status_code))
      else
        let sql := strip response in
        let sql := _clean_sql sql in
        if negb (truthy_str sql) then (None, Some could_not_generate)
        else if negb (startswith (upper sql) "SELECT") then (None, Some only_select)
        else
          let explanation := "Generated SQL using Ollama (" ++ model ++ ")" in
          (Some sql, Some explanation)
  | Timeout =>
      (None, Some "Ollama request timed out. The model might be slow or not loaded.")
  | ConnectionError =>
      (None, Some "Cannot connect to Ollama. Make sure Ollama is running.")
  | Failed message => (None, Some ("Error generating SQL: " ++ message))
  end.

End OllamaNLtoSQL.

Import Py LocalNLtoSQL.

(** ** Specification-side definitions *)

(** *** What a pattern matches: the denotation of [regex]

    [M r t m m'] : the pattern [r] matches exactly the text [t] and turns the
    captures [m] into [m'].  The matcher [rx] is sound for it. *)
Inductive M : regex -> string -> caps -> caps -> Prop :=
| M_eps m : M Eps EmptyString m m
| M_atom a c m : atom_ok a c = true -> M (Atom a) (String c EmptyString) m m
| M_plus a c t m :
    atom_ok a c = true -> all (atom_ok a) t = true -> M (Plus a) (String c t) m m
| M_star a t m : all (atom_ok a) t = true -> M (Star a) t m m
| M_seq r1 r2 t1 t2 m m1 m2 :
    M r1 t1 m m1 -> M r2 t2 m1 m2 -> M (Seq r1 r2) (t1 ++ t2) m m2
| M_alt_l r1 r2 t m m' : M r1 t m m' -> M (Alt r1 r2) t m m'
| M_alt_r r1 r2 t m m' : M r2 t m m' -> M (Alt r1 r2) t m m'
| M_opt_some r t m m' : M r t m m' -> M (Opt r) t m m'
| M_opt_none r m : M (Opt r) EmptyString m m
| M_group i r t m m' : M r t m m' -> M (Group i r) t m ((i, t) :: m').

(** [x] is in the language of [r]. *)
Definition Lang (r : regex) (x : string) : Prop := exists m m', M r x m m'.

(** [x] occurs in [t] as a literal substring. *)
Definition infix (x t : string) : Prop := exists pre post, t = pre ++ x ++ post.

(** The capturing groups of a pattern with their bodies, and the groups
    that lie on every path through it. *)
Fixpoint groups_in (r : regex) : list (nat * regex) :=
  match r with
  | Seq a b | Alt a b => groups_in a ++ groups_in b
  | Opt a => groups_in a
  | Group i a => (i, a) :: groups_in a
  | _ => []
  end.

Fixpoint sure (r : regex) : list nat :=
  match r with
  | Seq a b => sure a ++ sure b
  | Group i a => i :: sure a
  | _ => []
  end.

(** A character that [str.lower] leaves alone. *)
Definition lowered (c : ascii) : bool := Ascii.eqb (lower_char c) c.

(** A non-empty run of decimal digits: what [(\d+)] captures. *)
Definition numeral (s : string) : Prop := s <> EmptyString /\ all is_digit s = true.

(** A non-empty run of word characters: what [(\w+)] captures. *)
Definition word (s : string) : Prop := s <> EmptyString /\ all is_word s = true.

(** The four unit words of [(hour|day|week|month)]. *)
Definition is_unit (u : string) : Prop :=
  u = "hour" \/ u = "day" \/ u = "week" \/ u = "month".

(** A text is tight when it is non-empty and [rstrip] leaves it alone. *)
Definition tight (s : string) : Prop := s <> "" /\ rstrip s = s.

(** The character [c] does not occur in [w]. *)
Definition avoids (c : ascii) (w : string) : bool :=
  all (fun x => negb (Ascii.eqb x c)) w.

(** The first character of a text is not blank. *)
Definition head_ok (s : string) : bool :=
  match s with
  | String c _ => negb (is_space c)
  | EmptyString => false
  end.

(** The blanks around every multi-line SQL template. *)
Definition frame : string := nl ++ "        ".

(** *** The SQL texts the handlers return, after [strip] *)

(** The value of [_get_time_filter] on a numeral [v], when it returns. *)
Definition time_filter (v u : string) : string :=
  "datetime('now', '-" ++ decimal (digits_value 0 v * dict_get multiplier u 1)%N
    ++ " " ++ dict_get unit_map u "days" ++ "')".

(** The conversions of [_get_time_filter] stay within the limit: the value
    [v] for [int], and the number [k] of hours or days for its formatting. *)
Definition fits (v : string) (k : N) : bool :=
  Nat.leb (String.length v) max_str_digits &&
  Nat.leb (String.length (decimal k)) max_str_digits.

(** [_get_time_filter] returns on the numeral [v] and the unit [u]. *)
Definition within_limit (v u : string) : bool :=
  fits v (digits_value 0 v * dict_get multiplier u 1)%N.

(** A numeral of [n] digits. *)
Definition nines (n : nat) : string := string_of_list_ascii (repeat "9"%char n).

(** The two results that the specification of [parse_question] names: SQL
    with an explanation, or no SQL with a reason. *)
Definition answer_shape (a : answer) : Prop :=
  (exists sql e, a = (Some sql, Some e)) \/ (exists reason, a = (None, Some reason)).

(** A question so short that no number in it, multiplied by 30, passes the
    limit. *)
Definition short (q : string) : Prop := String.length q + 2 <= max_str_digits.

Definition sql_top_errors (time_filter limit : string) : string :=
  "SELECT code, message, source, COUNT(*) as error_count " ++ nl ++
  "        FROM errors " ++ nl ++
  "        WHERE created_at >= " ++ time_filter ++ nl ++
  "        GROUP BY code, message, source " ++ nl ++
  "        ORDER BY error_count DESC " ++ nl ++
  "        LIMIT " ++ limit.

Definition sql_errors_timeframe (time_filter : string) : string :=
  "SELECT * " ++ nl ++
  "        FROM errors " ++ nl ++
  "        WHERE created_at >= " ++ time_filter ++ nl ++
  "        ORDER BY created_at DESC".

Definition sql_failed_tests (time_filter : string) : string :=
  "SELECT tr.*, a.name as agent_name " ++ nl ++
  "        FROM test_runs tr " ++ nl ++
  "        JOIN agents a ON tr.agent_id = a.id " ++ nl ++
  "        WHERE tr.result = 'fail' " ++ nl ++
  "        AND tr.created_at >= " ++ time_filter ++ nl ++
  "        ORDER BY tr.created_at DESC".

Definition sql_agents_by_language (language_code : string) : string :=
  "SELECT a.*, w.name as workspace_name " ++ nl ++
  "        FROM agents a " ++ nl ++
  "        JOIN workspaces w ON a.workspace_id = w.id " ++ nl ++
  "        WHERE a.language = '" ++ language_code ++ "'" ++ nl ++
  "        ORDER BY a.created_at DESC".

Definition sql_top_usage (limit : string) : string :=
  "SELECT a.name as agent_name, " ++ nl ++
  "               SUM(b.tokens_used) as total_tokens," ++ nl ++
  "               SUM(b.total_cost_usd) as total_cost" ++ nl ++
  "        FROM billing_usage b " ++ nl ++
  "        JOIN agents a ON b.agent_id = a.id " ++ nl ++
  "        GROUP BY a.name " ++ nl ++
  "        ORDER BY total_tokens DESC " ++ nl ++
  "        LIMIT " ++ limit.

Definition sql_count (table : string) : string :=
  "SELECT COUNT(*) as count FROM " ++ table.

Definition sql_keyword (table : string) : string :=
  "SELECT * FROM " ++ table ++ " LIMIT 100".

(** The handlers without captures return one fixed text each. *)
Definition fixed_handlers : list (caps -> string -> py answer) :=
  [ _handle_successful_tests; _handle_inactive_integrations;
    _handle_integrations_by_status; _handle_all_agents; _handle_all_workspaces;
    _handle_workspaces_by_plan; _handle_errors_by_source;
    _handle_agent_runs_status; _handle_billing_by_workspace ].

Definition sql_of (a : py answer) : list string :=
  match a with
  | Ret (Some sql, _) => [sql]
  | _ => []
  end.

Definition fixed_sql : list string :=
  Eval vm_compute in flat_map (fun h => sql_of (h [] "")) fixed_handlers.

(** The value interpolated by the agents-by-language handler: a lexicon
    code, or the first two characters of a lower-cased [\w+] capture. *)
Definition language_value (code : string) : Prop :=
  (exists name, In (name, code) languages) \/
  (exists g, word g /\ code = slice_to 2 (lower g)).

(** Every SQL text the translator can return. *)
Inductive generated : string -> Prop :=
| gen_top_errors limit v u :
    numeral limit -> numeral v -> is_unit u ->
    generated (sql_top_errors (time_filter v u) limit)
| gen_errors_timeframe v u :
    numeral v -> is_unit u -> generated (sql_errors_timeframe (time_filter v u))
| gen_failed_tests v u :
    numeral v -> is_unit u -> generated (sql_failed_tests (time_filter v u))
| gen_agents_by_language code :
    language_value code -> generated (sql_agents_by_language code)
| gen_top_usage limit : numeral limit -> generated (sql_top_usage limit)
| gen_count table : In table table_names -> generated (sql_count table)
| gen_keyword table : In table table_names -> generated (sql_keyword table)
| gen_fixed sql : In sql fixed_sql -> generated sql.

(** The answer of a rule whose recognizer succeeded on a normalised
    question: SQL with an explanation, or the empty pair of the count rule
    when no table resolves. *)
Definition rule_answer (a : answer) : Prop :=
  (exists sql e, a = (Some sql, Some e) /\ generated sql) \/ a = (None, None).

(** *** Time windows, in the words of the specification *)

(** hour -> V hours, day -> V days, week -> 7 V days, month -> 30 V days. *)
Definition normalize (V : N) (U : string) : option (N * string) :=
  if String.eqb U "hour" then Some (V, "hours")
  else if String.eqb U "day" then Some (V, "days")
  else if String.eqb U "week" then Some (7 * V, "days")%N
  else if String.eqb U "month" then Some (30 * V, "days")%N
  else None.

(** A lower bound relative to the instant at which the query runs. *)
Definition relative_bound (k : N) (unit : string) : string :=
  "created_at >= datetime('now', '-" ++ decimal k ++ " " ++ unit ++ "')".

(** The time-windowed rules, each with the numbers of its value group and
    of its unit group. *)
Definition time_windowed : list (rule * (nat * nat)) :=
  [ ({| pattern := pat_top_errors; handler := _handle_top_errors |}, (2, 3));
    ({| pattern := pat_errors_timeframe; handler := _handle_errors_timeframe |}, (1, 2));
    ({| pattern := pat_failed_tests; handler := _handle_failed_tests |}, (1, 2)) ].

(** *** Resolution of free-text captures, in the words of the specification *)

(** The lexicon code of a language name, if it has one. *)
Fixpoint lexicon_code (name : string) (lexicon : list (string * string)) : option string :=
  match lexicon with
  | [] => None
  | (n, code) :: rest => if String.eqb name n then Some code else lexicon_code name rest
  end.

(** The language filter value for a captured name [L]: its lexicon code, or
    else the first two characters of the lower-cased name. *)
Definition language_filter_value (L : string) : string :=
  match lexicon_code (lower L) languages with
  | Some code => code
  | None => substring 0 2 (lower L)
  end.

(** A table name qualifies for an entity when it contains the entity as a
    substring or starts with it. *)
Definition qualifies (entity table : string) : Prop :=
  infix entity table \/ exists rest, table = entity ++ rest.

(** The question mentions a table: its name, with underscores or with the
    underscores replaced by spaces, is a substring of the question. *)
Definition mentions (question table : string) : Prop :=
  infix (replace "_" " " table) question \/ infix table question.

(** [t] is the first element of [l], in order, that satisfies [P]. *)
Definition first_such {A : Type} (P : A -> Prop) (l : list A) (t : A) : Prop :=
  exists before after,
    l = (before ++ t :: after)%list /\ P t /\ forall x, In x before -> ~ P x.

(** The rules declared before the agents-by-language rule, and before the
    count rule. *)
Definition rules_before_language : list rule := firstn 6 patterns.
Definition rules_before_count : list rule := firstn 10 patterns.

(** A value that went through the catalog or through the lexicon: a table
    name of the catalog, or a language code of the lexicon. *)
Definition through_catalog_or_lexicon (value : string) : Prop :=
  In value table_names \/ exists name, In (name, value) languages.

(** Where the interpolated values of a returned SQL text come from, for the
    normalised question [q]:
    - nowhere, the text is fixed;
    - a table name, from the keys of the catalog;
    - the language value, from the capture [L] of the agents-by-language
      pattern through the lexicon, or else its first two characters;
    - the row limit of the top-usage and of the top-N-errors query, the
      capture of [(\d+)] as it stands in the question;
    - the time filter, from the captures [V] and [U] of a time-windowed
      pattern through [int] and the multiplier of the unit. *)
Definition provenance (q sql : string) : Prop :=
  In sql fixed_sql \/
  (exists t, In t table_names /\ (sql = sql_count t \/ sql = sql_keyword t)) \/
  (exists m L,
     search pat_agents_by_language q = Some m /\ group m 1 = Some L /\
     word L /\ sql = sql_agents_by_language (language_filter_value L)) \/
  (exists m limit,
     search pat_top_usage q = Some m /\ group m 1 = Some limit /\
     numeral limit /\ infix limit q /\ sql = sql_top_usage limit) \/
  (exists m limit V U,
     search pat_top_errors q = Some m /\ group m 1 = Some limit /\
     group m 2 = Some V /\ group m 3 = Some U /\
     numeral limit /\ infix limit q /\ numeral V /\ is_unit U /\
     sql = sql_top_errors (time_filter V U) limit) \/
  (exists m V U,
     search pat_errors_timeframe q = Some m /\
     group m 1 = Some V /\ group m 2 = Some U /\ numeral V /\ is_unit U /\
     sql = sql_errors_timeframe (time_filter V U)) \/
  (exists m V U,
     search pat_failed_tests q = Some m /\
     group m 1 = Some V /\ group m 2 = Some U /\ numeral V /\ is_unit U /\
     sql = sql_failed_tests (time_filter V U)).

(** *** The read-only postcondition on SQL texts *)

(** The statement keywords that write. *)
Definition write_keywords : list string :=
  ["INSERT"; "UPDATE"; "DELETE"; "DROP"; "ALTER"].

(** [w] occurs in [s] as a whole token: the occurrence is not preceded and
    not followed by a word character. *)
Definition boundary_before (pre : string) : Prop :=
  pre = "" \/ exists p c, pre = p ++ String c "" /\ is_word c = false.

Definition boundary_after (post : string) : Prop :=
  post = "" \/ exists c p, post = String c p /\ is_word c = false.

Definition token_occurs (w s : string) : Prop :=
  exists pre post, s = pre ++ w ++ post /\ boundary_before pre /\ boundary_after post.

(** The postcondition, on the trimmed and upper-cased text [u]: it starts
    with SELECT, holds no semicolon, and holds no write keyword, neither as
    a token nor inside one. *)
Definition read_only (sql : string) : Prop :=
  let u := upper (strip sql) in
  startswith u "SELECT" = true /\
  contains ";" u = false /\
  forall k, In k write_keywords -> contains k u = false /\ ~ token_occurs k u.

(** The texts that must not occur in generated SQL. *)
Definition forbidden : list string := ";" :: write_keywords.

(** The last, respectively first, character of [s] does not occur in the
    non-empty [k]. *)
Fixpoint last_avoids (k s : string) : bool :=
  match s with
  | EmptyString => false
  | String c EmptyString => avoids c k
  | String _ s' => last_avoids k s'
  end.

Definition head_avoids (k s : string) : bool :=
  match s with
  | EmptyString => false
  | String c _ => avoids c k
  end.

Definition nonempty (k : string) : bool :=
  match k with
  | EmptyString => false
  | String _ _ => true
  end.

(** *** Recognised questions *)

(** Some rule of the table matches the normalised question. *)
Definition recognised (q : string) : Prop :=
  exists r, In r patterns /\ search (pattern r) (strip (lower q)) <> None.

(** The rule [r] decides the question [q]: no rule declared before it
    matches, its own pattern does, and its handler returns SQL, which is
    the answer. *)
Definition decides (r : rule) (q : string) : Prop :=
  exists before after m sql e,
    patterns = (before ++ r :: after)%list /\
    (forall r', In r' before -> search (pattern r') (strip (lower q)) = None) /\
    search (pattern r) (strip (lower q)) = Some m /\
    handler r m (strip (lower q)) = Ret (Some sql, Some e) /\
    parse_question q = Ret (Some sql, Some e).

(** Some rule matches the normalised question, as a test. *)
Definition recognisedb (q : string) : bool :=
  existsb (fun r => match search (pattern r) (strip (lower q)) with
                    | Some _ => true
                    | None => false
                    end) patterns.

(** The text [s] does not go on with a character of the class [a]. *)
Definition stops (a : atom) (s : string) : bool :=
  match s with
  | String c _ => negb (atom_ok a c)
  | EmptyString => true
  end.

(** *** The cleaning of model answers *)

(** An ASCII letter. *)
Definition letter (c : ascii) : bool :=
  between 65 90 (code c) || between 97 122 (code c).

(** A one-line query as the model should give it: trimmed, without a
    newline and without a code fence, starting with SELECT in any letter
    case and not ending with a semicolon. *)
Definition plain_query (s : string) : Prop :=
  strip s = s /\ avoids GeminiNLtoSQL.newline s = true /\
  contains "```" s = false /\
  startswith (upper s) "SELECT" = true /\ endswith s ";" = false.

(** A run of semicolons. *)
Definition semicolons (k : string) : bool := all (fun c => Ascii.eqb c ";") k.

(** *** The cleaning of the answers of the local model *)

(** The answer once the code fences and the labels at its front are gone. *)
Definition unlabelled (sql : string) : string :=
  fold_left OllamaNLtoSQL.remove_prefix (removelast OllamaNLtoSQL.prefixes)
    (replace_str "```" "" (replace_str "```sql" "" sql)).

(** Some line of the text, trimmed, starts with SELECT in any letter case. *)
Definition select_line (text : string) : bool :=
  existsb (fun line => startswith (upper (strip line)) "SELECT")
    (split OllamaNLtoSQL.newline text).

(** What may stand before the query: nothing, or one of the labels that
    [_clean_sql] removes, followed by blanks. *)
Definition preamble (pre : string) : Prop :=
  pre = "" \/
  exists p w, In p (removelast OllamaNLtoSQL.prefixes) /\ all is_space w = true /\
              pre = p ++ w.

(** ** Strings *)

Lemma app_assoc (a b c : string) : (a ++ b) ++ c = a ++ b ++ c.
Proof. induction a as [|x a IH]; simpl; [reflexivity | now rewrite IH]. Qed.

Lemma app_nil_r (a : string) : a ++ "" = a.
Proof. induction a as [|x a IH]; simpl; [reflexivity | now rewrite IH]. Qed.

Lemma length_app (a b : string) :
  String.length (a ++ b) = String.length a + String.length b.
Proof. induction a as [|x a IH]; simpl; [reflexivity | now rewrite IH]. Qed.

Lemma all_app (p : ascii -> bool) (a b : string) :
  all p (a ++ b) = all p a && all p b.
Proof.
  induction a as [|x a IH]; simpl; [reflexivity|].
  now rewrite IH, andb_assoc.
Qed.

Lemma all_infix (p : ascii -> bool) (x t : string) :
  infix x t -> all p t = true -> all p x = true.
Proof.
  intros (pre & post & ->). rewrite !all_app.
  intros H. apply andb_prop in H as [_ H]. now apply andb_prop in H as [H _].
Qed.

Lemma infix_refl (t : string) : infix t t.
Proof. exists "", "". simpl. now rewrite app_nil_r. Qed.

Lemma infix_trans (x y z : string) : infix x y -> infix y z -> infix x z.
Proof.
  intros (p1 & q1 & ->) (p2 & q2 & ->).
  exists (p2 ++ p1), (q1 ++ q2). now rewrite !app_assoc.
Qed.

Lemma infix_app_l (x a b : string) : infix x a -> infix x (a ++ b).
Proof.
  intros (p & q & ->). exists p, (q ++ b). now rewrite !app_assoc.
Qed.

Lemma infix_app_r (x a b : string) : infix x b -> infix x (a ++ b).
Proof.
  intros (p & q & ->). exists (a ++ p), q. now rewrite !app_assoc.
Qed.

Lemma consumed_app (t s' : string) : consumed (t ++ s') s' = t.
Proof.
  unfold consumed. rewrite length_app.
  replace (String.length t + String.length s' - String.length s')
    with (String.length t) by lia.
  induction t as [|c t IH]; simpl.
  - destruct s'; reflexivity.
  - now rewrite IH.
Qed.

(** ** The matcher is sound for the denotation *)

Lemma star_sound (a : atom) (s : string) (k : string -> option caps) (res : caps) :
  star a s k = Some res ->
  exists t s', s = t ++ s' /\ all (atom_ok a) t = true /\ k s' = Some res.
Proof.
  induction s as [|c s IH]; simpl; intros H.
  - exists "", "". auto.
  - destruct (atom_ok a c) eqn:Hc.
    + destruct (star a s k) as [r|] eqn:Hs.
      * injection H as ->.
        destruct (IH eq_refl) as (t & s' & -> & Ht & Hk).
        exists (String c t), s'. simpl. now rewrite Hc, Ht.
      * exists "", (String c s). auto.
    + exists "", (String c s). auto.
Qed.

Lemma rx_sound (r : regex) :
  forall s m k res,
    rx r s m k = Some res ->
    exists t s' m', s = t ++ s' /\ M r t m m' /\ k s' m' = Some res.
Proof.
  induction r as [|a|a|a|r1 IH1 r2 IH2|r1 IH1 r2 IH2|r1 IH1|i r1 IH1];
    simpl; intros s m k res H.
  - exists "", s, m. repeat split; [constructor | assumption].
  - destruct s as [|c s]; [discriminate|].
    destruct (atom_ok a c) eqn:Hc; [|discriminate].
    exists (String c ""), s, m. repeat split; [now constructor | assumption].
  - destruct s as [|c s]; [discriminate|].
    destruct (atom_ok a c) eqn:Hc; [|discriminate].
    apply star_sound in H as (t & s' & -> & Ht & Hk).
    exists (String c t), s', m. repeat split; [now constructor | assumption].
  - apply star_sound in H as (t & s' & -> & Ht & Hk).
    exists t, s', m. repeat split; [now constructor | assumption].
  - apply IH1 in H as (t1 & s1 & m1 & -> & H1 & H).
    apply IH2 in H as (t2 & s2 & m2 & -> & H2 & H).
    exists (t1 ++ t2), s2, m2. rewrite app_assoc.
    repeat split; [econstructor; eassumption | assumption].
  - destruct (rx r1 s m k) as [x|] eqn:E.
    + injection H as ->. apply IH1 in E as (t & s' & m' & -> & H1 & H).
      exists t, s', m'. repeat split; [now apply M_alt_l | assumption].
    + apply IH2 in H as (t & s' & m' & -> & H1 & H).
      exists t, s', m'. repeat split; [now apply M_alt_r | assumption].
  - destruct (rx r1 s m k) as [x|] eqn:E.
    + injection H as ->. apply IH1 in E as (t & s' & m' & -> & H1 & H).
      exists t, s', m'. repeat split; [now apply M_opt_some | assumption].
    + exists "", s, m. repeat split; [apply M_opt_none | assumption].
  - apply IH1 in H as (t & s' & m' & -> & H1 & H).
    rewrite consumed_app in H.
    exists t, s', ((i, t) :: m'). repeat split; [now constructor | assumption].
Qed.

Lemma match_here_sound (r : regex) (s : string) (m : caps) :
  match_here r s = Some m -> exists t s', s = t ++ s' /\ M r t [] m.
Proof.
  unfold match_here. intros H.
  apply rx_sound in H as (t & s' & m' & -> & HM & H).
  injection H as ->. eauto.
Qed.

(** A successful [search] found a substring of the question that the
    pattern matches. *)
Lemma search_sound (r : regex) (s : string) (m : caps) :
  search r s = Some m -> exists t, infix t s /\ M r t [] m.
Proof.
  induction s as [|c s IH]; simpl.
  - destruct (match_here r "") as [x|] eqn:E; [|discriminate].
    intros [= ->]. apply match_here_sound in E as (t & s' & -> & HM).
    exists t. split; [|assumption]. exists "", s'. reflexivity.
  - destruct (match_here r (String c s)) as [x|] eqn:E.
    + intros [= ->]. apply match_here_sound in E as (t & s' & -> & HM).
      exists t. split; [|assumption]. exists "", s'. reflexivity.
    + intros H. apply IH in H as (t & Hin & HM).
      exists t. split; [|assumption].
      change (String c s) with (String c "" ++ s). now apply infix_app_r.
Qed.

(** The matcher is complete as well: backtracking finds a match whenever
    the denotation has one. *)
Lemma star_complete (a : atom) (t s' : string) (k : string -> option caps) :
  all (atom_ok a) t = true -> k s' <> None -> star a (t ++ s') k <> None.
Proof.
  intros Ht Hk. induction t as [|c t IH]; simpl in *.
  - destruct s' as [|c s']; simpl; [assumption|].
    destruct (atom_ok a c); [|assumption].
    destruct (star a s' k); [discriminate | assumption].
  - apply andb_prop in Ht as [Hc Ht]. rewrite Hc.
    specialize (IH Ht). destruct (star a (t ++ s') k); [discriminate | contradiction].
Qed.

Lemma rx_complete (r : regex) (t : string) (m m' : caps) :
  M r t m m' ->
  forall s' k, k s' m' <> None -> rx r (t ++ s') m k <> None.
Proof.
  induction 1 as [m|a c m Hc|a c t m Hc Ht|a t m Ht
                 |r1 r2 t1 t2 m m1 m2 H1 IH1 H2 IH2
                 |r1 r2 t m m' H1 IH1|r1 r2 t m m' H1 IH1
                 |r1 t m m' H1 IH1|r1 m|j r1 t m m' H1 IH1];
    intros s' k Hk; simpl.
  - assumption.
  - now rewrite Hc.
  - rewrite Hc. now apply star_complete.
  - now apply star_complete.
  - rewrite app_assoc. apply IH1. now apply IH2.
  - specialize (IH1 _ _ Hk). destruct (rx r1 (t ++ s') m k); [discriminate | contradiction].
  - destruct (rx r1 (t ++ s') m k); [discriminate | now apply IH1].
  - specialize (IH1 _ _ Hk). destruct (rx r1 (t ++ s') m k); [discriminate | contradiction].
  - destruct (rx r1 s' m k); [discriminate | assumption].
  - apply IH1. now rewrite consumed_app.
Qed.

(** [search] succeeds exactly when some substring of the text is in the
    language of the pattern. *)
Lemma search_matches (r : regex) (s : string) :
  search r s <> None <-> exists t m, infix t s /\ M r t [] m.
Proof.
  split.
  - destruct (search r s) as [m|] eqn:E; [|congruence].
    intros _. apply search_sound in E as (t & Ht & HM). eauto.
  - intros (t & m & (pre & post & ->) & HM).
    induction pre as [|c pre IH].
    + assert (H : match_here r (t ++ post) <> None)
        by (apply (rx_complete _ _ _ _ HM); discriminate).
      destruct (t ++ post) as [|c u] eqn:E; simpl;
        destruct (match_here r _); congruence.
    + simpl. destruct (match_here r _); [discriminate | exact IH].
Qed.

(** Every capture of a match is a substring of the matched text and lies in
    the language of its group's body. *)
Lemma M_group_sound (r : regex) (t : string) (m0 m : caps) :
  M r t m0 m ->
  forall i x, group m i = Some x ->
    group m0 i = Some x \/
    exists body, In (i, body) (groups_in r) /\ Lang body x /\ infix x t.
Proof.
  induction 1 as [m|a c m Hc|a c t m Hc Ht|a t m Ht
                 |r1 r2 t1 t2 m m1 m2 H1 IH1 H2 IH2
                 |r1 r2 t m m' H1 IH1|r1 r2 t m m' H1 IH1
                 |r1 t m m' H1 IH1|r1 m|j r1 t m m' H1 IH1];
    intros i x Hg; simpl; auto.
  - destruct (IH2 _ _ Hg) as [Hg1|(body & Hin & HL & Hx)].
    + destruct (IH1 _ _ Hg1) as [Hg0|(body & Hin & HL & Hx)]; [now left|].
      right. exists body. repeat split; auto using in_or_app, infix_app_l.
    + right. exists body. repeat split; auto using in_or_app, infix_app_r.
  - destruct (IH1 _ _ Hg) as [Hg0|(body & Hin & HL & Hx)]; [now left|].
    right. exists body. repeat split; auto using in_or_app.
  - destruct (IH1 _ _ Hg) as [Hg0|(body & Hin & HL & Hx)]; [now left|].
    right. exists body. repeat split; auto using in_or_app.
  - simpl in Hg. destruct (Nat.eqb i j) eqn:E.
    + injection Hg as <-. apply PeanoNat.Nat.eqb_eq in E as ->.
      right. exists r1. repeat split; [now left | now exists m, m' | apply infix_refl].
    + destruct (IH1 _ _ Hg) as [Hg0|(body & Hin & HL & Hx)]; [now left|].
      right. exists body. repeat split; auto; now right.
Qed.

(** A group on every path of the pattern is bound by every match. *)
Lemma M_group_present (r : regex) (t : string) (m0 m : caps) :
  M r t m0 m ->
  forall i, In i (sure r) \/ group m0 i <> None -> group m i <> None.
Proof.
  induction 1 as [m|a c m Hc|a c t m Hc Ht|a t m Ht
                 |r1 r2 t1 t2 m m1 m2 H1 IH1 H2 IH2
                 |r1 r2 t m m' H1 IH1|r1 r2 t m m' H1 IH1
                 |r1 t m m' H1 IH1|r1 m|j r1 t m m' H1 IH1];
    intros i Hi; simpl in *;
    try (destruct Hi as [[]|Hi]; solve [exact Hi | apply IH1; now right]).
  - destruct Hi as [Hi|Hi].
    + apply in_app_or in Hi as [Hi|Hi]; auto.
    + auto.
  - destruct (Nat.eqb i j) eqn:E; [discriminate|].
    apply IH1. destruct Hi as [[->|Hi]|Hi]; auto.
    now rewrite PeanoNat.Nat.eqb_refl in E.
Qed.

(** ** Characters *)

Ltac each_char c := destruct c as [[] [] [] [] [] [] [] []]; vm_compute.

Lemma lower_char_lowered (c : ascii) : lowered (lower_char c) = true.
Proof. each_char c; reflexivity. Qed.

Lemma digit_is_word (c : ascii) : is_digit c = true -> is_word c = true.
Proof. each_char c; auto. Qed.

Lemma digit_not_space (c : ascii) : is_digit c = true -> is_space c = false.
Proof. each_char c; auto; discriminate. Qed.

Lemma upper_char_cases (c : ascii) :
  upper_char c = "SS" \/ exists d, upper_char c = String d "".
Proof. each_char c; eauto. Qed.

Lemma all_impl (p q : ascii -> bool) (s : string) :
  (forall c, p c = true -> q c = true) -> all p s = true -> all q s = true.
Proof.
  intros Hpq. induction s as [|c s IH]; simpl; [reflexivity|].
  intros H. apply andb_prop in H as [Hc Hs]. now rewrite (Hpq _ Hc), IH.
Qed.

Lemma lower_lowered (s : string) : all lowered (lower s) = true.
Proof.
  induction s as [|c s IH]; simpl; [reflexivity|].
  now rewrite lower_char_lowered, IH.
Qed.

Lemma lowered_lower (s : string) : all lowered s = true -> lower s = s.
Proof.
  induction s as [|c s IH]; simpl; [reflexivity|].
  intros H. apply andb_prop in H as [Hc Hs].
  unfold lowered in Hc. apply Ascii.eqb_eq in Hc. now rewrite Hc, IH.
Qed.

Lemma lower_all (p : ascii -> bool) (s : string) :
  (forall c, p c = true -> p (lower_char c) = true) ->
  all p s = true -> all p (lower s) = true.
Proof.
  intros Hp. induction s as [|c s IH]; simpl; [reflexivity|].
  intros H. apply andb_prop in H as [Hc Hs]. now rewrite (Hp _ Hc), IH.
Qed.

Lemma lower_char_word (c : ascii) : is_word c = true -> is_word (lower_char c) = true.
Proof. each_char c; auto. Qed.

(** ** [strip] *)

Lemma all_lstrip (p : ascii -> bool) (s : string) :
  all p s = true -> all p (lstrip s) = true.
Proof.
  induction s as [|c s IH]; simpl; [reflexivity|].
  intros H. destruct (is_space c); [|exact H].
  apply andb_prop in H as [_ H]. auto.
Qed.

Lemma all_rstrip (p : ascii -> bool) (s : string) :
  all p s = true -> all p (rstrip s) = true.
Proof.
  induction s as [|c s IH]; simpl; [reflexivity|].
  intros H. apply andb_prop in H as [Hc Hs]. specialize (IH Hs).
  destruct (rstrip s) as [|d r].
  - destruct (is_space c); simpl; [reflexivity | now rewrite Hc].
  - simpl in *. now rewrite Hc, IH.
Qed.

Lemma all_strip (p : ascii -> bool) (s : string) :
  all p s = true -> all p (strip s) = true.
Proof. intros H. now apply all_rstrip, all_lstrip. Qed.

Lemma lstrip_spaces (w s : string) :
  all is_space w = true -> lstrip (w ++ s) = lstrip s.
Proof.
  induction w as [|c w IH]; simpl; [reflexivity|].
  intros H. apply andb_prop in H as [Hc Hw]. now rewrite Hc, IH.
Qed.

Lemma lstrip_keeps (c : ascii) (s : string) :
  is_space c = false -> lstrip (String c s) = String c s.
Proof. simpl. now intros ->. Qed.

Lemma rstrip_spaces (a w : string) :
  all is_space w = true -> rstrip (a ++ w) = rstrip a.
Proof.
  intros Hw.
  assert (E : rstrip w = "").
  { induction w as [|c w IH]; simpl in *; [reflexivity|].
    apply andb_prop in Hw as [Hc Hw]. now rewrite (IH Hw), Hc. }
  induction a as [|c a IH]; simpl; [exact E | now rewrite IH].
Qed.

Lemma tight_app (a b : string) : tight b -> tight (a ++ b).
Proof.
  intros [Hne Hb]. split.
  - destruct a; simpl; [assumption | discriminate].
  - induction a as [|c a IH]; simpl; [assumption|].
    rewrite IH. destruct (a ++ b) eqn:E; [|reflexivity].
    destruct a; simpl in E; [contradiction | discriminate].
Qed.

Lemma tight_no_space (s : string) :
  s <> "" -> all (fun c => negb (is_space c)) s = true -> tight s.
Proof.
  intros Hne H. split; [assumption|]. clear Hne.
  induction s as [|c s IH]; simpl in *; [reflexivity|].
  apply andb_prop in H as [Hc Hs]. rewrite (IH Hs).
  destruct s; [|reflexivity].
  apply negb_true_iff in Hc. now rewrite Hc.
Qed.

Lemma numeral_tight (s : string) : numeral s -> tight s.
Proof.
  intros [Hne H]. apply tight_no_space; [assumption|].
  eapply all_impl; [|exact H].
  intros c Hc. now rewrite (digit_not_space _ Hc).
Qed.

Lemma rstrip_idem (s : string) : rstrip (rstrip s) = rstrip s.
Proof.
  induction s as [|c s IH]; simpl; [reflexivity|].
  destruct (rstrip s) as [|d r] eqn:E.
  - destruct (is_space c) eqn:Hc; simpl; [reflexivity | now rewrite Hc].
  - change (rstrip (String c (String d r))) with
      (match rstrip (String d r) with
       | "" => if is_space c then "" else String c ""
       | String x y => String c (String x y)
       end).
    now rewrite IH.
Qed.

Lemma strip_idem (s : string) : strip (strip s) = strip s.
Proof.
  unfold strip.
  assert (L : forall y, lstrip (rstrip (lstrip y)) = rstrip (lstrip y)).
  { intros y. induction y as [|c y IH]; simpl; [reflexivity|].
    destruct (is_space c) eqn:Hc; [exact IH|].
    simpl. destruct (rstrip y); rewrite ?Hc; simpl; now rewrite Hc. }
  now rewrite L, rstrip_idem.
Qed.

(** ** Substring search *)

Lemma prefix_spec (w s : string) :
  prefix w s = true <-> exists post, s = w ++ post.
Proof.
  revert s. induction w as [|x w IH]; intros s; simpl.
  - destruct s; split; eauto.
  - destruct s as [|y s]; simpl.
    + split; [discriminate | intros (post & H); discriminate].
    + destruct (ascii_dec x y) as [->|Hne].
      * rewrite IH. split; intros (post & H); exists post; congruence.
      * split; [discriminate | intros (post & H); congruence].
Qed.

Lemma contains_nil (w : string) : contains w "" = prefix w "".
Proof. unfold contains. apply orb_false_r. Qed.

Lemma contains_cons (w : string) (c : ascii) (s : string) :
  contains w (String c s) = prefix w (String c s) || contains w s.
Proof. reflexivity. Qed.

(** [contains] decides literal substring occurrence. *)
Lemma contains_spec (w s : string) : contains w s = true <-> infix w s.
Proof.
  induction s as [|c s IH].
  - rewrite contains_nil, prefix_spec. split.
    + intros (post & H). exists "", post. exact H.
    + intros (pre & post & H). destruct pre; [eauto | discriminate].
  - rewrite contains_cons, orb_true_iff, IH, prefix_spec. split.
    + intros [(post & H)|(pre & post & H)].
      * exists "", post. exact H.
      * exists (String c pre), post. simpl. now rewrite H.
    + intros (pre & post & H). destruct pre as [|d pre]; simpl in H.
      * left. eauto.
      * right. exists pre, post. congruence.
Qed.

Lemma prefix_cut (w a b : string) (c : ascii) :
  avoids c w = true -> w <> "" ->
  prefix w (a ++ String c b) = prefix w a.
Proof.
  revert w. induction a as [|y a IH]; intros w Hc Hne.
  - destruct w as [|x w]; [contradiction|]. simpl in *.
    apply andb_prop in Hc as [Hx _]. apply negb_true_iff, Ascii.eqb_neq in Hx.
    destruct (ascii_dec x c); [contradiction | reflexivity].
  - destruct w as [|x w]; [contradiction|]. simpl in *.
    apply andb_prop in Hc as [Hx Hw].
    destruct (ascii_dec x y); [|reflexivity].
    destruct w as [|x' w]; [now destruct a | apply IH; [assumption | discriminate]].
Qed.

(** An occurrence of [w] cannot straddle a character that [w] lacks. *)
Lemma contains_cut (w a b : string) (c : ascii) :
  avoids c w = true -> w <> "" ->
  contains w (a ++ String c b) = contains w a || contains w b.
Proof.
  intros Hc Hne. induction a as [|y a IH].
  - change ("" ++ String c b) with (String c b).
    rewrite contains_cons, contains_nil.
    change (String c b) with ("" ++ String c b) at 1.
    now rewrite prefix_cut by assumption.
  - change (String y a ++ String c b) with (String y (a ++ String c b)).
    rewrite !contains_cons, IH.
    change (String y (a ++ String c b)) with (String y a ++ String c b).
    rewrite prefix_cut by assumption. now rewrite orb_assoc.
Qed.

Lemma contains_length (w s : string) :
  contains w s = true -> String.length w <= String.length s.
Proof.
  rewrite contains_spec. intros (pre & post & ->).
  rewrite !length_app. lia.
Qed.

(** No occurrence of [w] in a text made of characters of a class that the
    first character of [w] is not in. *)
Lemma contains_class (p : ascii -> bool) (x : ascii) (w s : string) :
  p x = false -> all p s = true -> contains (String x w) s = false.
Proof.
  intros Hx Hs. destruct (contains (String x w) s) eqn:E; [|reflexivity].
  apply contains_spec in E as (pre & post & ->).
  rewrite all_app in Hs. apply andb_prop in Hs as [_ Hs]. simpl in Hs.
  now rewrite Hx in Hs.
Qed.

Lemma upper_app (a b : string) : upper (a ++ b) = upper a ++ upper b.
Proof.
  induction a as [|c a IH]; simpl; [reflexivity|].
  now rewrite IH, app_assoc.
Qed.

Lemma upper_digits (s : string) : all is_digit s = true -> upper s = s.
Proof.
  induction s as [|c s IH]; simpl; [reflexivity|].
  intros H. apply andb_prop in H as [Hc Hs]. rewrite (IH Hs).
  revert Hc. each_char c; intros; try discriminate; reflexivity.
Qed.

(** ** Numerals *)

Lemma string_of_uint_digits (d : Decimal.uint) :
  all is_digit (NilEmpty.string_of_uint d) = true.
Proof. induction d; simpl; auto. Qed.

Lemma decimal_digits (n : N) : all is_digit (decimal n) = true.
Proof. apply string_of_uint_digits. Qed.

(** [int] on a numeral: its decimal reading, within the limit. *)
Lemma int_numeral (s : string) :
  numeral s ->
  int s = if Nat.leb (String.length s) max_str_digits
          then Ret (digits_value 0 s) else Raise.
Proof.
  intros [Hne H]. unfold int. rewrite H. destruct s; [contradiction | reflexivity].
Qed.

Lemma digits_value_acc (d : Decimal.uint) (p : positive) :
  digits_value (Npos p) (NilEmpty.string_of_uint d) = Npos (Pos.of_uint_acc d p).
Proof.
  revert p.
  induction d; intros p;
    cbn [NilEmpty.string_of_uint digits_value Pos.of_uint_acc];
    [reflexivity|..];
    rewrite <- IHd; f_equal;
    match goal with
    | |- context [digit_value ?c] =>
        let v := eval vm_compute in (digit_value c) in
        change (digit_value c) with v
    end; lia.
Qed.

Lemma digits_value_of_uint (d : Decimal.uint) :
  digits_value 0 (NilEmpty.string_of_uint d) = N.of_uint d.
Proof.
  unfold N.of_uint.
  induction d; cbn [NilEmpty.string_of_uint digits_value Pos.of_uint];
    [reflexivity | exact IHd |..];
    rewrite <- digits_value_acc; reflexivity.
Qed.

(** The decimal text of [n] reads as [n]. *)
Lemma digits_value_decimal (n : N) : digits_value 0 (decimal n) = n.
Proof. unfold decimal. now rewrite digits_value_of_uint, DecimalN.Unsigned.of_to. Qed.

Lemma numeral_decimal (n : N) : numeral (decimal n).
Proof.
  split; [|apply decimal_digits].
  unfold decimal. destruct n as [|p]; [discriminate|].
  simpl. pose proof (DecimalPos.Unsigned.to_uint_nonnil p) as H.
  destruct (Pos.to_uint p); [contradiction|..]; discriminate.
Qed.

(** *** The number of digits and the magnitude *)

Lemma digit_value_table (c : ascii) :
  (if is_digit c then N.leb (digit_value c) 9 else true) = true.
Proof. each_char c; reflexivity. Qed.

Lemma digit_value_le (c : ascii) : is_digit c = true -> (digit_value c <= 9)%N.
Proof.
  intros H. pose proof (digit_value_table c) as T. rewrite H in T.
  now apply N.leb_le.
Qed.

Lemma pow10_S (k : nat) : (10 ^ N.of_nat (S k) = 10 * 10 ^ N.of_nat k)%N.
Proof. rewrite Nat2N.inj_succ. apply N.pow_succ_r'. Qed.

Lemma digits_value_split (s : string) (acc : N) :
  digits_value acc s =
    (acc * 10 ^ N.of_nat (String.length s) + digits_value 0 s)%N.
Proof.
  revert acc. induction s as [|c s IH]; intros acc.
  - cbn [digits_value String.length]. change (10 ^ N.of_nat 0)%N with 1%N. lia.
  - cbn [digits_value String.length]. rewrite pow10_S.
    rewrite (IH (10 * acc + digit_value c)%N), (IH (10 * 0 + digit_value c)%N).
    generalize (10 ^ N.of_nat (String.length s))%N, (digits_value 0 s),
      (digit_value c).
    intros P rest d. nia.
Qed.

(** A run of [k] digits reads as a number below 10^k. *)
Lemma digits_value_lt (s : string) :
  all is_digit s = true ->
  (digits_value 0 s < 10 ^ N.of_nat (String.length s))%N.
Proof.
  induction s as [|c s IH]; intros H; [reflexivity|].
  cbn [all] in H. apply andb_prop in H as [Hc Hs]. specialize (IH Hs).
  apply digit_value_le in Hc.
  cbn [digits_value String.length]. rewrite pow10_S, digits_value_split.
  revert IH Hc.
  generalize (10 ^ N.of_nat (String.length s))%N, (digits_value 0 s),
    (digit_value c).
  intros P rest d IH Hc. nia.
Qed.

(** The decimal text of a number has no leading zero, unless it is "0". *)
Lemma decimal_head (n : N) :
  decimal n = "0" \/
  exists c s, decimal n = String c s /\ (1 <= digit_value c)%N.
Proof.
  unfold decimal.
  pose proof (DecimalN.Unsigned.to_of (N.to_uint n)) as E.
  rewrite DecimalN.Unsigned.of_to in E. rewrite E. unfold Decimal.unorm.
  pose proof (DecimalFacts.nzhead_nonzero (N.to_uint n)) as Hz.
  destruct (Decimal.nzhead (N.to_uint n)) as [|u|u|u|u|u|u|u|u|u|u];
    [now left | exfalso; now apply (Hz u) |..];
    right; eexists _, _; (split; [reflexivity | apply N.leb_le; reflexivity]).
Qed.

Lemma decimal_length_pos (n : N) : 1 <= String.length (decimal n).
Proof.
  destruct (numeral_decimal n) as [Hne _].
  destruct (decimal n); [contradiction | simpl; lia].
Qed.

(** A number below 10^k has at most k digits. *)
Lemma decimal_length_bound (n : N) (k : nat) :
  1 <= k -> (n < 10 ^ N.of_nat k)%N -> String.length (decimal n) <= k.
Proof.
  intros Hk Hn. destruct (decimal_head n) as [E | (c & s & E & Hc)].
  - rewrite E. exact Hk.
  - pose proof (digits_value_decimal n) as V. rewrite E in V |- *.
    cbn [digits_value] in V. rewrite digits_value_split in V.
    cbn [String.length].
    destruct (PeanoNat.Nat.le_gt_cases k (String.length s)) as [Hle|Hgt]; [exfalso | lia].
    assert (Hp : (10 ^ N.of_nat k <= 10 ^ N.of_nat (String.length s))%N)
      by (apply N.pow_le_mono_r; lia).
    revert V Hp Hn Hc.
    generalize (10 ^ N.of_nat (String.length s))%N, (10 ^ N.of_nat k)%N,
      (digits_value 0 s), (digit_value c).
    intros P Q rest d V Hp Hn Hc. nia.
Qed.

Lemma decimal_value_lt (n : N) :
  (n < 10 ^ N.of_nat (String.length (decimal n)))%N.
Proof.
  rewrite <- (digits_value_decimal n) at 1. apply digits_value_lt, decimal_digits.
Qed.

(** A smaller number has no more digits. *)
Lemma decimal_length_mono (n k : N) :
  (n <= k)%N -> String.length (decimal n) <= String.length (decimal k).
Proof.
  intros H. apply decimal_length_bound; [apply decimal_length_pos|].
  pose proof (decimal_value_lt k). lia.
Qed.

(** The text that a numeral reads as has no more digits than the numeral. *)
Lemma decimal_length_numeral (v : string) :
  numeral v -> String.length (decimal (digits_value 0 v)) <= String.length v.
Proof.
  intros [Hne Hd]. apply decimal_length_bound.
  - destruct v; [contradiction | simpl; lia].
  - now apply digits_value_lt.
Qed.

Lemma multiplier_bounds (u : string) : (1 <= dict_get multiplier u 1 <= 30)%N.
Proof.
  unfold multiplier. cbn [dict_get].
  repeat match goal with
         | |- context [String.eqb u ?x] => destruct (String.eqb u x)
         end; lia.
Qed.

(** A numeral two digits shorter than the limit passes both conversions
    of [_get_time_filter], whatever the unit. *)
Lemma numeral_fits (v u : string) :
  numeral v -> String.length v + 2 <= max_str_digits ->
  fits v (digits_value 0 v * dict_get multiplier u 1)%N = true.
Proof.
  intros [Hne Hd] Hlen. unfold fits. apply andb_true_intro. split.
  - apply PeanoNat.Nat.leb_le. lia.
  - apply PeanoNat.Nat.leb_le. etransitivity; [|exact Hlen].
    apply decimal_length_bound; [lia|].
    pose proof (digits_value_lt v Hd) as Hv.
    pose proof (multiplier_bounds u) as Hm.
    replace (String.length v + 2) with (S (S (String.length v))) by lia.
    rewrite !pow10_S. revert Hv Hm.
    generalize (10 ^ N.of_nat (String.length v))%N, (digits_value 0 v),
      (dict_get multiplier u 1%N).
    intros P n k Hv Hm. nia.
Qed.

Lemma infix_length (x t : string) : infix x t -> String.length x <= String.length t.
Proof. intros (pre & post & ->). rewrite !length_app. lia. Qed.

Lemma length_lower (s : string) : String.length (lower s) = String.length s.
Proof. induction s as [|c s IH]; simpl; [reflexivity | now rewrite IH]. Qed.

Lemma length_lstrip (s : string) : String.length (lstrip s) <= String.length s.
Proof.
  induction s as [|c s IH]; simpl; [lia|].
  destruct (is_space c); simpl; lia.
Qed.

Lemma length_rstrip (s : string) : String.length (rstrip s) <= String.length s.
Proof.
  induction s as [|c s IH]; simpl; [lia|].
  destruct (rstrip s); [destruct (is_space c)|]; simpl in *; lia.
Qed.

Lemma length_normalised (q : string) :
  String.length (strip (lower q)) <= String.length q.
Proof.
  unfold strip. rewrite <- (length_lower q).
  etransitivity; [apply length_rstrip | apply length_lstrip].
Qed.

(** ** The languages of the capturing groups *)

Ltac inv_M :=
  repeat match goal with
  | H : M Eps _ _ _ |- _ => inversion H; subst; clear H
  | H : M (Atom _) _ _ _ |- _ => inversion H; subst; clear H
  | H : M (Plus _) _ _ _ |- _ => inversion H; subst; clear H
  | H : M (Star _) _ _ _ |- _ => inversion H; subst; clear H
  | H : M (Seq _ _) _ _ _ |- _ => inversion H; subst; clear H
  | H : M (Alt _ _) _ _ _ |- _ => inversion H; subst; clear H
  | H : M (Opt _) _ _ _ |- _ => inversion H; subst; clear H
  | H : M (Group _ _) _ _ _ |- _ => inversion H; subst; clear H
  end.

Lemma Lang_digits (x : string) : Lang (Plus Digit) x -> numeral x.
Proof.
  intros (m & m' & H).
  inversion H as [| |a c t m0 Hc Ht| | | | | | |]; subst.
  split; [discriminate|]. simpl in *. rewrite Hc. exact Ht.
Qed.

Lemma Lang_word (x : string) : Lang (Plus Word) x -> word x.
Proof.
  intros (m & m' & H).
  inversion H as [| |a c t m0 Hc Ht| | | | | | |]; subst.
  split; [discriminate|]. simpl in *. rewrite Hc. exact Ht.
Qed.

Lemma chr_lowered (p c : ascii) :
  atom_ok (Chr p) c = true -> lowered c = true -> c = lower_char p.
Proof.
  simpl. unfold lowered. rewrite !Ascii.eqb_eq. congruence.
Qed.

Lemma Lang_units (x : string) :
  Lang (alt (lit "hour") [lit "day"; lit "week"; lit "month"]) x ->
  all lowered x = true -> is_unit x.
Proof.
  intros (m & m' & H) Hl. cbn in H. unfold is_unit.
  inv_M; simpl in Hl;
    repeat match goal with
    | H : _ && _ = true |- _ => apply andb_prop in H as [? ?]
    end;
    repeat match goal with
    | H : atom_ok (Chr _) ?c = true, L : lowered ?c = true |- _ =>
        apply chr_lowered in H; [|exact L]; vm_compute in H; subst c
    end; auto.
Qed.

(** ** What a successful [search] binds *)

Lemma search_group (r : regex) (s : string) (m : caps) (i : nat) :
  search r s = Some m -> In i (sure r) ->
  exists x body,
    group m i = Some x /\ In (i, body) (groups_in r) /\ Lang body x /\ infix x s.
Proof.
  intros Hs Hi. apply search_sound in Hs as (t & Hts & HM).
  pose proof (M_group_present _ _ _ _ HM i (or_introl Hi)) as Hp.
  destruct (group m i) as [x|] eqn:Hg; [|contradiction].
  destruct (M_group_sound _ _ _ _ HM _ _ Hg) as [Hn|(body & Hin & HL & Hx)];
    [discriminate|].
  exists x, body. eauto using infix_trans.
Qed.

(** A captured text is a piece of the question. *)
Lemma group_infix (r : regex) (s : string) (m : caps) (i : nat) (x : string) :
  search r s = Some m -> group m i = Some x -> infix x s.
Proof.
  intros Hs Hg. apply search_sound in Hs as (t & Hts & HM).
  destruct (M_group_sound _ _ _ _ HM _ _ Hg) as [Hn|(body & _ & _ & Hx)];
    [discriminate | eauto using infix_trans].
Qed.

Ltac group_of Hs i x Hg HL Hx :=
  let body := fresh "body" in
  let Hin := fresh "Hin" in
  let Hi := fresh "Hi" in
  match type of Hs with
  | search ?r _ = Some _ =>
      assert (Hi : In i (sure r)) by (vm_compute; tauto);
      destruct (search_group _ _ _ i Hs Hi) as (x & body & Hg & Hin & HL & Hx);
      clear Hi; vm_compute in Hin;
      repeat (destruct Hin as [Hin|Hin]; [try discriminate Hin|]);
      try contradiction;
      injection Hin as <-
  end.

Lemma top_errors_groups (s : string) (m : caps) :
  all lowered s = true -> search pat_top_errors s = Some m ->
  exists limit v u,
    group m 1 = Some limit /\ group m 2 = Some v /\ group m 3 = Some u /\
    numeral limit /\ numeral v /\ is_unit u.
Proof.
  intros Hl Hs.
  group_of Hs 1 limit H1 L1 X1.
  group_of Hs 2 v H2 L2 X2.
  group_of Hs 3 u H3 L3 X3.
  exists limit, v, u. repeat split; auto using Lang_digits.
  all: try (apply Lang_digits; assumption).
  apply Lang_units; [exact L3 | eapply all_infix; eassumption].
Qed.

Lemma errors_timeframe_groups (s : string) (m : caps) :
  all lowered s = true -> search pat_errors_timeframe s = Some m ->
  exists v u,
    group m 1 = Some v /\ group m 2 = Some u /\ numeral v /\ is_unit u.
Proof.
  intros Hl Hs.
  group_of Hs 1 v H1 L1 X1.
  group_of Hs 2 u H2 L2 X2.
  exists v, u. repeat split; auto.
  all: try (apply Lang_digits; assumption).
  apply Lang_units; [exact L2 | eapply all_infix; eassumption].
Qed.

Lemma failed_tests_groups (s : string) (m : caps) :
  all lowered s = true -> search pat_failed_tests s = Some m ->
  exists v u,
    group m 1 = Some v /\ group m 2 = Some u /\ numeral v /\ is_unit u.
Proof.
  intros Hl Hs.
  group_of Hs 1 v H1 L1 X1.
  group_of Hs 2 u H2 L2 X2.
  exists v, u. repeat split; auto.
  all: try (apply Lang_digits; assumption).
  apply Lang_units; [exact L2 | eapply all_infix; eassumption].
Qed.

Lemma agents_by_language_groups (s : string) (m : caps) :
  search pat_agents_by_language s = Some m ->
  exists g, group m 1 = Some g /\ word g /\ infix g s.
Proof.
  intros Hs. group_of Hs 1 g H1 L1 X1.
  exists g. auto using Lang_word.
Qed.

Lemma count_groups (s : string) (m : caps) :
  search pat_count s = Some m ->
  exists g, group m 1 = Some g /\ word g /\ infix g s.
Proof.
  intros Hs. group_of Hs 1 g H1 L1 X1.
  exists g. auto using Lang_word.
Qed.

Lemma top_usage_groups (s : string) (m : caps) :
  search pat_top_usage s = Some m ->
  exists limit, group m 1 = Some limit /\ numeral limit.
Proof.
  intros Hs. group_of Hs 1 g H1 L1 X1.
  exists g. auto using Lang_digits.
Qed.

(** ** What the handlers return *)

(** [_get_time_filter] on a numeral: the filter, unless a conversion
    passes the limit. *)
Lemma get_time_filter_numeral (v u : string) :
  numeral v ->
  _get_time_filter v u =
    if within_limit v u then Ret (time_filter v u) else Raise.
Proof.
  intros Hv. unfold _get_time_filter, within_limit, fits, str.
  rewrite (int_numeral _ Hv).
  destruct (Nat.leb (String.length v) max_str_digits); cbn [bind andb];
    [|reflexivity].
  cbv zeta.
  destruct (Nat.leb (String.length (decimal _)) max_str_digits); reflexivity.
Qed.

Lemma numeral_within_limit (v u q : string) :
  numeral v -> infix v q -> short q -> within_limit v u = true.
Proof.
  intros Hv Hi Hq. apply numeral_fits; [assumption|].
  apply infix_length in Hi. unfold short in Hq. lia.
Qed.

Lemma strip_framed (raw core : string) :
  raw = frame ++ core ++ frame -> head_ok core = true -> tight core ->
  strip raw = core.
Proof.
  intros -> Hh Ht. unfold strip.
  rewrite lstrip_spaces by reflexivity.
  destruct core as [|c core]; [discriminate|].
  simpl in Hh. apply negb_true_iff in Hh.
  change (String c core ++ frame) with (String c (core ++ frame)).
  rewrite lstrip_keeps by assumption.
  change (String c (core ++ frame)) with (String c core ++ frame).
  rewrite rstrip_spaces by reflexivity. apply Ht.
Qed.

Lemma tight_closed (s : string) : s <> "" -> rstrip s = s -> tight s.
Proof. now split. Qed.

Ltac norm_app :=
  repeat first [ rewrite !app_assoc | progress (cbn [append]) ].

Ltac tight_tail :=
  repeat apply tight_app;
  first [ apply numeral_tight; assumption
        | apply tight_closed; [discriminate | reflexivity] ].

Ltac unfold_sql :=
  unfold sql_top_errors, sql_errors_timeframe, sql_failed_tests,
    sql_agents_by_language, sql_top_usage, frame, nl.

Ltac framed core :=
  apply (strip_framed _ core);
  [ unfold_sql; norm_app; reflexivity
  | reflexivity
  | unfold_sql; tight_tail ].

Lemma handle_top_errors_eq (m : caps) (q limit v u : string) :
  group m 1 = Some limit -> group m 2 = Some v -> group m 3 = Some u ->
  numeral limit -> numeral v ->
  _handle_top_errors m q =
    if within_limit v u then
      Ret (Some (sql_top_errors (time_filter v u) limit),
           Some ("Finding top " ++ limit ++ " errors from the last " ++ v ++ " "
                   ++ u ++ "(s)"))
    else Raise.
Proof.
  intros H1 H2 H3 Hl Hv. unfold _handle_top_errors, group_text.
  rewrite H1, H2, H3. cbn [bind]. rewrite (get_time_filter_numeral _ _ Hv).
  destruct (within_limit v u); cbn [bind]; [|reflexivity]. do 3 f_equal.
  framed (sql_top_errors (time_filter v u) limit).
Qed.

Lemma handle_errors_timeframe_eq (m : caps) (q v u : string) :
  group m 1 = Some v -> group m 2 = Some u -> numeral v ->
  _handle_errors_timeframe m q =
    if within_limit v u then
      Ret (Some (sql_errors_timeframe (time_filter v u)),
           Some ("Showing all errors from the last " ++ v ++ " " ++ u ++ "(s)"))
    else Raise.
Proof.
  intros H1 H2 Hv. unfold _handle_errors_timeframe, group_text.
  rewrite H1, H2. cbn [bind]. rewrite (get_time_filter_numeral _ _ Hv).
  destruct (within_limit v u); cbn [bind]; [|reflexivity]. do 3 f_equal.
  framed (sql_errors_timeframe (time_filter v u)).
Qed.

Lemma handle_failed_tests_eq (m : caps) (q v u : string) :
  group m 1 = Some v -> group m 2 = Some u -> numeral v ->
  _handle_failed_tests m q =
    if within_limit v u then
      Ret (Some (sql_failed_tests (time_filter v u)),
           Some ("Finding failed test runs from the last " ++ v ++ " " ++ u ++ "(s)"))
    else Raise.
Proof.
  intros H1 H2 Hv. unfold _handle_failed_tests, group_text.
  rewrite H1, H2. cbn [bind]. rewrite (get_time_filter_numeral _ _ Hv).
  destruct (within_limit v u); cbn [bind]; [|reflexivity]. do 3 f_equal.
  framed (sql_failed_tests (time_filter v u)).
Qed.

Lemma handle_agents_by_language_eq (m : caps) (q g : string) :
  group m 1 = Some g ->
  _handle_agents_by_language m q =
    Ret (Some (sql_agents_by_language
                 (dict_get languages (lower g) (slice_to 2 (lower g)))),
         Some ("Finding all agents using " ++ lower g ++ " language")).
Proof.
  intros H1. unfold _handle_agents_by_language, group_text.
  rewrite H1. cbn [bind]. do 3 f_equal.
  framed (sql_agents_by_language
            (dict_get languages (lower g) (slice_to 2 (lower g)))).
Qed.

Lemma handle_top_usage_eq (m : caps) (q limit : string) :
  group m 1 = Some limit -> numeral limit ->
  _handle_top_usage m q =
    Ret (Some (sql_top_usage limit),
         Some ("Finding top " ++ limit ++ " agents by token usage")).
Proof.
  intros H1 Hl. unfold _handle_top_usage, group_text.
  rewrite H1. cbn [bind]. do 3 f_equal.
  framed (sql_top_usage limit).
Qed.

(** The catalog: every table name is a non-empty text without blanks. *)
Lemma table_name_plain (t : string) :
  In t table_names ->
  truthy (Some t) = true /\ strip (sql_count t) = sql_count t.
Proof.
  intros H. vm_compute in H.
  repeat (destruct H as [<-|H]; [split; reflexivity|]). contradiction.
Qed.

Lemma first_table_some (test : string -> bool) (t : string) :
  first_table test = Some t -> In t table_names /\ test t = true.
Proof. apply find_some. Qed.

(** The count handler: the result for any bound entity. *)
Lemma handle_count_eq (m : caps) (q g : string) :
  group m 1 = Some g ->
  _handle_count m q =
    Ret (match first_table (fun table_name =>
                 contains (lower g) table_name || startswith table_name (lower g)) with
         | Some t => (Some (sql_count t), Some ("Counting total " ++ lower g))
         | None => (None, None)
         end).
Proof.
  intros H1. unfold _handle_count, group_text. rewrite H1. cbn [bind].
  destruct (first_table _) as [t|] eqn:E; [|reflexivity].
  apply first_table_some in E as [Hin _].
  destruct (table_name_plain _ Hin) as [Ht Hs].
  rewrite Ht. cbn [negb]. fold (sql_count t). now rewrite Hs.
Qed.

(** The keyword fallback: the result for any question. *)
Lemma keyword_based_query_eq (q : string) :
  _keyword_based_query q =
    Ret (match first_table (fun table_name =>
                 contains (replace "_" " " table_name) q || contains table_name q) with
         | Some t => (Some (sql_keyword t), Some ("Showing data from " ++ t ++ " table"))
         | None => (None, Some not_understood)
         end).
Proof.
  unfold _keyword_based_query.
  destruct (first_table _) as [t|] eqn:E; [|reflexivity].
  apply first_table_some in E as [Hin _].
  destruct (table_name_plain _ Hin) as [Ht _].
  now rewrite Ht.
Qed.

(** ** Dispatch *)

Lemma try_patterns_inv (rules : list rule) (q : string) (a : answer) :
  try_patterns rules q = Ret a ->
  (exists r m, In r rules /\ search (pattern r) q = Some m /\ handler r m q = Ret a)
  \/ _keyword_based_query q = Ret a.
Proof.
  induction rules as [|r rules IH]; simpl; [now right|].
  destruct (search (pattern r) q) as [m|] eqn:Es.
  - destruct (handler r m q) as [[sql e]|] eqn:Eh.
    + intros [= <-]. left. exists r, m. auto.
    + intros H. destruct (IH H) as [(r' & m' & Hin & Hs & Hh)|Hk]; [|now right].
      left. exists r', m'. auto.
  - intros H. destruct (IH H) as [(r' & m' & Hin & Hs & Hh)|Hk]; [|now right].
    left. exists r', m'. auto.
Qed.

(** The rule that decides: the first one whose recognizer succeeds and
    whose handler returns. *)
Lemma try_patterns_first (before after : list rule) (r : rule) (q : string)
    (m : caps) (a : answer) :
  (forall r', In r' before -> search (pattern r') q = None) ->
  search (pattern r) q = Some m -> handler r m q = Ret a ->
  try_patterns (before ++ r :: after) q = Ret a.
Proof.
  intros Hb Hs Hh. induction before as [|r0 before IH]; simpl.
  - rewrite Hs, Hh. now destruct a.
  - rewrite (Hb r0 (or_introl eq_refl)). apply IH.
    intros r' Hin. apply Hb. now right.
Qed.

(** A rule whose recognizer succeeds and whose handler raises is passed
    over: the rules after it go on. *)
Lemma try_patterns_skip (before after : list rule) (r : rule) (q : string)
    (m : caps) :
  (forall r', In r' before -> search (pattern r') q = None) ->
  search (pattern r) q = Some m -> handler r m q = Raise ->
  try_patterns (before ++ r :: after) q = try_patterns after q.
Proof.
  intros Hb Hs Hh. induction before as [|r0 before IH]; simpl.
  - now rewrite Hs, Hh.
  - rewrite (Hb r0 (or_introl eq_refl)). apply IH.
    intros r' Hin. apply Hb. now right.
Qed.

Lemma try_patterns_none (rules : list rule) (q : string) :
  (forall r, In r rules -> search (pattern r) q = None) ->
  try_patterns rules q = _keyword_based_query q.
Proof.
  induction rules as [|r rules IH]; simpl; [reflexivity|].
  intros H. rewrite (H r (or_introl eq_refl)). apply IH.
  intros r' Hin. apply H. now right.
Qed.

Lemma normalised_lowered (q : string) : all lowered (strip (lower q)) = true.
Proof. apply all_strip, lower_lowered. Qed.

Lemma dict_get_cases {V : Type} (d : list (string * V)) (k : string) (dflt : V) :
  (exists v, In (k, v) d /\ dict_get d k dflt = v) \/
  ((forall v, ~ In (k, v) d) /\ dict_get d k dflt = dflt).
Proof.
  induction d as [|[k' v'] d IH]; simpl.
  - right. split; auto.
  - destruct (String.eqb_spec k k') as [->|Hne].
    + left. exists v'. auto.
    + destruct IH as [(v & Hin & E)|(Hno & E)].
      * left. exists v. auto.
      * right. split; [|assumption].
        intros v [[= <- _]|Hin]; [congruence | now apply Hno in Hin].
Qed.

Lemma language_value_get (g : string) :
  word g ->
  language_value (dict_get languages (lower g) (slice_to 2 (lower g))).
Proof.
  intros Hg.
  destruct (dict_get_cases languages (lower g) (slice_to 2 (lower g)))
    as [(v & Hin & ->)|(_ & ->)].
  - left. now exists (lower g).
  - right. now exists g.
Qed.

(** What the handler of a rule does on a match of its pattern: it returns
    SQL with an explanation, or the empty pair that the count rule leaves;
    or it raises, which only the handler of a time-windowed rule does, on a
    value beyond the limit of the conversions. *)
Lemma rule_cases (r : rule) (q : string) (m : caps) :
  In r patterns -> all lowered q = true -> search (pattern r) q = Some m ->
  (exists a,
     handler r m q = Ret a /\
     ((a = (None, None) /\ pattern r = pat_count) \/
      exists sql text, a = (Some sql, Some text) /\ text <> "" /\ generated sql)) \/
  (handler r m q = Raise /\
   exists v u, numeral v /\ infix v q /\ within_limit v u = false).
Proof.
  intros Hin Hl Hs. unfold patterns in Hin. simpl in Hin.
  repeat (destruct Hin as [<-|Hin]); try contradiction; cbn [pattern handler] in *;
    try (left; eexists; split; [reflexivity|]; right; eexists _, _;
         split; [reflexivity|]; split; [discriminate|];
         apply gen_fixed; vm_compute; tauto).
  - destruct (top_errors_groups _ _ Hl Hs) as (limit & v & u & H1 & H2 & H3 & Hn & Hv & Hu).
    rewrite (handle_top_errors_eq _ _ limit v u) by assumption.
    destruct (within_limit v u) eqn:Ew.
    + left. eexists. split; [reflexivity|].
      right. eexists _, _. split; [reflexivity|].
      split; [cbn; discriminate | now constructor].
    + right. split; [reflexivity|]. exists v, u.
      split; [exact Hv|]. split; [exact (group_infix _ _ _ _ _ Hs H2) | exact Ew].
  - destruct (errors_timeframe_groups _ _ Hl Hs) as (v & u & H1 & H2 & Hv & Hu).
    rewrite (handle_errors_timeframe_eq _ _ v u) by assumption.
    destruct (within_limit v u) eqn:Ew.
    + left. eexists. split; [reflexivity|].
      right. eexists _, _. split; [reflexivity|].
      split; [cbn; discriminate | now constructor].
    + right. split; [reflexivity|]. exists v, u.
      split; [exact Hv|]. split; [exact (group_infix _ _ _ _ _ Hs H1) | exact Ew].
  - destruct (failed_tests_groups _ _ Hl Hs) as (v & u & H1 & H2 & Hv & Hu).
    rewrite (handle_failed_tests_eq _ _ v u) by assumption.
    destruct (within_limit v u) eqn:Ew.
    + left. eexists. split; [reflexivity|].
      right. eexists _, _. split; [reflexivity|].
      split; [cbn; discriminate | now constructor].
    + right. split; [reflexivity|]. exists v, u.
      split; [exact Hv|]. split; [exact (group_infix _ _ _ _ _ Hs H1) | exact Ew].
  - destruct (agents_by_language_groups _ _ Hs) as (g & H1 & Hg & _).
    left. eexists. split; [now apply (handle_agents_by_language_eq _ _ g)|].
    right. eexists _, _. split; [reflexivity|].
    split; [cbn; discriminate | constructor; now apply language_value_get].
  - destruct (count_groups _ _ Hs) as (g & H1 & Hg & _).
    left. eexists. split; [now apply (handle_count_eq _ _ g)|].
    destruct (first_table _) as [t|] eqn:E; [|now left].
    right. eexists _, _. split; [reflexivity|].
    split; [cbn; discriminate | constructor; now apply first_table_some in E].
  - destruct (top_usage_groups _ _ Hs) as (limit & H1 & Hn).
    left. eexists. split; [now apply (handle_top_usage_eq _ _ limit)|].
    right. eexists _, _. split; [reflexivity|].
    split; [cbn; discriminate | now constructor].
Qed.

(** The answer of a handler that returns. *)
Lemma rule_explained (r : rule) (q : string) (m : caps) (a : answer) :
  In r patterns -> all lowered q = true -> search (pattern r) q = Some m ->
  handler r m q = Ret a ->
  a = (None, None) \/
  exists sql text, a = (Some sql, Some text) /\ text <> "" /\ generated sql.
Proof.
  intros Hin Hl Hs Ha.
  destruct (rule_cases r q m Hin Hl Hs) as [(a' & Ha' & H)|[Hr _]]; [|congruence].
  rewrite Ha in Ha'. injection Ha' as <-.
  destruct H as [[-> _]|H]; [now left | now right].
Qed.

(** The empty pair comes from the count rule alone. *)
Lemma rule_empty_pair (r : rule) (q : string) (m : caps) :
  In r patterns -> all lowered q = true -> search (pattern r) q = Some m ->
  handler r m q = Ret (None, None) -> pattern r = pat_count.
Proof.
  intros Hin Hl Hs Ha.
  destruct (rule_cases r q m Hin Hl Hs) as [(a' & Ha' & H)|[Hr _]]; [|congruence].
  rewrite Ha in Ha'. injection Ha' as <-.
  destruct H as [[_ E]|(sql & text & [=] & _)]. exact E.
Qed.

Lemma rule_returns (r : rule) (q : string) (m : caps) (a : answer) :
  In r patterns -> all lowered q = true -> search (pattern r) q = Some m ->
  handler r m q = Ret a -> rule_answer a.
Proof.
  intros Hin Hl Hs Ha.
  destruct (rule_explained r q m a Hin Hl Hs Ha) as [->|(sql & text & -> & _ & Hg)];
    [now right | left; eauto].
Qed.

(** On a short question every handler returns. *)
Lemma rule_short (r : rule) (q : string) (m : caps) :
  In r patterns -> all lowered q = true -> search (pattern r) q = Some m ->
  short q -> exists a, handler r m q = Ret a.
Proof.
  intros Hin Hl Hs Hq.
  destruct (rule_cases r q m Hin Hl Hs) as [(a & Ha & _)|(_ & v & u & Hv & Hi & Ew)];
    [eauto|].
  rewrite (numeral_within_limit v u q) in Ew by assumption. discriminate.
Qed.

Lemma short_normalised (q : string) : short q -> short (strip (lower q)).
Proof. unfold short. pose proof (length_normalised q). lia. Qed.

(** Every SQL text that [parse_question] returns is one of the generated
    texts. *)
Lemma parse_question_generated (q sql : string) (e : option string) :
  parse_question q = Ret (Some sql, e) -> generated sql.
Proof.
  unfold parse_question. intros H.
  apply try_patterns_inv in H as [(r & m & Hin & Hs & Hh)|Hk].
  - pose proof (rule_returns r _ m _ Hin (normalised_lowered q) Hs Hh) as Hr.
    destruct Hr as [(sql' & e' & [= -> ->] & Hg)|[=]]. exact Hg.
  - rewrite keyword_based_query_eq in Hk.
    destruct (first_table _) as [t|] eqn:E; [|discriminate].
    injection Hk as <- _. constructor. now apply first_table_some in E.
Qed.

(** ** The generated texts are read-only *)

Lemma nonempty_ne (k : string) : nonempty k = true -> k <> "".
Proof. destruct k; [discriminate | discriminate]. Qed.

Lemma last_avoids_inv (k s : string) :
  last_avoids k s = true -> exists s' c, s = s' ++ String c "" /\ avoids c k = true.
Proof.
  induction s as [|c s IH]; [discriminate|].
  destruct s as [|d s].
  - intros H. exists "", c. auto.
  - intros H. destruct (IH H) as (s' & x & -> & Hx).
    exists (String c s'), x. auto.
Qed.

Lemma contains_app_last (k a b : string) :
  nonempty k && last_avoids k a = true ->
  contains k (a ++ b) = contains k a || contains k b.
Proof.
  intros H. apply andb_prop in H as [Hk Ha]. apply nonempty_ne in Hk.
  apply last_avoids_inv in Ha as (a' & c & -> & Hc).
  rewrite app_assoc. change (String c "" ++ b) with (String c b).
  rewrite !contains_cut by assumption.
  rewrite contains_nil. destruct k; [contradiction|].
  simpl. now rewrite orb_false_r.
Qed.

Lemma contains_app_head (k a b : string) :
  nonempty k && head_avoids k b = true ->
  contains k (a ++ b) = contains k a || contains k b.
Proof.
  intros H. apply andb_prop in H as [Hk Hb]. apply nonempty_ne in Hk.
  destruct b as [|c b]; [discriminate|]. simpl in Hb.
  rewrite contains_cut by assumption.
  change (contains k (String c b)) with (contains k ("" ++ String c b)).
  rewrite contains_cut by assumption.
  rewrite contains_nil. destruct k; [contradiction | reflexivity].
Qed.

Lemma prefix_app (w a b : string) : prefix w a = true -> prefix w (a ++ b) = true.
Proof.
  rewrite !prefix_spec. intros (post & ->). exists (post ++ b).
  now rewrite app_assoc.
Qed.

Lemma strip_tight (s : string) : head_ok s = true -> tight s -> strip s = s.
Proof.
  intros Hh [_ Ht]. unfold strip. destruct s as [|c s]; [discriminate|].
  simpl in Hh. apply negb_true_iff in Hh. now rewrite lstrip_keeps.
Qed.

Lemma length_upper_char (c : ascii) : String.length (upper_char c) <= 2.
Proof. destruct (upper_char_cases c) as [->|(d & ->)]; simpl; lia. Qed.

(** Interpolated digits hold none of the forbidden texts. *)
Lemma digits_clean (k d : string) :
  In k forbidden -> all is_digit d = true -> contains k (upper d) = false.
Proof.
  intros Hk Hd. rewrite (upper_digits _ Hd).
  vm_compute in Hk.
  repeat (destruct Hk as [<-|Hk];
          [now apply (contains_class is_digit)|]).
  contradiction.
Qed.

Lemma semicolon_word (s : string) :
  all is_word s = true -> contains ";" (upper s) = false.
Proof.
  intros H. apply (contains_class (fun c => negb (Ascii.eqb c ";"))); [reflexivity|].
  induction s as [|c s IH]; simpl; [reflexivity|].
  simpl in H. apply andb_prop in H as [Hc Hs].
  rewrite all_app, (IH Hs), andb_true_r.
  revert Hc. each_char c; intros; try discriminate; reflexivity.
Qed.

Lemma all_slice_to (p : ascii -> bool) (n : nat) (s : string) :
  all p s = true -> all p (slice_to n s) = true.
Proof.
  unfold slice_to. revert s. induction n as [|n IH]; intros [|c s]; simpl; auto.
  intros H. apply andb_prop in H as [Hc Hs]. now rewrite Hc, IH.
Qed.

Lemma length_slice_to (n : nat) (s : string) : String.length (slice_to n s) <= n.
Proof.
  unfold slice_to. revert s. induction n as [|n IH]; intros [|c s]; simpl; auto.
  - lia.
  - specialize (IH s). lia.
Qed.

(** A text of at most two characters holds no write keyword, also after
    upper-casing (which can double its length). *)
Lemma short_clean (k x : string) :
  In k write_keywords -> String.length x <= 2 -> contains k (upper x) = false.
Proof.
  intros Hk Hx.
  assert (Hlen : 4 <= String.length k).
  { vm_compute in Hk. repeat (destruct Hk as [<-|Hk]; [simpl; lia|]). contradiction. }
  destruct (contains k (upper x)) eqn:E; [|reflexivity].
  pose proof (contains_length _ _ E) as L.
  destruct x as [|c1 [|c2 [|c3 x]]]; simpl in *; try lia.
  - rewrite app_nil_r in L. pose proof (length_upper_char c1). lia.
  - rewrite app_nil_r, length_app in L.
    destruct (upper_char_cases c1) as [E1|(d1 & E1)];
      destruct (upper_char_cases c2) as [E2|(d2 & E2)];
      rewrite E1, E2 in *; simpl in L; try lia.
    clear - Hk E. vm_compute in Hk.
    repeat (destruct Hk as [<-|Hk]; [discriminate E|]). contradiction.
Qed.

Lemma language_clean (k code : string) :
  In k forbidden -> language_value code -> contains k (upper code) = false.
Proof.
  intros Hk [(name & Hin)|(g & [Hne Hg] & ->)].
  - vm_compute in Hin.
    repeat (destruct Hin as [Hin|Hin];
            [injection Hin as <- <-; vm_compute in Hk;
             repeat (destruct Hk as [<-|Hk]; [reflexivity|]); contradiction|]).
    contradiction.
  - destruct Hk as [<-|Hk].
    + apply semicolon_word, all_slice_to, lower_all; auto using lower_char_word.
    + apply short_clean; [assumption | apply length_slice_to].
Qed.

Lemma unit_word (u : string) :
  is_unit u ->
  dict_get unit_map u "days" = "hours" \/ dict_get unit_map u "days" = "days".
Proof. intros [-> | [-> | [-> | ->]]]; vm_compute; auto. Qed.

Ltac cut_all :=
  repeat first [ rewrite contains_app_last by reflexivity
               | rewrite contains_app_head by reflexivity ].

Ltac each_forbidden Hk :=
  vm_compute in Hk; repeat (destruct Hk as [<-|Hk]; [|]); [..|contradiction].

Lemma generated_clean (k sql : string) :
  In k forbidden -> generated sql -> contains k (upper sql) = false.
Proof.
  intros Hk Hg.
  destruct Hg as [limit v u [_ Hl] _ Hu|v u _ Hu|v u _ Hu|code Hc|limit [_ Hl]
                 |t Ht|t Ht|sql Hs].
  - unfold sql_top_errors, time_filter, nl.
    generalize (digits_value 0 v * dict_get multiplier u 1)%N. intros n.
    pose proof (digits_clean k (decimal n) Hk (decimal_digits n)) as Hn.
    pose proof (digits_clean k limit Hk Hl) as Hl'.
    destruct (unit_word _ Hu) as [-> | ->];
      rewrite !upper_app; each_forbidden Hk; cut_all;
      rewrite Hn, Hl'; reflexivity.
  - unfold sql_errors_timeframe, time_filter, nl.
    generalize (digits_value 0 v * dict_get multiplier u 1)%N. intros n.
    pose proof (digits_clean k (decimal n) Hk (decimal_digits n)) as Hn.
    destruct (unit_word _ Hu) as [-> | ->];
      rewrite !upper_app; each_forbidden Hk; cut_all;
      rewrite Hn; reflexivity.
  - unfold sql_failed_tests, time_filter, nl.
    generalize (digits_value 0 v * dict_get multiplier u 1)%N. intros n.
    pose proof (digits_clean k (decimal n) Hk (decimal_digits n)) as Hn.
    destruct (unit_word _ Hu) as [-> | ->];
      rewrite !upper_app; each_forbidden Hk; cut_all;
      rewrite Hn; reflexivity.
  - unfold sql_agents_by_language, nl.
    pose proof (language_clean k code Hk Hc) as Hc'.
    rewrite !upper_app; each_forbidden Hk; cut_all; rewrite Hc'; reflexivity.
  - unfold sql_top_usage, nl.
    pose proof (digits_clean k limit Hk Hl) as Hl'.
    rewrite !upper_app; each_forbidden Hk; cut_all; rewrite Hl'; reflexivity.
  - vm_compute in Ht.
    repeat (destruct Ht as [<-|Ht]; [each_forbidden Hk; reflexivity|]).
    contradiction.
  - vm_compute in Ht.
    repeat (destruct Ht as [<-|Ht]; [each_forbidden Hk; reflexivity|]).
    contradiction.
  - vm_compute in Hs.
    repeat (destruct Hs as [<-|Hs]; [each_forbidden Hk; reflexivity|]).
    contradiction.
Qed.

Lemma generated_stripped (sql : string) : generated sql -> strip sql = sql.
Proof.
  intros Hg.
  destruct Hg as [limit v u Hl _ _|v u _ _|v u _ _|code _|limit Hl
                 |t Ht|t Ht|sql Hs].
  - apply strip_tight; [reflexivity | unfold_sql; tight_tail].
  - apply strip_tight; [reflexivity | unfold_sql; tight_tail].
  - apply strip_tight; [reflexivity | unfold_sql; tight_tail].
  - apply strip_tight; [reflexivity | unfold_sql; tight_tail].
  - apply strip_tight; [reflexivity | unfold_sql; tight_tail].
  - now apply table_name_plain.
  - vm_compute in Ht.
    repeat (destruct Ht as [<-|Ht]; [reflexivity|]). contradiction.
  - vm_compute in Hs.
    repeat (destruct Hs as [<-|Hs]; [reflexivity|]). contradiction.
Qed.

Lemma generated_select (sql : string) :
  generated sql -> startswith (upper sql) "SELECT" = true.
Proof.
  intros Hg. unfold startswith.
  destruct Hg as [limit v u _ _ _|v u _ _|v u _ _|code _|limit _
                 |t Ht|t Ht|sql Hs].
  1-5: unfold_sql; rewrite upper_app; apply prefix_app; reflexivity.
  - unfold sql_count. rewrite upper_app. apply prefix_app. reflexivity.
  - unfold sql_keyword. rewrite upper_app. apply prefix_app. reflexivity.
  - vm_compute in Hs.
    repeat (destruct Hs as [<-|Hs]; [reflexivity|]). contradiction.
Qed.

Lemma token_occurs_contains (w s : string) :
  token_occurs w s -> contains w s = true.
Proof.
  intros (pre & post & -> & _). apply contains_spec. now exists pre, post.
Qed.

Lemma generated_read_only (sql : string) : generated sql -> read_only sql.
Proof.
  intros Hg. unfold read_only. rewrite (generated_stripped _ Hg).
  split; [now apply generated_select|].
  split; [apply generated_clean; [now left | assumption]|].
  intros k Hk.
  assert (E : contains k (upper sql) = false)
    by (apply generated_clean; [now right | assumption]).
  split; [exact E|].
  intros H. apply token_occurs_contains in H. congruence.
Qed.

(** ** Properties of the specification *)

(** *** C1 (defect in the code)

    C1 says that a failed translation always carries a non-empty reason and
    that a count rule whose entity resolves to no table is treated as not
    matched, so that later rules and the keyword fallback run.  The code
    does not do that: [_handle_count] returns [(None, None)] instead of
    raising, and [parse_question] returns that pair as it is.  On
    "how many xyz" the answer is the empty pair, although the rules after
    the count rule, followed by the fallback, give the could-not-understand
    reason; on "how many rows in users" the answer is the empty pair,
    although they give a query on [users]. *)
Theorem C1_unresolved_count_returns_empty_pair :
  search pat_count "how many xyz" = Some [(1, "xyz")] /\
  parse_question "how many xyz" = Ret (None, None) /\
  try_patterns (skipn 11 patterns) "how many xyz" = Ret (None, Some not_understood) /\
  parse_question "how many rows in users" = Ret (None, None) /\
  try_patterns (skipn 11 patterns) "how many rows in users" =
    Ret (Some "SELECT * FROM users LIMIT 100", Some "Showing data from users table").
Proof. repeat split; vm_compute; reflexivity. Qed.

(** *** C2

    Every SQL text that [parse_question] returns, from a rule or from the
    keyword fallback, is read-only: trimmed and upper-cased it starts with
    SELECT, holds no semicolon at all, and holds none of INSERT, UPDATE,
    DELETE, DROP, ALTER, neither as a whole token nor as part of one. *)
Theorem C2_returned_sql_is_read_only (q sql : string) (e : option string) :
  parse_question q = Ret (Some sql, e) -> read_only sql.
Proof.
  intros H. apply generated_read_only. exact (parse_question_generated _ _ _ H).
Qed.

Lemma C2_returned_sql_is_read_only_witness :
  parse_question "Top 5 errors for the last 24 hours" =
    Ret (Some (sql_top_errors "datetime('now', '-24 hours')" "5"),
         Some "Finding top 5 errors from the last 24 hour(s)") /\
  read_only (sql_top_errors "datetime('now', '-24 hours')" "5").
Proof.
  split; [reflexivity|].
  apply (C2_returned_sql_is_read_only "Top 5 errors for the last 24 hours" _
           (Some "Finding top 5 errors from the last 24 hour(s)")).
  reflexivity.
Defined.

(** A time value of 4301 digits: the top-N-errors recognizer succeeds, its
    handler raises in [int], no later rule matches, and the answer is the
    one of the keyword fallback. *)
Lemma long_value_passed_over :
  let q := "top 5 error last " ++ nines (S max_str_digits) ++ " days" in
  let m := [(3, "day"); (2, nines (S max_str_digits)); (1, "5")] in
  strip (lower q) = q /\
  search pat_top_errors q = Some m /\
  _handle_top_errors m q = Raise /\
  _keyword_based_query q = Ret (None, Some not_understood) /\
  parse_question q = Ret (None, Some not_understood).
Proof. cbv zeta. repeat split; vm_compute; reflexivity. Qed.

(** The first rule, in declaration order, whose recognizer succeeds on the
    normalised question decides when its handler returns: that answer is
    the result. *)
Lemma parse_question_first (before after : list rule) (r : rule) (q : string)
    (m : caps) (a : answer) :
  patterns = (before ++ r :: after)%list ->
  (forall r', In r' before -> search (pattern r') (strip (lower q)) = None) ->
  search (pattern r) (strip (lower q)) = Some m ->
  handler r m (strip (lower q)) = Ret a ->
  rule_answer a /\ parse_question q = Ret a.
Proof.
  intros Hp Hb Hs Ha.
  assert (Hin : In r patterns) by (rewrite Hp; apply in_elt).
  split; [exact (rule_returns r _ m a Hin (normalised_lowered q) Hs Ha)|].
  unfold parse_question. rewrite Hp. now apply try_patterns_first with (m := m).
Qed.

(** *** C3 (amended)

    Rules are tried in declaration order, and the first rule whose
    recognizer succeeds and whose handler returns determines the result.
    A handler raises only when the time value it converts, or the number
    of hours or days it formats, has more than 4300 digits; then the rule
    is passed over and the rules after it, followed by the keyword
    fallback, decide.  On a short question no handler raises, so that the
    first recognizer that succeeds decides.  Consequently a question on
    which the top-N-errors recognizer, the first rule, succeeds with a time
    value within the limit gets the top-N-errors query (errors grouped by
    code, message, source, ordered by count descending, LIMIT N), whether
    or not the show-errors recognizer succeeds on it too. *)
Theorem C3_first_matching_rule_decides (before after : list rule) (r : rule)
    (q : string) (m : caps) :
  patterns = (before ++ r :: after)%list ->
  (forall r', In r' before -> search (pattern r') (strip (lower q)) = None) ->
  search (pattern r) (strip (lower q)) = Some m ->
  (forall a, handler r m (strip (lower q)) = Ret a -> parse_question q = Ret a) /\
  (handler r m (strip (lower q)) = Raise ->
   parse_question q = try_patterns after (strip (lower q))) /\
  (short q ->
   exists a, handler r m (strip (lower q)) = Ret a /\ parse_question q = Ret a) /\
  (before = [] ->
   exists limit v u,
     group m 1 = Some limit /\ group m 2 = Some v /\ group m 3 = Some u /\
     (within_limit v u = true ->
      parse_question q =
        Ret (Some (sql_top_errors (time_filter v u) limit),
             Some ("Finding top " ++ limit ++ " errors from the last " ++ v
                     ++ " " ++ u ++ "(s)")))).
Proof.
  intros Hp Hb Hs.
  assert (Hin : In r patterns) by (rewrite Hp; apply in_elt).
  assert (Hret : forall a, handler r m (strip (lower q)) = Ret a ->
                           parse_question q = Ret a).
  { intros a Ha. now apply (parse_question_first _ _ _ _ _ _ Hp Hb Hs Ha). }
  split; [exact Hret|]. split; [|split].
  - intros Hr. unfold parse_question. rewrite Hp.
    now apply try_patterns_skip with (m := m).
  - intros Hq.
    destruct (rule_short r _ m Hin (normalised_lowered q) Hs (short_normalised _ Hq))
      as (a & Ha).
    exists a. split; [exact Ha | now apply Hret].
  - intros ->. simpl in Hp. injection Hp as <- _. cbn [pattern handler] in *.
    destruct (top_errors_groups _ _ (normalised_lowered q) Hs)
      as (limit & v & u & H1 & H2 & H3 & Hl & Hv & _).
    exists limit, v, u. repeat split; try assumption.
    intros Ew. apply Hret.
    rewrite (handle_top_errors_eq _ _ limit v u) by assumption.
    now rewrite Ew.
Qed.

(** C3, the question that matches both patterns: the top-N-errors query is
    returned. *)
Lemma C3_first_matching_rule_decides_witness :
  let q := "show errors in last 3 days, top 5 errors in last 2 days" in
  search pat_errors_timeframe (strip (lower q)) = Some [(2, "day"); (1, "3")] /\
  search pat_top_errors (strip (lower q)) = Some [(3, "day"); (2, "2"); (1, "5")] /\
  parse_question q =
    Ret (Some (sql_top_errors "datetime('now', '-2 days')" "5"),
         Some "Finding top 5 errors from the last 2 day(s)").
Proof.
  intros q. split; [reflexivity|]. split; [reflexivity|].
  destruct (C3_first_matching_rule_decides [] (tl patterns) (hd
              {| pattern := Eps; handler := _handle_count |} patterns) q
              [(3, "day"); (2, "2"); (1, "5")] eq_refl
              (fun r' (H : In r' []) => match H with end) eq_refl)
    as (_ & _ & _ & H).
  destruct (H eq_refl) as (limit & v & u & H1 & H2 & H3 & Hq).
  injection H1 as <-. injection H2 as <-. injection H3 as <-.
  exact (Hq eq_refl).
Defined.

(** C3 as stated fails on its own example: "top 5 errors in last 2 days"
    does not match the show-errors pattern, which needs one of show, list,
    get, find in front of "errors".  And the first recognizer that succeeds
    does not always determine the result: on a time value of 4301 digits
    the top-N-errors recognizer succeeds, its handler raises, and the
    result is the could-not-understand answer of the keyword fallback. *)
Lemma C3_counterexample :
  ~ (exists m1 m2,
       search pat_top_errors (strip (lower "top 5 errors in last 2 days")) = Some m1 /\
       search pat_errors_timeframe (strip (lower "top 5 errors in last 2 days")) = Some m2) /\
  (let q := "top 5 error last " ++ nines (S max_str_digits) ++ " days" in
   exists m,
     search pat_top_errors (strip (lower q)) = Some m /\
     _handle_top_errors m (strip (lower q)) = Raise /\
     parse_question q = Ret (None, Some not_understood)).
Proof.
  split.
  - intros (m1 & m2 & _ & H). vm_compute in H. discriminate.
  - destruct long_value_passed_over as (En & Hs & Hh & _ & Hq). cbv zeta in *.
    eexists. rewrite En. split; [exact Hs|]. split; [exact Hh | exact Hq].
Qed.

(** That question still gets the top-N-errors query. *)
Example top_5_errors_in_last_2_days :
  parse_question "top 5 errors in last 2 days" =
    Ret (Some (sql_top_errors "datetime('now', '-2 days')" "5"),
         Some "Finding top 5 errors from the last 2 day(s)").
Proof. reflexivity. Qed.

Lemma time_filter_normalize (v u : string) :
  is_unit u ->
  exists k unit,
    normalize (digits_value 0 v) u = Some (k, unit) /\
    time_filter v u = "datetime('now', '-" ++ decimal k ++ " " ++ unit ++ "')" /\
    within_limit v u = fits v k.
Proof.
  unfold time_filter, within_limit. generalize (digits_value 0 v). intros n.
  intros [-> | [-> | [-> | ->]]]; eexists _, _; (split; [reflexivity|]).
  - change (dict_get multiplier "hour" 1%N) with 1%N. now rewrite N.mul_1_r.
  - change (dict_get multiplier "day" 1%N) with 1%N. now rewrite N.mul_1_r.
  - change (dict_get multiplier "week" 1%N) with 7%N. now rewrite N.mul_comm.
  - change (dict_get multiplier "month" 1%N) with 30%N. now rewrite N.mul_comm.
Qed.

Lemma fits_conversions (v : string) (k : N) :
  numeral v -> fits v k = true ->
  int v = Ret (digits_value 0 v) /\ str k = Ret (decimal k).
Proof.
  intros Hv Hf. unfold fits in Hf. apply andb_prop in Hf as [H1 H2].
  rewrite (int_numeral _ Hv), H1. unfold str. now rewrite H2.
Qed.

(** *** C4

    In each of the three time-windowed rules the captured value V and unit
    U are normalised as hour -> V hours, day -> V days, week -> 7 V days,
    month -> 30 V days, and the SQL that the rule generates holds the
    filter [created_at >= datetime('now', '-K unit')]: a lower bound
    relative to the instant at which the query runs.  The rule generates
    that SQL whenever V and K have at most 4300 digits each, which is so
    on every short question; beyond that limit the conversions raise and
    the rule generates nothing.  "last 2 week" gives 14 days and "last 1
    month" gives 30 days. *)
Theorem C4_time_window_normalised :
  (forall r gv gu q m,
     In (r, (gv, gu)) time_windowed ->
     search (pattern r) (strip (lower q)) = Some m ->
     exists V U k unit sql e,
       group m gv = Some V /\ group m gu = Some U /\ numeral V /\
       normalize (digits_value 0 V) U = Some (k, unit) /\
       infix (relative_bound k unit) sql /\
       handler r m (strip (lower q)) =
         (if fits V k then Ret (Some sql, Some e) else Raise) /\
       (fits V k = true ->
        int V = Ret (digits_value 0 V) /\ str k = Ret (decimal k)) /\
       (short q -> fits V k = true)) /\
  (forall r g, In (r, g) time_windowed -> In r patterns) /\
  parse_question "top 3 errors in last 2 week" =
    Ret (Some (sql_top_errors "datetime('now', '-14 days')" "3"),
         Some "Finding top 3 errors from the last 2 week(s)") /\
  parse_question "top 3 errors in last 1 month" =
    Ret (Some (sql_top_errors "datetime('now', '-30 days')" "3"),
         Some "Finding top 3 errors from the last 1 month(s)").
Proof.
  split; [|split; [|split; reflexivity]].
  2: { intros r g [[= <- _]|[[= <- _]|[[= <- _]|[]]]]; simpl; tauto. }
  intros r gv gu q m Hin Hs.
  pose proof (normalised_lowered q) as Hl.
  assert (Hshort : forall V U k, numeral V -> infix V (strip (lower q)) ->
                     within_limit V U = fits V k -> short q -> fits V k = true).
  { intros V U k HV Hi <- Hq.
    exact (numeral_within_limit V U _ HV Hi (short_normalised _ Hq)). }
  destruct Hin as [[= <- <- <-]|[[= <- <- <-]|[[= <- <- <-]|[]]]];
    cbn [pattern handler] in *.
  - destruct (top_errors_groups _ _ Hl Hs)
      as (limit & v & u & H1 & H2 & H3 & Hn & Hv & Hu).
    destruct (time_filter_normalize v u Hu) as (k & unit & Hk & Ht & Hw).
    exists v, u, k, unit. eexists _, _.
    do 4 (split; [eassumption|]). split; [|split; [|split]].
    2: { rewrite (handle_top_errors_eq _ _ limit v u) by assumption.
         rewrite Hw. reflexivity. }
    + rewrite Ht. unfold sql_top_errors, relative_bound.
      do 4 apply infix_app_r.
      eexists "        WHERE ", _. cbn [append]. reflexivity.
    + now apply fits_conversions.
    + exact (Hshort v u k Hv (group_infix _ _ _ _ _ Hs H2) Hw).
  - destruct (errors_timeframe_groups _ _ Hl Hs) as (v & u & H1 & H2 & Hv & Hu).
    destruct (time_filter_normalize v u Hu) as (k & unit & Hk & Ht & Hw).
    exists v, u, k, unit. eexists _, _.
    do 4 (split; [eassumption|]). split; [|split; [|split]].
    2: { rewrite (handle_errors_timeframe_eq _ _ v u) by assumption.
         rewrite Hw. reflexivity. }
    + rewrite Ht. unfold sql_errors_timeframe, relative_bound.
      do 4 apply infix_app_r.
      eexists "        WHERE ", _. cbn [append]. reflexivity.
    + now apply fits_conversions.
    + exact (Hshort v u k Hv (group_infix _ _ _ _ _ Hs H1) Hw).
  - destruct (failed_tests_groups _ _ Hl Hs) as (v & u & H1 & H2 & Hv & Hu).
    destruct (time_filter_normalize v u Hu) as (k & unit & Hk & Ht & Hw).
    exists v, u, k, unit. eexists _, _.
    do 4 (split; [eassumption|]). split; [|split; [|split]].
    2: { rewrite (handle_failed_tests_eq _ _ v u) by assumption.
         rewrite Hw. reflexivity. }
    + rewrite Ht. unfold sql_failed_tests, relative_bound.
      do 8 apply infix_app_r.
      eexists "        AND tr.", _. cbn [append]. reflexivity.
    + now apply fits_conversions.
    + exact (Hshort v u k Hv (group_infix _ _ _ _ _ Hs H1) Hw).
Qed.

Lemma C4_time_window_normalised_witness :
  let q := "show failed test runs in the last 3 weeks" in
  search pat_failed_tests (strip (lower q)) = Some [(2, "week"); (1, "3")] /\
  exists sql e,
    _handle_failed_tests [(2, "week"); (1, "3")] (strip (lower q)) = Ret (Some sql, Some e) /\
    infix (relative_bound 21 "days") sql.
Proof.
  intros q. split; [reflexivity|].
  destruct (proj1 C4_time_window_normalised
              {| pattern := pat_failed_tests; handler := _handle_failed_tests |}
              1 2 q [(2, "week"); (1, "3")]
              (or_intror (or_intror (or_introl eq_refl))) eq_refl)
    as (V & U & k & unit & sql & e & H1 & H2 & _ & Hk & Hi & Hh & _ & _).
  injection H1 as <-. injection H2 as <-.
  vm_compute in Hk. injection Hk as <- <-.
  exists sql, e. split; [exact Hh | exact Hi].
Defined.

(** *** C5 (amended)

    On "How many agents" [parse_question] returns the count query on
    [agents] with the keyword [as] in lower case, as the handler writes it;
    the text equals the one of the specification up to letter case. *)
Theorem C5_how_many_agents :
  parse_question "How many agents" =
    Ret (Some "SELECT COUNT(*) as count FROM agents", Some "Counting total agents") /\
  upper "SELECT COUNT(*) as count FROM agents" =
    upper "SELECT COUNT(*) AS count FROM agents".
Proof. split; reflexivity. Qed.

(** C5 as stated fails: the returned text is not the one with [AS] in
    capitals. *)
Lemma C5_counterexample :
  ~ exists e,
      parse_question "How many agents" =
        Ret (Some "SELECT COUNT(*) AS count FROM agents", e).
Proof. intros (e & H). vm_compute in H. discriminate. Qed.

Lemma lexicon_code_dict_get (name dflt : string) (lexicon : list (string * string)) :
  dict_get lexicon name dflt =
    match lexicon_code name lexicon with Some code => code | None => dflt end.
Proof.
  induction lexicon as [|[n c] rest IH]; simpl; [reflexivity|].
  destruct (String.eqb name n); [reflexivity | exact IH].
Qed.

(** *** C6

    When the agents-by-language rule is the first to match, the language
    filter value in the SQL is the lexicon code of the captured name L
    (lower-cased) if the lexicon, of ten entries, has one, and otherwise
    the first two characters of the lower-cased name.  Gujarati filters on
    'gu' and Klingon on 'kl'. *)
Theorem C6_language_filter_value :
  (forall q m,
     (forall r', In r' rules_before_language ->
                 search (pattern r') (strip (lower q)) = None) ->
     search pat_agents_by_language (strip (lower q)) = Some m ->
     exists L,
       group m 1 = Some L /\
       parse_question q =
         Ret (Some (sql_agents_by_language (language_filter_value L)),
              Some ("Finding all agents using " ++ lower L ++ " language"))) /\
  List.length languages = 10 /\
  parse_question "list all agents using Gujarati language" =
    Ret (Some (sql_agents_by_language "gu"),
         Some "Finding all agents using gujarati language") /\
  parse_question "list all agents using Klingon language" =
    Ret (Some (sql_agents_by_language "kl"),
         Some "Finding all agents using klingon language").
Proof.
  split; [|repeat split; reflexivity].
  intros q m Hb Hs.
  destruct (agents_by_language_groups _ _ Hs) as (L & H1 & _ & _).
  exists L. split; [assumption|].
  unfold language_filter_value. rewrite <- lexicon_code_dict_get.
  change (substring 0 2 (lower L)) with (slice_to 2 (lower L)).
  unfold parse_question.
  change patterns with
    (rules_before_language ++
       {| pattern := pat_agents_by_language; handler := _handle_agents_by_language |}
       :: skipn 7 patterns)%list.
  apply try_patterns_first with (m := m); try assumption.
  now apply handle_agents_by_language_eq.
Qed.

Lemma C6_language_filter_value_witness :
  let q := "Show agents with TAMIL language" in
  search pat_agents_by_language (strip (lower q)) = Some [(1, "tamil")] /\
  parse_question q =
    Ret (Some (sql_agents_by_language "ta"),
         Some "Finding all agents using tamil language").
Proof.
  intros q. split; [reflexivity|].
  destruct (proj1 C6_language_filter_value q [(1, "tamil")]) as (L & H1 & Hq).
  - intros r' Hin. unfold rules_before_language in Hin. simpl in Hin.
    repeat (destruct Hin as [<-|Hin]; [reflexivity|]). contradiction.
  - reflexivity.
  - injection H1 as <-. exact Hq.
Defined.

(** ** First hits in the catalog *)

Lemma find_first_such {A : Type} (f : A -> bool) (P : A -> Prop) (l : list A) (t : A) :
  (forall x, f x = true <-> P x) -> first_such P l t -> find f l = Some t.
Proof.
  intros Hf (before & after & -> & Ht & Hb).
  induction before as [|x before IH]; simpl.
  - apply Hf in Ht. now rewrite Ht.
  - destruct (f x) eqn:E.
    + apply Hf in E. exfalso. apply (Hb x); [now left | assumption].
    + apply IH. intros y Hy. apply Hb. now right.
Qed.

Lemma find_some_first {A : Type} (f : A -> bool) (P : A -> Prop) (l : list A) (t : A) :
  (forall x, f x = true <-> P x) -> find f l = Some t -> first_such P l t.
Proof.
  intros Hf. induction l as [|x l IH]; simpl; [discriminate|].
  destruct (f x) eqn:E.
  - intros [= ->]. exists [], l. repeat split; [now apply Hf | intros y []].
  - intros H. destruct (IH H) as (before & after & -> & Ht & Hb).
    exists (x :: before), after. repeat split; [assumption|].
    intros y [<-|Hy]; [|now apply Hb].
    intros Hp. apply Hf in Hp. congruence.
Qed.

Lemma find_none_all {A : Type} (f : A -> bool) (P : A -> Prop) (l : list A) :
  (forall x, f x = true <-> P x) ->
  (find f l = None <-> forall x, In x l -> ~ P x).
Proof.
  intros Hf. split.
  - intros H x Hx Hp. apply Hf in Hp.
    pose proof (find_none _ _ H x Hx). congruence.
  - intros H. induction l as [|x l IH]; simpl; [reflexivity|].
    destruct (f x) eqn:E.
    + apply Hf in E. exfalso. apply (H x); [now left | assumption].
    + apply IH. intros y Hy. apply H. now right.
Qed.

Lemma mentions_test (q t : string) :
  contains (replace "_" " " t) q || contains t q = true <-> mentions q t.
Proof. unfold mentions. now rewrite orb_true_iff, !contains_spec. Qed.

Lemma qualifies_test (entity t : string) :
  contains entity t || startswith t entity = true <-> qualifies entity t.
Proof.
  unfold qualifies, startswith. now rewrite orb_true_iff, contains_spec, prefix_spec.
Qed.

(** *** C7

    When no rule matches, the answer is that of the keyword fallback: for
    the first table of the catalog, in its order, whose name, with
    underscores or with them replaced by spaces, is a literal substring of
    the normalised question, the query selecting everything from that
    table with LIMIT 100 and an explanation naming the table; when no table
    is mentioned, no SQL and the non-empty could-not-understand reason. *)
Theorem C7_keyword_fallback (q : string) :
  (forall r, In r patterns -> search (pattern r) (strip (lower q)) = None) ->
  (forall t, first_such (mentions (strip (lower q))) table_names t ->
     parse_question q =
       Ret (Some ("SELECT * FROM " ++ t ++ " LIMIT 100"),
            Some ("Showing data from " ++ t ++ " table"))) /\
  ((forall t, In t table_names -> ~ mentions (strip (lower q)) t) ->
     parse_question q = Ret (None, Some not_understood)) /\
  not_understood <> "" /\
  ((exists t, first_such (mentions (strip (lower q))) table_names t) \/
   (forall t, In t table_names -> ~ mentions (strip (lower q)) t)).
Proof.
  intros Hn. unfold parse_question.
  rewrite (try_patterns_none _ _ Hn), keyword_based_query_eq.
  set (q' := strip (lower q)).
  set (test := fun table_name =>
         contains (replace "_" " " table_name) q' || contains table_name q').
  assert (Hf : forall x, test x = true <-> mentions q' x)
    by (intros x; apply mentions_test).
  unfold first_table. repeat split.
  - intros t Ht. now rewrite (find_first_such _ _ _ _ Hf Ht).
  - intros Hno. apply (find_none_all _ _ _ Hf) in Hno. now rewrite Hno.
  - discriminate.
  - destruct (find test table_names) as [t|] eqn:E.
    + left. exists t. now apply (find_some_first test).
    + right. now apply (find_none_all test).
Qed.

Lemma C7_keyword_fallback_witness :
  parse_question "Tell me about billing usage" =
    Ret (Some "SELECT * FROM billing_usage LIMIT 100",
         Some "Showing data from billing_usage table") /\
  parse_question "asdkjasd random gibberish" = Ret (None, Some not_understood).
Proof.
  split.
  - refine (proj1 (C7_keyword_fallback "Tell me about billing usage" _)
              "billing_usage" _).
    + intros r Hin. unfold patterns in Hin. simpl in Hin.
      repeat (destruct Hin as [<-|Hin]; [reflexivity|]). contradiction.
    + exists (firstn 10 table_names), (skipn 11 table_names).
      split; [reflexivity|]. split.
      * left. apply contains_spec. reflexivity.
      * intros x Hin. simpl in Hin.
        repeat (destruct Hin as [<-|Hin];
                [intros [H|H]; apply contains_spec in H; discriminate H|]).
        contradiction.
  - refine (proj1 (proj2 (C7_keyword_fallback "asdkjasd random gibberish" _)) _).
    + intros r Hin. unfold patterns in Hin. simpl in Hin.
      repeat (destruct Hin as [<-|Hin]; [reflexivity|]). contradiction.
    + intros t Hin. vm_compute in Hin.
      repeat (destruct Hin as [<-|Hin];
              [intros [H|H]; apply contains_spec in H; discriminate H|]).
      contradiction.
Defined.

(** The dispatch loop returns from every suffix of the rule table, also
    when handlers raise. *)
Lemma try_patterns_returns (rules : list rule) (q : string) :
  (forall r, In r rules -> In r patterns) -> all lowered q = true ->
  exists a, try_patterns rules q = Ret a /\
    ((exists sql e, a = (Some sql, Some e)) \/
     (exists reason, a = (None, Some reason) /\ reason <> "") \/
     (a = (None, None) /\ search pat_count q <> None)).
Proof.
  intros Hsub Hl. induction rules as [|r rules IH]; simpl.
  - rewrite keyword_based_query_eq. eexists. split; [reflexivity|].
    destruct (first_table _) as [t|].
    + left. eauto.
    + right. left. exists not_understood. split; [reflexivity | discriminate].
  - assert (IH' := IH (fun r' H => Hsub r' (or_intror H))).
    destruct (search (pattern r) q) as [m|] eqn:Es; [|exact IH'].
    destruct (handler r m q) as [[sql e]|] eqn:Eh; [|exact IH'].
    exists (sql, e). split; [reflexivity|].
    destruct (rule_explained r q m _ (Hsub r (or_introl eq_refl)) Hl Es Eh)
      as [E|(sql' & e' & E & _)]; [|left; eauto].
    right; right. split; [exact E|]. injection E as -> ->.
    rewrite <- (rule_empty_pair r q m (Hsub r (or_introl eq_refl)) Hl Es Eh).
    congruence.
Qed.

(** *** C8 (defect in the code)

    One half of C8 holds: no exception leaves [parse_question].  A handler
    can raise, as the top-N-errors handler does on a time value of 4301
    digits, and the loop then goes on to the rules after it and to the
    keyword fallback, which always returns.  The other half does not hold:
    besides SQL with an explanation and no SQL with a reason, the result
    can be the empty pair, without SQL and without a reason.  That pair
    comes from the count rule alone, whose handler returns it when the
    entity resolves to no table (the defect of C1); "how many xyz" gets
    it.  The empty string, blanks only, a question without letters and
    SQL-like text are answered in one of the two shapes. *)
Theorem C8_no_exception_but_an_empty_pair :
  (forall q, exists a, parse_question q = Ret a) /\
  (forall q a,
     parse_question q = Ret a ->
     answer_shape a \/
     (a = (None, None) /\ search pat_count (strip (lower q)) <> None)) /\
  (let q := "top 5 error last " ++ nines (S max_str_digits) ++ " days" in
   let m := [(3, "day"); (2, nines (S max_str_digits)); (1, "5")] in
   search pat_top_errors (strip (lower q)) = Some m /\
   _handle_top_errors m (strip (lower q)) = Raise /\
   parse_question q = Ret (None, Some not_understood)) /\
  parse_question "how many xyz" = Ret (None, None) /\
  ~ answer_shape (None, None) /\
  parse_question "" = Ret (None, Some not_understood) /\
  parse_question "    " = Ret (None, Some not_understood) /\
  parse_question "12345 ?!" = Ret (None, Some not_understood) /\
  parse_question "DROP TABLE users; --" =
    Ret (Some "SELECT * FROM users LIMIT 100", Some "Showing data from users table") /\
  parse_question "'; DELETE FROM agents WHERE 1=1" =
    Ret (Some "SELECT * FROM agents LIMIT 100", Some "Showing data from agents table").
Proof.
  assert (T : forall q, exists a,
             parse_question q = Ret a /\
             ((exists sql e, a = (Some sql, Some e)) \/
              (exists reason, a = (None, Some reason) /\ reason <> "") \/
              (a = (None, None) /\ search pat_count (strip (lower q)) <> None))).
  { intros q. apply try_patterns_returns; [auto | apply normalised_lowered]. }
  split; [|split; [|split; [|split; [|split]]]].
  - intros q. destruct (T q) as (a & Ha & _). now exists a.
  - intros q a Ha. destruct (T q) as (a' & Ha' & H).
    rewrite Ha in Ha'. injection Ha' as <-.
    destruct H as [H|[(reason & -> & _)|H]].
    + left. now left.
    + left. right. now exists reason.
    + now right.
  - destruct long_value_passed_over as (En & Hs & Hh & _ & Hq). cbv zeta in *.
    rewrite En. split; [exact Hs|]. split; [exact Hh | exact Hq].
  - reflexivity.
  - intros [(sql & e & [=])|(reason & [=])].
  - repeat split; reflexivity.
Qed.

Lemma language_value_word (code : string) :
  language_value code -> all is_word code = true.
Proof.
  intros [(name & Hin)|(g & [_ Hg] & ->)].
  - vm_compute in Hin.
    repeat (destruct Hin as [Hin|Hin]; [injection Hin as <- <-; reflexivity|]).
    contradiction.
  - apply all_slice_to, lower_all; auto using lower_char_word.
Qed.

(** Where the SQL of a rule comes from. *)
Lemma rule_provenance (r : rule) (q : string) (m : caps) (sql : string)
    (e : option string) :
  In r patterns -> all lowered q = true -> search (pattern r) q = Some m ->
  handler r m q = Ret (Some sql, e) -> provenance q sql.
Proof.
  intros Hin Hl Hs Hh. unfold patterns in Hin. simpl in Hin.
  repeat (destruct Hin as [<-|Hin]); try contradiction; cbn [pattern handler] in *;
    try (match type of Hh with
         | ?h m q = _ =>
             let E := fresh "E" in
             eassert (E : h m q = Ret _) by reflexivity;
             rewrite E in Hh; injection Hh as <- _;
             left; vm_compute; tauto
         end).
  - destruct (top_errors_groups _ _ Hl Hs)
      as (limit & v & u & H1 & H2 & H3 & Hn & Hv & Hu).
    rewrite (handle_top_errors_eq _ _ limit v u) in Hh by assumption.
    destruct (within_limit v u); [|discriminate]. injection Hh as <- _.
    do 4 right. left. exists m, limit, v, u.
    do 4 (split; [assumption|]). split; [exact Hn|].
    split; [exact (group_infix _ _ _ _ _ Hs H1)|]. auto.
  - destruct (errors_timeframe_groups _ _ Hl Hs) as (v & u & H1 & H2 & Hv & Hu).
    rewrite (handle_errors_timeframe_eq _ _ v u) in Hh by assumption.
    destruct (within_limit v u); [|discriminate]. injection Hh as <- _.
    do 5 right. left. exists m, v, u.
    do 5 (split; [assumption|]). reflexivity.
  - destruct (failed_tests_groups _ _ Hl Hs) as (v & u & H1 & H2 & Hv & Hu).
    rewrite (handle_failed_tests_eq _ _ v u) in Hh by assumption.
    destruct (within_limit v u); [|discriminate]. injection Hh as <- _.
    do 6 right. exists m, v, u.
    do 5 (split; [assumption|]). reflexivity.
  - destruct (agents_by_language_groups _ _ Hs) as (g & H1 & Hg & _).
    rewrite (handle_agents_by_language_eq _ _ g) in Hh by assumption.
    injection Hh as <- _.
    right; right; left. exists m, g. do 3 (split; [assumption|]).
    unfold language_filter_value. now rewrite <- lexicon_code_dict_get.
  - destruct (count_groups _ _ Hs) as (g & H1 & Hg & _).
    rewrite (handle_count_eq _ _ g) in Hh by assumption.
    destruct (first_table _) as [t|] eqn:E; [|discriminate].
    injection Hh as <- _. apply first_table_some in E as [Ht _].
    right; left. exists t. auto.
  - destruct (top_usage_groups _ _ Hs) as (limit & H1 & Hn).
    rewrite (handle_top_usage_eq _ _ limit) in Hh by assumption.
    injection Hh as <- _.
    do 3 right. left. exists m, limit.
    do 3 (split; [assumption|]). split; [|reflexivity].
    exact (group_infix _ _ _ _ _ Hs H1).
Qed.

Lemma language_filter_value_word (L : string) :
  word L -> all is_word (language_filter_value L) = true.
Proof.
  intros HL. apply language_value_word.
  unfold language_filter_value. rewrite <- lexicon_code_dict_get.
  now apply language_value_get.
Qed.

(** *** C9 (amended)

    Whatever the question, the returned SQL is one of the fixed texts or a
    template filled with values of known origin: a table name, always a
    key of the catalog; the language value, the code that the lexicon has
    for the captured name or else the first two characters of that name,
    lower-cased; the row limit, the captured run of digits as the question
    has it; the number of the time filter, the decimal text of the
    captured value read by [int] and multiplied.  The limit and the time
    value do not go through the catalog or the lexicon.  Every one of
    these values consists of word characters, and neither quote nor the
    semicolon is one, so none of them comes from the question into the
    SQL. *)
Theorem C9_provenance_of_interpolations (q sql : string) (e : option string) :
  parse_question q = Ret (Some sql, e) ->
  provenance (strip (lower q)) sql /\
  (forall t, In t table_names -> all is_word t = true) /\
  (forall L, word L -> all is_word (language_filter_value L) = true) /\
  (forall d, numeral d -> all is_word d = true) /\
  (forall n, all is_word (decimal n) = true) /\
  is_word "'" = false /\ is_word "034" = false /\ is_word ";" = false.
Proof.
  intros H.
  split; [|split; [|split; [|split; [|split; [|repeat split; reflexivity]]]]].
  - unfold parse_question in H.
    apply try_patterns_inv in H as [(r & m & Hin & Hs & Hh)|Hk].
    + exact (rule_provenance r _ m sql e Hin (normalised_lowered q) Hs Hh).
    + rewrite keyword_based_query_eq in Hk.
      destruct (first_table _) as [t|] eqn:E; [|discriminate].
      injection Hk as <- _. apply first_table_some in E as [Ht _].
      right; left. exists t. auto.
  - intros t Ht. vm_compute in Ht.
    repeat (destruct Ht as [<-|Ht]; [reflexivity|]). contradiction.
  - apply language_filter_value_word.
  - intros d [_ Hd]. eapply all_impl; [|exact Hd]. apply digit_is_word.
  - intros n. eapply all_impl; [|apply decimal_digits]. apply digit_is_word.
Qed.

Lemma C9_provenance_of_interpolations_witness :
  parse_question "list agents in Klingon language" =
    Ret (Some (sql_agents_by_language "kl"),
         Some "Finding all agents using klingon language") /\
  provenance (strip (lower "list agents in Klingon language"))
    (sql_agents_by_language "kl").
Proof.
  split; [reflexivity|].
  apply (C9_provenance_of_interpolations "list agents in Klingon language" _
           (Some "Finding all agents using klingon language")).
  reflexivity.
Defined.

(** C9 as stated fails: the row limit of "highest 007 usage" is the run of
    digits of the question, copied as it stands into the SQL; it is no key
    of the catalog and no code of the lexicon. *)
Lemma C9_counterexample :
  search pat_top_usage (strip (lower "highest 007 usage")) = Some [(1, "007")] /\
  parse_question "highest 007 usage" =
    Ret (Some (sql_top_usage "007"), Some "Finding top 007 agents by token usage") /\
  infix "007" "highest 007 usage" /\
  infix "LIMIT 007" (sql_top_usage "007") /\
  ~ through_catalog_or_lexicon "007".
Proof.
  split; [reflexivity|]. split; [reflexivity|].
  split; [now exists "highest ", " usage"|].
  split.
  - apply contains_spec. reflexivity.
  - intros [H|(name & H)]; vm_compute in H;
      repeat (destruct H as [H|H]; [discriminate H|]); contradiction.
Qed.

(** *** C10

    When the count rule is the first to match, its captured entity is
    resolved to the first table, in the order of the catalog, whose name
    contains the entity as a substring or starts with it, and the count
    query targets that one table.  For "how many runs" that is
    [agent_runs], declared before [test_runs] (which qualifies too) and
    before [run_logs]. *)
Theorem C10_count_resolves_first_table :
  (forall q m t,
     (forall r', In r' rules_before_count ->
                 search (pattern r') (strip (lower q)) = None) ->
     search pat_count (strip (lower q)) = Some m ->
     exists entity,
       group m 1 = Some entity /\
       (first_such (qualifies entity) table_names t ->
        parse_question q =
          Ret (Some ("SELECT COUNT(*) as count FROM " ++ t),
               Some ("Counting total " ++ entity)))) /\
  parse_question "how many runs" =
    Ret (Some "SELECT COUNT(*) as count FROM agent_runs", Some "Counting total runs") /\
  first_such (qualifies "runs") table_names "agent_runs" /\
  qualifies "runs" "test_runs" /\
  (exists l1 l2 l3,
     table_names = (l1 ++ "agent_runs" :: l2 ++ "test_runs" :: "run_logs" :: l3)%list).
Proof.
  split; [|split; [reflexivity|split; [|split]]].
  - intros q m t Hb Hs.
    destruct (count_groups _ _ Hs) as (g & H1 & _ & Hg).
    exists g. split; [assumption|]. intros Ht.
    assert (El : lower g = g).
    { apply lowered_lower. eapply all_infix; [exact Hg | apply normalised_lowered]. }
    unfold parse_question.
    change patterns with
      (rules_before_count ++
         {| pattern := pat_count; handler := _handle_count |}
         :: skipn 11 patterns)%list.
    apply try_patterns_first with (m := m); try assumption.
    cbn [handler]. rewrite (handle_count_eq _ _ g H1), El.
    unfold first_table.
    rewrite (find_first_such _ _ _ _ (qualifies_test g) Ht). reflexivity.
  - exists (firstn 5 table_names), (skipn 6 table_names).
    split; [reflexivity|]. split.
    + apply qualifies_test. reflexivity.
    + intros x Hin Hq. apply qualifies_test in Hq. simpl in Hin.
      repeat (destruct Hin as [<-|Hin]; [discriminate Hq|]). contradiction.
  - apply qualifies_test. reflexivity.
  - exists (firstn 5 table_names), [], (skipn 8 table_names). reflexivity.
Qed.

Lemma C10_count_resolves_first_table_witness :
  search pat_count (strip (lower "Count  Integration rows")) =
    Some [(1, "integration")] /\
  parse_question "Count  Integration rows" =
    Ret (Some "SELECT COUNT(*) as count FROM integrations",
         Some "Counting total integration").
Proof.
  split; [reflexivity|].
  destruct (proj1 C10_count_resolves_first_table "Count  Integration rows"
              [(1, "integration")] "integrations") as (entity & H1 & Hq).
  - intros r' Hin. unfold rules_before_count in Hin. simpl in Hin.
    repeat (destruct Hin as [<-|Hin]; [reflexivity|]). contradiction.
  - reflexivity.
  - injection H1 as <-. apply Hq.
    exists (firstn 3 table_names), (skipn 4 table_names).
    split; [reflexivity|]. split.
    + apply qualifies_test. reflexivity.
    + intros x Hin Hx. apply qualifies_test in Hx. simpl in Hin.
      repeat (destruct Hin as [<-|Hin]; [discriminate Hx|]). contradiction.
Defined.

(** ** Further properties of the translator *)

(** *** Normalisation *)

Lemma lower_app (a b : string) : lower (a ++ b) = lower a ++ lower b.
Proof. induction a as [|c a IH]; simpl; [reflexivity | now rewrite IH]. Qed.

Lemma lower_idem (s : string) : lower (lower s) = lower s.
Proof. apply lowered_lower, lower_lowered. Qed.

Lemma is_space_lower_char (c : ascii) : is_space (lower_char c) = is_space c.
Proof. each_char c; reflexivity. Qed.

Lemma lower_lstrip (s : string) : lower (lstrip s) = lstrip (lower s).
Proof.
  induction s as [|c s IH]; simpl; [reflexivity|].
  rewrite is_space_lower_char. destruct (is_space c); [exact IH | reflexivity].
Qed.

Lemma lower_rstrip (s : string) : lower (rstrip s) = rstrip (lower s).
Proof.
  induction s as [|c s IH]; simpl; [reflexivity|].
  rewrite <- IH, is_space_lower_char.
  destruct (rstrip s); simpl; [destruct (is_space c)|]; reflexivity.
Qed.

Lemma lower_strip (s : string) : lower (strip s) = strip (lower s).
Proof. unfold strip. now rewrite lower_rstrip, lower_lstrip. Qed.

Lemma lstrip_blank (s : string) : all is_space s = true -> lstrip s = "".
Proof.
  induction s as [|c s IH]; simpl; [reflexivity|].
  intros H. apply andb_prop in H as [Hc Hs]. now rewrite Hc, IH.
Qed.

Lemma lstrip_empty_blank (s : string) : lstrip s = "" -> all is_space s = true.
Proof.
  induction s as [|c s IH]; simpl; [reflexivity|].
  destruct (is_space c); [assumption | discriminate].
Qed.

Lemma lstrip_app (s w : string) : lstrip s <> "" -> lstrip (s ++ w) = lstrip s ++ w.
Proof.
  induction s as [|c s IH]; simpl; [congruence|].
  destruct (is_space c); [exact IH | reflexivity].
Qed.

(** Blanks around a text do not survive [strip]. *)
Lemma strip_padded (w1 s w2 : string) :
  all is_space w1 = true -> all is_space w2 = true ->
  strip (w1 ++ s ++ w2) = strip s.
Proof.
  intros H1 H2. unfold strip. rewrite lstrip_spaces by assumption.
  destruct (lstrip s) as [|c r] eqn:E.
  - apply lstrip_empty_blank in E.
    rewrite lstrip_blank; [reflexivity|].
    now rewrite all_app, E, H2.
  - rewrite lstrip_app by (rewrite E; discriminate).
    rewrite E. now apply rstrip_spaces.
Qed.

(** X1.  [parse_question] looks at the normalised question only: blanks
    around a question do not change the answer, and asking the normalised
    question again gives the same answer. *)
Theorem parse_question_ignores_padding (q w1 w2 : string) :
  all is_space w1 = true -> all is_space w2 = true ->
  parse_question (w1 ++ q ++ w2) = parse_question q /\
  parse_question (strip (lower q)) = parse_question q.
Proof.
  intros H1 H2. unfold parse_question. split.
  - rewrite !lower_app, strip_padded; [reflexivity| |].
    + apply lower_all; [|assumption]. intros c. now rewrite is_space_lower_char.
    + apply lower_all; [|assumption]. intros c. now rewrite is_space_lower_char.
  - now rewrite <- lower_strip, strip_idem, lower_strip, lower_idem.
Qed.

Lemma parse_question_ignores_padding_witness :
  parse_question (String "009" "  " ++ "How many agents" ++ String "010" " ") =
    parse_question "How many agents" /\
  parse_question (strip (lower "How many agents")) = parse_question "How many agents".
Proof.
  apply (parse_question_ignores_padding "How many agents"); reflexivity.
Defined.

(** *** Shape of the answers *)

Lemma generated_nonempty (sql : string) : generated sql -> sql <> "".
Proof.
  intros Hg ->. apply generated_select in Hg. discriminate Hg.
Qed.

(** X2.  The three answers of [parse_question]: SQL that is non-empty and
    already trimmed, together with a non-empty explanation; no SQL with the
    could-not-understand text, the only reason the translator has; or the
    empty pair. *)
Theorem parse_question_answers (q : string) (a : answer) :
  parse_question q = Ret a ->
  (exists sql text,
     a = (Some sql, Some text) /\ sql <> "" /\ strip sql = sql /\ text <> "") \/
  a = (None, Some not_understood) \/
  a = (None, None).
Proof.
  unfold parse_question. intros H.
  apply try_patterns_inv in H as [(r & m & Hin & Hs & Hh)|Hk].
  - destruct (rule_explained r _ m a Hin (normalised_lowered q) Hs Hh)
      as [->|(sql & text & -> & Ht & Hg)]; [now right; right|].
    left. exists sql, text.
    auto using generated_nonempty, generated_stripped.
  - rewrite keyword_based_query_eq in Hk. injection Hk as <-.
    destruct (first_table _) as [t|] eqn:E; [|now right; left].
    apply first_table_some in E as [Hin _].
    left. eexists _, _. split; [reflexivity|].
    assert (Hg : generated (sql_keyword t)) by now constructor.
    repeat split; auto using generated_nonempty, generated_stripped.
    cbn; discriminate.
Qed.

Lemma parse_question_answers_witness :
  (exists sql text,
     (Some "SELECT * FROM users LIMIT 100", Some "Showing data from users table")
       = (Some sql, Some text) /\ sql <> "" /\ strip sql = sql /\ text <> "") \/
  (Some "SELECT * FROM users LIMIT 100", Some "Showing data from users table")
    = (None, Some not_understood) \/
  (Some "SELECT * FROM users LIMIT 100", Some "Showing data from users table")
    = (@None string, @None string).
Proof.
  apply (parse_question_answers "who are the users?"). reflexivity.
Defined.

(** *** A recognised phrase inside a longer question *)

Lemma infix_nonempty (t x : string) : infix t x -> t <> "" -> x <> "".
Proof.
  intros (p & q & ->) Ht E. destruct p; simpl in E; [|discriminate].
  destruct t; [contradiction | discriminate].
Qed.

Lemma infix_cons (t x : string) (c : ascii) : infix t x -> infix t (String c x).
Proof.
  intros H. change (String c x) with (String c "" ++ x). now apply infix_app_r.
Qed.

Lemma infix_lstrip (t x : string) :
  infix t x -> head_ok t = true -> infix t (lstrip x).
Proof.
  intros (p & q & ->) Ht. induction p as [|d p IH]; simpl.
  - destruct t as [|c t]; [discriminate|]. simpl in *.
    apply negb_true_iff in Ht. rewrite Ht. exists "", q. reflexivity.
  - destruct (is_space d); [exact IH|].
    exists (String d p), q. reflexivity.
Qed.

Lemma tight_tail_tight (c d : ascii) (t : string) :
  tight (String c (String d t)) -> tight (String d t).
Proof.
  intros [_ H]. split; [discriminate|].
  change (rstrip (String c (String d t))) with
    (match rstrip (String d t) with
     | "" => if is_space c then "" else String c ""
     | String x y => String c (String x y)
     end) in H.
  destruct (rstrip (String d t)) as [|x y].
  - destruct (is_space c); discriminate H.
  - injection H as -> ->. reflexivity.
Qed.

Lemma rstrip_tight_prefix (t q : string) :
  tight t -> exists q', rstrip (t ++ q) = t ++ q'.
Proof.
  induction t as [|c t IH]; intros Ht; [now destruct Ht|].
  destruct t as [|d t].
  - destruct Ht as [_ Ht]. simpl in Ht.
    destruct (is_space c) eqn:Hc; [discriminate|]. simpl.
    destruct (rstrip q) as [|x y]; rewrite ?Hc; eauto.
  - destruct (IH (tight_tail_tight _ _ _ Ht)) as (q' & E).
    change (rstrip (String c (String d t) ++ q)) with
      (match rstrip (String d t ++ q) with
       | "" => if is_space c then "" else String c ""
       | String x y => String c (String x y)
       end).
    rewrite E. exists q'. reflexivity.
Qed.

Lemma infix_rstrip (t x : string) : infix t x -> tight t -> infix t (rstrip x).
Proof.
  intros (p & q & ->) Ht. induction p as [|d p IH].
  - destruct (rstrip_tight_prefix t q Ht) as (q' & E).
    simpl. rewrite E. exists "", q'. reflexivity.
  - change (rstrip (String d p ++ t ++ q)) with
      (match rstrip (p ++ t ++ q) with
       | "" => if is_space d then "" else String d ""
       | String x y => String d (String x y)
       end).
    destruct (rstrip (p ++ t ++ q)) as [|x y] eqn:E.
    + exfalso. apply (infix_nonempty _ _ IH); [apply Ht | reflexivity].
    + now apply infix_cons.
Qed.

Lemma infix_strip (t x : string) :
  infix t x -> head_ok t = true -> tight t -> infix t (strip x).
Proof.
  intros H Hh Ht. unfold strip.
  apply infix_rstrip; [now apply infix_lstrip | assumption].
Qed.

Lemma lstrip_suffix (s : string) : exists w, s = w ++ lstrip s.
Proof.
  induction s as [|c s IH]; simpl; [now exists ""|].
  destruct (is_space c); [|now exists ""].
  destruct IH as (w & E). exists (String c w). simpl. now rewrite <- E.
Qed.

Lemma rstrip_prefix (s : string) : exists w, s = rstrip s ++ w.
Proof.
  induction s as [|c s IH]; simpl; [now exists ""|].
  destruct IH as (w & E). destruct (rstrip s) as [|x y].
  - destruct (is_space c); [now exists (String c s) | exists s; reflexivity].
  - exists w. simpl in *. now rewrite <- E.
Qed.

Lemma strip_infix (s : string) : infix (strip s) s.
Proof.
  unfold strip. destruct (lstrip_suffix s) as (w1 & E1).
  destruct (rstrip_prefix (lstrip s)) as (w2 & E2).
  exists w1, w2. now rewrite <- E2.
Qed.

(** A stripped text is empty, or starts and ends with a character that is
    not blank. *)
Lemma strip_cases (s : string) :
  strip s = "" \/ (head_ok (strip s) = true /\ tight (strip s)).
Proof.
  unfold strip. destruct (lstrip s) as [|c r] eqn:E; [now left|].
  assert (Hc : is_space c = false).
  { clear - E. induction s as [|d s IH]; simpl in E; [discriminate|].
    destruct (is_space d) eqn:Hd; [auto | now injection E as <- _]. }
  right. simpl. destruct (rstrip r) as [|x y] eqn:Er.
  - rewrite Hc. split; [simpl; now rewrite Hc|].
    split; [discriminate | simpl; now rewrite Hc].
  - split; [simpl; now rewrite Hc|].
    split; [discriminate|].
    change (rstrip (String c (String x y))) with
      (match rstrip (String x y) with
       | "" => if is_space c then "" else String c ""
       | String x' y' => String c (String x' y')
       end).
    rewrite <- Er, rstrip_idem, Er. reflexivity.
Qed.

(** The normalised form of a question lies inside the normalised form of
    every question that contains it. *)
Lemma normalised_infix (pre q post : string) :
  infix (strip (lower q)) (strip (lower (pre ++ q ++ post))).
Proof.
  destruct (strip_cases (lower q)) as [-> | [Hh Ht]].
  - exists "", (strip (lower (pre ++ q ++ post))). reflexivity.
  - apply infix_strip; try assumption.
    apply infix_trans with (y := lower q); [apply strip_infix|].
    rewrite !lower_app. now exists (lower pre), (lower post).
Qed.

(** [search] has no anchors: a match in a text is a match in every text
    that contains it. *)
Lemma search_infix (r : regex) (s s' : string) :
  infix s s' -> search r s <> None -> search r s' <> None.
Proof.
  intros Hi H. apply search_matches in H as (t & m & Ht & HM).
  apply search_matches. exists t, m. eauto using infix_trans.
Qed.

Ltac short_question := unfold short; apply PeanoNat.Nat.leb_le; reflexivity.

Lemma try_patterns_recognised (rules : list rule) (q : string) :
  (forall r, In r rules -> In r patterns) -> all lowered q = true -> short q ->
  (exists r, In r rules /\ search (pattern r) q <> None) ->
  exists a, try_patterns rules q = Ret a /\ rule_answer a.
Proof.
  intros Hsub Hl Hq. induction rules as [|r rules IH]; intros (r0 & Hin & Hs).
  - destruct Hin.
  - simpl. destruct (search (pattern r) q) as [m|] eqn:Es.
    + destruct (rule_short r q m (Hsub r (or_introl eq_refl)) Hl Es Hq) as (a & Ha).
      rewrite Ha. exists a. split; [now destruct a|].
      exact (rule_returns r q m a (Hsub r (or_introl eq_refl)) Hl Es Ha).
    + apply IH; [intros r' H; apply Hsub; now right|].
      destruct Hin as [->|Hin]; [congruence|]. now exists r0.
Qed.

(** X3.  A question that contains a recognised question is recognised.  If
    it is short, so short that no number in it can pass the limit of the
    integer conversions, it is answered by a rule: with SQL and an
    explanation, or with the empty pair; never with the
    could-not-understand answer of the fallback. *)
Theorem recognised_inside_longer_question (pre q post : string) :
  recognised q ->
  recognised (pre ++ q ++ post) /\
  (short (pre ++ q ++ post) ->
   exists a,
     parse_question (pre ++ q ++ post) = Ret a /\
     ((exists sql e, a = (Some sql, Some e)) \/ a = (None, None))).
Proof.
  intros (r & Hin & Hs).
  assert (Hr : recognised (pre ++ q ++ post)).
  { exists r. split; [assumption|].
    eapply search_infix; [apply normalised_infix | exact Hs]. }
  split; [exact Hr|]. intros Hq.
  destruct Hr as (r' & Hin' & Hs').
  destruct (try_patterns_recognised patterns (strip (lower (pre ++ q ++ post))))
    as (a & Ha & Hra); auto using normalised_lowered, short_normalised.
  - now exists r'.
  - exists a. split; [exact Ha|].
    destruct Hra as [(sql & e & -> & _)| ->]; eauto.
Qed.

Lemma recognised_inside_longer_question_witness :
  recognised ("Please, " ++ "list all agents" ++ " for me.") /\
  exists a,
    parse_question ("Please, " ++ "list all agents" ++ " for me.") = Ret a /\
    ((exists sql e, a = (Some sql, Some e)) \/ a = (None, None)).
Proof.
  destruct (recognised_inside_longer_question "Please, " "list all agents" " for me.")
    as [H1 H2].
  - exists {| pattern := pat_all_agents; handler := _handle_all_agents |}.
    split; [simpl; tauto | vm_compute; discriminate].
  - split; [exact H1 | apply H2; short_question].
Defined.

(** X4.  The top-N-errors rule is the first of the table and its pattern
    has no anchors: a short question that contains a top-N-errors phrase
    gets the top-N-errors query, whatever stands before and after the
    phrase.  (Short: no number in it can pass the limit of the integer
    conversions, beyond which the handler raises and later rules decide.) *)
Theorem top_errors_phrase_wins (pre q post : string) :
  search pat_top_errors (strip (lower q)) <> None ->
  short (pre ++ q ++ post) ->
  exists limit v u,
    numeral limit /\ numeral v /\ is_unit u /\
    parse_question (pre ++ q ++ post) =
      Ret (Some (sql_top_errors (time_filter v u) limit),
           Some ("Finding top " ++ limit ++ " errors from the last " ++ v
                   ++ " " ++ u ++ "(s)")).
Proof.
  intros Hs Hq.
  apply (search_infix _ _ _ (normalised_infix pre q post)) in Hs.
  destruct (search pat_top_errors (strip (lower (pre ++ q ++ post))))
    as [m|] eqn:Em; [clear Hs | congruence].
  destruct (top_errors_groups _ _ (normalised_lowered _) Em)
    as (limit & v & u & H1 & H2 & H3 & Hl & Hv & Hu).
  exists limit, v, u. do 3 (split; [assumption|]).
  unfold parse_question.
  change patterns with
    ([] ++ {| pattern := pat_top_errors; handler := _handle_top_errors |}
        :: tl patterns)%list.
  apply try_patterns_first with (m := m); try assumption.
  - intros r' [].
  - cbn [handler]. rewrite (handle_top_errors_eq _ _ limit v u) by assumption.
    rewrite (numeral_within_limit v u _ Hv (group_infix _ _ _ _ _ Em H2)
               (short_normalised _ Hq)).
    reflexivity.
Qed.

Lemma top_errors_phrase_wins_witness :
  exists limit v u,
    numeral limit /\ numeral v /\ is_unit u /\
    parse_question ("how many agents had " ++ "Top 3 errors in the last 2 weeks"
                      ++ " by source") =
      Ret (Some (sql_top_errors (time_filter v u) limit),
           Some ("Finding top " ++ limit ++ " errors from the last " ++ v
                   ++ " " ++ u ++ "(s)")).
Proof.
  apply top_errors_phrase_wins; [vm_compute; discriminate | short_question].
Defined.

(** *** The time filter *)

Lemma dict_get_missing {V : Type} (d : list (string * V)) (k : string) (dflt : V) :
  (forall v, ~ In (k, v) d) -> dict_get d k dflt = dflt.
Proof.
  intros H. destruct (dict_get_cases d k dflt) as [(v & Hin & _)|[_ E]];
    [now apply H in Hin | exact E].
Qed.

(** X5.  A unit word that is none of hour, day, week, month is missing from
    both dictionaries of [_get_time_filter], whose [get] then falls back on
    the multiplier 1 and the unit days; so does the plural "hours".  That
    holds for a value of at most 4300 digits; on a longer one [int]
    raises. *)
Theorem get_time_filter_unknown_unit (v u : string) :
  numeral v -> ~ is_unit u ->
  _get_time_filter v u =
    if Nat.leb (String.length v) max_str_digits
    then Ret ("datetime('now', '-" ++ decimal (digits_value 0 v) ++ " days')")
    else Raise.
Proof.
  intros Hv Hu. rewrite (get_time_filter_numeral _ _ Hv).
  unfold within_limit, time_filter, fits.
  assert (Hk : forall (V : Type) (x : V) d,
             In (u, x) d -> In u (map fst d))
    by (intros V x d H; apply (in_map fst) in H; exact H).
  rewrite !dict_get_missing.
  - rewrite N.mul_1_r.
    destruct (Nat.leb (String.length v) max_str_digits) eqn:E; [|reflexivity].
    apply PeanoNat.Nat.leb_le in E.
    pose proof (decimal_length_numeral v Hv) as Hd.
    replace (Nat.leb (String.length (decimal (digits_value 0 v))) max_str_digits)
      with true by (symmetry; apply PeanoNat.Nat.leb_le; lia).
    reflexivity.
  - intros x H. apply Hu. apply Hk in H. simpl in H. unfold is_unit.
    intuition congruence.
  - intros x H. apply Hu. apply Hk in H. simpl in H. unfold is_unit.
    intuition congruence.
Qed.

Lemma get_time_filter_unknown_unit_witness :
  _get_time_filter "24" "hours" = Ret "datetime('now', '-24 days')".
Proof.
  apply (get_time_filter_unknown_unit "24" "hours").
  - split; [discriminate | reflexivity].
  - unfold is_unit. intuition discriminate.
Defined.

(** X6.  For every natural number n, [_get_time_filter] on the decimal text
    of n returns the window of exactly n hours, n days, 7 n days or 30 n
    days, as long as that number of hours or days has at most 4300 digits:
    [int] reads back the text of n, and the text of the filter is the
    decimal text of the product.  When the product has more digits the
    function raises. *)
Theorem get_time_filter_of_number (n : N) (u : string) :
  is_unit u ->
  exists k unit,
    normalize n u = Some (k, unit) /\
    _get_time_filter (decimal n) u =
      if Nat.leb (String.length (decimal k)) max_str_digits
      then Ret ("datetime('now', '-" ++ decimal k ++ " " ++ unit ++ "')")
      else Raise.
Proof.
  intros Hu. rewrite (get_time_filter_numeral _ _ (numeral_decimal n)).
  destruct (time_filter_normalize (decimal n) u Hu) as (k & unit & Hk & Ht & Hw).
  rewrite digits_value_decimal in Hk. exists k, unit. split; [exact Hk|].
  rewrite Hw, Ht. unfold fits.
  destruct (Nat.leb (String.length (decimal k)) max_str_digits) eqn:E;
    [|now rewrite andb_false_r].
  apply PeanoNat.Nat.leb_le in E.
  assert (Hnk : (n <= k)%N).
  { destruct Hu as [-> | [-> | [-> | ->]]].
    - change (normalize n "hour") with (Some (n, "hours")) in Hk.
      assert (k = n) by congruence. lia.
    - change (normalize n "day") with (Some (n, "days")) in Hk.
      assert (k = n) by congruence. lia.
    - change (normalize n "week") with (Some (7 * n, "days")%N) in Hk.
      assert (k = 7 * n)%N by congruence. lia.
    - change (normalize n "month") with (Some (30 * n, "days")%N) in Hk.
      assert (k = 30 * n)%N by congruence. lia. }
  apply decimal_length_mono in Hnk.
  replace (Nat.leb (String.length (decimal n)) max_str_digits)
    with true by (symmetry; apply PeanoNat.Nat.leb_le; lia).
  reflexivity.
Qed.

Lemma get_time_filter_of_number_witness :
  exists k unit,
    normalize 12 "week" = Some (k, unit) /\
    _get_time_filter (decimal 12) "week" =
      if Nat.leb (String.length (decimal k)) max_str_digits
      then Ret ("datetime('now', '-" ++ decimal k ++ " " ++ unit ++ "')")
      else Raise.
Proof.
  apply (get_time_filter_of_number 12 "week"). unfold is_unit. auto.
Defined.

(** *** The rule table and the suggestions *)

Ltac none_before Hin :=
  simpl in Hin; repeat (destruct Hin as [<-|Hin]; [reflexivity|]); contradiction.

Ltac decided_by n q :=
  exists (firstn n patterns), (skipn (S n) patterns);
  eexists _, _, _;
  split; [reflexivity|];
  split; [let r' := fresh "r" in let Hin := fresh "Hin" in
          intros r' Hin; none_before Hin|];
  split; [vm_compute; reflexivity|];
  split; vm_compute; reflexivity.

(** X7.  No rule of the table is dead: each of the fifteen rules decides
    some question, that is, it is the first rule to match it and its SQL is
    the answer. *)
Theorem every_rule_decides_a_question (r : rule) :
  In r patterns -> exists q, decides r q.
Proof.
  intros Hin. unfold patterns in Hin. simpl in Hin.
  destruct Hin as [<-|[<-|[<-|[<-|[<-|[<-|[<-|[<-|[<-|[<-|[<-|[<-|[<-|[<-|[<-|[]]]]]]]]]]]]]]]].
  - exists "top 5 errors in last 2 days". decided_by 0 q.
  - exists "show errors for last 7 days". decided_by 1 q.
  - exists "show failed test runs in last 1 day". decided_by 2 q.
  - exists "show successful test runs". decided_by 3 q.
  - exists "which integrations are inactive". decided_by 4 q.
  - exists "show integrations by status". decided_by 5 q.
  - exists "find agents with hindi language". decided_by 6 q.
  - exists "list all agents". decided_by 7 q.
  - exists "show all workspaces". decided_by 8 q.
  - exists "workspaces by plan". decided_by 9 q.
  - exists "how many agents". decided_by 10 q.
  - exists "errors by source". decided_by 11 q.
  - exists "agent runs by status". decided_by 12 q.
  - exists "billing by workspace". decided_by 13 q.
  - exists "top 10 token users". decided_by 14 q.
Qed.

Lemma every_rule_decides_a_question_witness :
  exists q, decides {| pattern := pat_top_usage; handler := _handle_top_usage |} q.
Proof.
  apply every_rule_decides_a_question. unfold patterns. simpl. tauto.
Defined.

Lemma recognisedb_spec (q : string) : recognisedb q = true <-> recognised q.
Proof.
  unfold recognisedb, recognised. rewrite existsb_exists.
  split; intros (r & Hin & H); exists r; (split; [assumption|]);
    destruct (search (pattern r) (strip (lower q))); congruence.
Qed.

(** X8.  Every question of [get_suggestions] is answered with SQL, and
    that SQL is read-only; thirteen of the fourteen are recognised by a
    rule, and "Show all failed test runs from last week", which has no
    number for the failed-test-runs pattern, is answered by the keyword
    fallback with the query on [test_runs]. *)
Theorem suggestions_are_answered (q : string) :
  In q get_suggestions ->
  (exists sql e, parse_question q = Ret (Some sql, Some e) /\ read_only sql) /\
  (recognised q <-> q <> "Show all failed test runs from last week") /\
  parse_question "Show all failed test runs from last week" =
    Ret (Some (sql_keyword "test_runs"), Some "Showing data from test_runs table").
Proof.
  intros Hin. split; [|split; [|reflexivity]].
  - assert (H : exists sql e, parse_question q = Ret (Some sql, Some e)).
    { unfold get_suggestions in Hin. simpl in Hin.
      repeat (destruct Hin as [<-|Hin];
              [eexists _, _; vm_compute; reflexivity|]).
      contradiction. }
    destruct H as (sql & e & H). exists sql, e. split; [exact H|].
    apply generated_read_only. exact (parse_question_generated _ _ _ H).
  - rewrite <- recognisedb_spec.
    unfold get_suggestions in Hin. simpl in Hin.
    repeat (destruct Hin as [<-|Hin];
            [vm_compute; split; intros; congruence|]).
    contradiction.
Qed.

Lemma suggestions_are_answered_witness :
  exists sql e,
    parse_question "Top 10 token users" = Ret (Some sql, Some e) /\ read_only sql.
Proof.
  apply (suggestions_are_answered "Top 10 token users").
  unfold get_suggestions. simpl. tauto.
Defined.

(** *** Names of the catalog and of the lexicon in questions *)

Lemma lower_blank (w : string) : all is_space w = true -> all is_space (lower w) = true.
Proof.
  intros H. apply lower_all; [|assumption].
  intros c. now rewrite is_space_lower_char.
Qed.

(** X9.  A question that is just the name of a table of the catalog, in
    any letter case, with underscores or with spaces in their place, and
    with blanks around it, is answered with the select-everything query on
    that very table: no table name is shadowed by a rule or by a table
    declared before it. *)
Theorem table_name_selects_that_table (t T w1 w2 : string) :
  In t table_names ->
  lower T = t \/ lower T = replace "_" " " t ->
  all is_space w1 = true -> all is_space w2 = true ->
  parse_question (w1 ++ T ++ w2) =
    Ret (Some ("SELECT * FROM " ++ t ++ " LIMIT 100"),
         Some ("Showing data from " ++ t ++ " table")).
Proof.
  intros Hin HT H1 H2. unfold parse_question.
  rewrite !lower_app, strip_padded by now apply lower_blank.
  vm_compute in Hin.
  repeat (destruct Hin as [<-|Hin];
          [destruct HT as [-> | ->]; vm_compute; reflexivity|]).
  contradiction.
Qed.

Lemma table_name_selects_that_table_witness :
  parse_question ("  " ++ "Integration Sync Logs" ++ String "010" "") =
    Ret (Some "SELECT * FROM integration_sync_logs LIMIT 100",
         Some "Showing data from integration_sync_logs table").
Proof.
  apply (table_name_selects_that_table "integration_sync_logs");
    [vm_compute; tauto | right; reflexivity | reflexivity | reflexivity].
Defined.

(** Every table name of the catalog is in lower case and resolves to
    itself as the entity of the count rule. *)
Lemma table_name_resolves_to_itself (t : string) :
  In t table_names ->
  lower t = t /\
  first_table (fun table_name =>
    contains t table_name || startswith table_name t) = Some t.
Proof.
  intros Hin. vm_compute in Hin.
  repeat (destruct Hin as [<-|Hin]; [split; reflexivity|]). contradiction.
Qed.

(** X10.  When the count rule is the first to match and the entity it
    captures is a table name of the catalog, the rows of exactly that
    table are counted: each table name is the first name of the catalog
    that contains it.  In particular "How many" followed by a table name
    counts that table. *)
Theorem count_of_a_table_name :
  (forall q m entity,
     (forall r', In r' rules_before_count ->
                 search (pattern r') (strip (lower q)) = None) ->
     search pat_count (strip (lower q)) = Some m ->
     group m 1 = Some entity -> In entity table_names ->
     parse_question q =
       Ret (Some ("SELECT COUNT(*) as count FROM " ++ entity),
            Some ("Counting total " ++ entity))) /\
  (forall t, In t table_names ->
     parse_question ("How many " ++ t) =
       Ret (Some ("SELECT COUNT(*) as count FROM " ++ t),
            Some ("Counting total " ++ t))) /\
  (forall t, In t table_names -> first_such (qualifies t) table_names t).
Proof.
  split; [|split].
  - intros q m entity Hb Hs Hg Hin.
    destruct (table_name_resolves_to_itself _ Hin) as [El Ef].
    unfold parse_question.
    change patterns with
      (rules_before_count ++
         {| pattern := pat_count; handler := _handle_count |}
         :: skipn 11 patterns)%list.
    apply try_patterns_first with (m := m); try assumption.
    cbn [handler]. rewrite (handle_count_eq _ _ entity Hg), El, Ef. reflexivity.
  - intros t Hin. vm_compute in Hin.
    repeat (destruct Hin as [<-|Hin]; [vm_compute; reflexivity|]). contradiction.
  - intros t Hin.
    destruct (table_name_resolves_to_itself _ Hin) as [_ Ef].
    exact (find_some_first _ _ _ _ (qualifies_test t) Ef).
Qed.

Lemma count_of_a_table_name_witness :
  parse_question "please COUNT run_logs now" =
    Ret (Some "SELECT COUNT(*) as count FROM run_logs",
         Some "Counting total run_logs").
Proof.
  apply (proj1 count_of_a_table_name "please COUNT run_logs now"
           [(1, "run_logs")] "run_logs").
  - intros r' Hin. unfold rules_before_count in Hin. none_before Hin.
  - reflexivity.
  - reflexivity.
  - vm_compute. tauto.
Defined.

(** X11.  Each of the ten language names of the lexicon, written in any
    letter case, is resolved to its code: the handler lower-cases the name
    before the lookup and the keys of the lexicon are in lower case. *)
Theorem language_name_in_any_case (name code L : string) :
  In (name, code) languages -> lower L = name ->
  parse_question ("List all agents using " ++ L ++ " language") =
    Ret (Some (sql_agents_by_language code),
         Some ("Finding all agents using " ++ name ++ " language")).
Proof.
  intros Hin HL. unfold parse_question. rewrite !lower_app, HL.
  vm_compute in Hin.
  repeat (destruct Hin as [Hin|Hin];
          [injection Hin as <- <-; vm_compute; reflexivity|]).
  contradiction.
Qed.

Lemma language_name_in_any_case_witness :
  parse_question ("List all agents using " ++ "MaLaYaLaM" ++ " language") =
    Ret (Some (sql_agents_by_language "ml"),
         Some "Finding all agents using malayalam language").
Proof.
  apply (language_name_in_any_case "malayalam" "ml" "MaLaYaLaM");
    [vm_compute; tauto | reflexivity].
Defined.

(** *** Greedy captures *)

Lemma search_here (r : regex) (s : string) (m : caps) :
  search r s = Some m -> exists pre s0, s = pre ++ s0 /\ match_here r s0 = Some m.
Proof.
  induction s as [|c s IH]; simpl.
  - destruct (match_here r "") eqn:E; [|discriminate].
    intros [= ->]. now exists "", "".
  - destruct (match_here r (String c s)) eqn:E.
    + intros [= ->]. now exists "", (String c s).
    + intros H. destruct (IH H) as (pre & s0 & -> & H0).
      now exists (String c pre), s0.
Qed.

(** When the rest of the pattern accepts every position, a greedy
    repetition takes the whole run. *)
Lemma star_greedy (a : atom) (s : string) (k : string -> option caps) :
  (forall x, k x <> None) ->
  exists t s',
    s = t ++ s' /\ all (atom_ok a) t = true /\ stops a s' = true /\
    star a s k = k s'.
Proof.
  intros Hk. induction s as [|c s IH]; simpl.
  - now exists "", "".
  - destruct (atom_ok a c) eqn:Hc.
    + destruct IH as (t & s' & -> & Ht & Hs & E). rewrite E.
      exists (String c t), s'. simpl. rewrite Hc, Ht.
      repeat split; try assumption.
      destruct (k s') eqn:Ek; [reflexivity | now apply Hk in Ek].
    + exists "", (String c s). simpl. now rewrite Hc.
Qed.

Lemma blank_run_ends_blank (c : ascii) (t : string) :
  is_space c = true -> all is_space t = true ->
  exists p d, String c t = p ++ String d "" /\ is_space d = true.
Proof.
  revert c. induction t as [|x t IH]; intros c Hc Ht.
  - now exists "", c.
  - simpl in Ht. apply andb_prop in Ht as [Hx Ht].
    destruct (IH x Hx Ht) as (p & d & E & Hd).
    exists (String c p), d. simpl. now rewrite E.
Qed.

(** X12.  The entity of a count question is a whole word: the capture of
    the count pattern is a run of word characters that starts after a
    blank and goes on until the text ends or a character follows that is
    not a word character. *)
Theorem count_entity_is_whole_word (s : string) (m : caps) :
  search pat_count s = Some m ->
  exists pre g post,
    s = pre ++ g ++ post /\ group m 1 = Some g /\ word g /\
    stops Word post = true /\
    exists p c, pre = p ++ String c "" /\ is_space c = true.
Proof.
  intros H. apply search_here in H as (pre0 & s0 & -> & H).
  unfold match_here, pat_count in H. cbn [seq] in H.
  change (rx (Seq ?a ?b) s0 [] ?k) with (rx a s0 [] (fun s1 m1 => rx b s1 m1 k)) in H.
  apply rx_sound in H as (t1 & s1 & m1 & -> & _ & H).
  change (rx ws1 s1 m1
            (fun s2 m2 => rx (Seq (Group 1 (Plus Word)) Eps) s2 m2
                            (fun _ m' => Some m')) = Some m) in H.
  apply rx_sound in H as (t2 & s2 & m2 & -> & H2 & H).
  inversion H2 as [| |a c tb m0 Hc Ht| | | | | | |]; subst.
  destruct s2 as [|d s2]; cbn [rx] in H; [discriminate|].
  destruct (atom_ok Word d) eqn:Hd; [|discriminate].
  destruct (star_greedy Word s2
              (fun s'' => Some ((1, consumed (String d s2) s'') :: m2)))
    as (t & s' & -> & Hw & Hstop & E); [discriminate|].
  pose proof (eq_trans (eq_sym H) E) as E'. injection E' as ->. clear H E.
  change (String d (t ++ s')) with (String d t ++ s').
  rewrite consumed_app.
  destruct (blank_run_ends_blank c tb Hc Ht) as (p & x & Ep & Hx).
  exists (pre0 ++ t1 ++ String c tb), (String d t), s'.
  repeat split.
  - now rewrite !app_assoc.
  - discriminate.
  - simpl in *. now rewrite Hd.
  - assumption.
  - exists (pre0 ++ t1 ++ p), x. rewrite Ep, !app_assoc. now split.
Qed.

Lemma count_entity_is_whole_word_witness :
  exists pre g post,
    "how many agentsxyz?" = pre ++ g ++ post /\
    group [(1, "agentsxyz")] 1 = Some g /\ word g /\
    stops Word post = true /\
    exists p c, pre = p ++ String c "" /\ is_space c = true.
Proof.
  apply (count_entity_is_whole_word "how many agentsxyz?"). reflexivity.
Defined.

(** ** The model-backed translators *)

(** *** Lines, joins and trailing characters *)

Lemma split_avoids (c : ascii) (s l : string) :
  In l (split c s) -> avoids c l = true.
Proof.
  revert l. induction s as [|x s IH]; simpl; intros l Hin.
  - destruct Hin as [<-|[]]. reflexivity.
  - destruct (Ascii.eqb x c) eqn:E.
    + destruct Hin as [<-|Hin]; [reflexivity | now apply IH].
    + destruct (split c s) as [|l0 ls].
      * destruct Hin as [<-|[]]. unfold avoids. cbn [all]. now rewrite E.
      * destruct Hin as [<-|Hin].
        -- unfold avoids. cbn [all]. rewrite E. apply IH. now left.
        -- apply IH. now right.
Qed.

Lemma split_whole (c : ascii) (s : string) : avoids c s = true -> split c s = [s].
Proof.
  induction s as [|x s IH]; simpl; [reflexivity|].
  intros H. apply andb_prop in H as [Hx Hs]. apply negb_true_iff in Hx.
  now rewrite Hx, (IH Hs).
Qed.

Lemma all_join (p : ascii -> bool) (sep : string) (ls : list string) :
  all p sep = true -> (forall l, In l ls -> all p l = true) ->
  all p (join sep ls) = true.
Proof.
  intros Hsep. induction ls as [|x ls IH]; intros H; [reflexivity|].
  destruct ls as [|y ls]; [apply H; now left|].
  change (join sep (x :: y :: ls)) with (x ++ sep ++ join sep (y :: ls)).
  rewrite !all_app, Hsep, (H x (or_introl eq_refl)), IH; [reflexivity|].
  intros l Hl. apply H. now right.
Qed.

Lemma all_rstrip_chars (p : ascii -> bool) (chars s : string) :
  all p s = true -> all p (rstrip_chars chars s) = true.
Proof.
  induction s as [|c s IH]; simpl; [reflexivity|].
  intros H. apply andb_prop in H as [Hc Hs]. specialize (IH Hs).
  destruct (rstrip_chars chars s) as [|d r].
  - destruct (mem c chars); simpl; [reflexivity | now rewrite Hc].
  - simpl in *. now rewrite Hc, IH.
Qed.

Lemma rstrip_chars_run (chars a k : string) :
  all (fun c => mem c chars) k = true ->
  rstrip_chars chars (a ++ k) = rstrip_chars chars a.
Proof.
  intros Hk.
  assert (E : rstrip_chars chars k = "").
  { induction k as [|c k IH]; simpl in *; [reflexivity|].
    apply andb_prop in Hk as [Hc Hk]. now rewrite (IH Hk), Hc. }
  induction a as [|c a IH]; simpl; [exact E | now rewrite IH].
Qed.

(** A prefix made of characters outside [chars] survives [rstrip]. *)
Lemma rstrip_chars_prefix (chars h y : string) :
  h <> "" -> all (fun c => negb (mem c chars)) h = true ->
  exists r, rstrip_chars chars (h ++ y) = h ++ r.
Proof.
  induction h as [|c h IH]; intros Hne Hh; [contradiction|].
  simpl in Hh. apply andb_prop in Hh as [Hc Hh]. apply negb_true_iff in Hc.
  destruct h as [|d h].
  - simpl. destruct (rstrip_chars chars y) as [|x r]; rewrite ?Hc; eauto.
  - destruct (IH ltac:(discriminate) Hh) as (r & E).
    change (rstrip_chars chars (String c (String d h) ++ y)) with
      (match rstrip_chars chars (String d h ++ y) with
       | "" => if mem c chars then "" else String c ""
       | String x z => String c (String x z)
       end).
    rewrite E. exists r. reflexivity.
Qed.

Lemma endswith_char (s : string) (c : ascii) :
  s <> "" -> endswith s (String c "") = false ->
  rstrip_chars (String c "") s = s.
Proof.
  induction s as [|x s IH]; intros Hne H; [contradiction|].
  destruct s as [|y s].
  - destruct (Ascii.eqb_spec x c) as [->|Hx].
    + unfold endswith in H. now rewrite String.eqb_refl in H.
    + apply Ascii.eqb_neq in Hx. simpl. now rewrite Hx.
  - change (endswith (String x (String y s)) (String c ""))
      with (String.eqb (String x (String y s)) (String c "")
            || endswith (String y s) (String c "")) in H.
    apply orb_false_iff in H as [_ H].
    change (rstrip_chars (String c "") (String x (String y s))) with
      (match rstrip_chars (String c "") (String y s) with
       | "" => if mem x (String c "") then "" else String x ""
       | String a b => String x (String a b)
       end).
    now rewrite (IH ltac:(discriminate) H).
Qed.

(** *** Texts that start with SELECT *)

Lemma upper_char_letter_table (c : ascii) :
  match upper_char c with
  | String d "" => if between 65 90 (code d) then letter c else true
  | _ => true
  end = true.
Proof. each_char c; reflexivity. Qed.

Lemma upper_char_letter (c d : ascii) :
  upper_char c = String d "" -> between 65 90 (code d) = true -> letter c = true.
Proof.
  intros E Hd. pose proof (upper_char_letter_table c) as H.
  now rewrite E, Hd in H.
Qed.

Lemma prefix_upper_step (d c : ascii) (w x : string) :
  d <> "S"%char ->
  prefix (String d w) (upper (String c x)) = true ->
  upper_char c = String d "" /\ prefix w (upper x) = true.
Proof.
  intros Hd. cbn [upper].
  destruct (upper_char_cases c) as [-> | (d' & ->)]; cbn [append prefix].
  - destruct (ascii_dec d "S"); [contradiction | discriminate].
  - destruct (ascii_dec d d') as [->|]; [auto | discriminate].
Qed.

Lemma prefix_upper_step_S (e c : ascii) (w x : string) :
  e <> "S"%char ->
  prefix (String "S" (String e w)) (upper (String c x)) = true ->
  upper_char c = "S" /\ prefix (String e w) (upper x) = true.
Proof.
  intros He. cbn [upper].
  destruct (upper_char_cases c) as [-> | (d' & ->)]; cbn [append prefix].
  - destruct (ascii_dec "S"%char "S"%char) as [_|n]; [|congruence].
    destruct (ascii_dec e "S"); [contradiction | discriminate].
  - destruct (ascii_dec "S"%char d') as [<-|]; [auto | discriminate].
Qed.

(** A text whose upper-casing starts with SELECT starts with six letters. *)
Lemma select_head (x : string) :
  startswith (upper x) "SELECT" = true ->
  exists h rest,
    x = h ++ rest /\ h <> "" /\ all letter h = true /\ upper h = "SELECT".
Proof.
  unfold startswith. intros H.
  destruct x as [|c1 x]; [discriminate|].
  apply prefix_upper_step_S in H as [E1 H]; [|discriminate].
  destruct x as [|c2 x]; [discriminate|].
  apply prefix_upper_step in H as [E2 H]; [|discriminate].
  destruct x as [|c3 x]; [discriminate|].
  apply prefix_upper_step in H as [E3 H]; [|discriminate].
  destruct x as [|c4 x]; [discriminate|].
  apply prefix_upper_step in H as [E4 H]; [|discriminate].
  destruct x as [|c5 x]; [discriminate|].
  apply prefix_upper_step in H as [E5 H]; [|discriminate].
  destruct x as [|c6 x]; [discriminate|].
  apply prefix_upper_step in H as [E6 _]; [|discriminate].
  exists (String c1 (String c2 (String c3 (String c4 (String c5 (String c6 "")))))), x.
  split; [reflexivity|]. split; [discriminate|]. split.
  - cbn [all].
    rewrite (upper_char_letter _ _ E1), (upper_char_letter _ _ E2),
      (upper_char_letter _ _ E3), (upper_char_letter _ _ E4),
      (upper_char_letter _ _ E5), (upper_char_letter _ _ E6); reflexivity.
  - cbn [upper]. now rewrite E1, E2, E3, E4, E5, E6.
Qed.

Lemma letter_not_space (c : ascii) : letter c = true -> negb (is_space c) = true.
Proof. each_char c; auto. Qed.

Lemma letter_not_semicolon (c : ascii) :
  letter c = true -> negb (mem c ";") = true.
Proof. each_char c; auto. Qed.

(** Removing trailing semicolons and blanks keeps a SELECT at the front. *)
Lemma select_survives (x y : string) :
  startswith (upper x) "SELECT" = true ->
  startswith (upper (strip (rstrip_chars ";" (x ++ y)))) "SELECT" = true.
Proof.
  intros H. apply select_head in H as (h & rest & -> & Hne & Hl & Hu).
  rewrite app_assoc.
  destruct (rstrip_chars_prefix ";" h (rest ++ y) Hne) as (r & ->).
  { eapply all_impl; [|exact Hl]. apply letter_not_semicolon. }
  assert (Ht : tight h).
  { apply tight_no_space; [assumption|].
    eapply all_impl; [|exact Hl]. apply letter_not_space. }
  unfold strip.
  assert (El : lstrip (h ++ r) = h ++ r).
  { destruct h as [|c h]; [contradiction|]. simpl in Hl.
    apply andb_prop in Hl as [Hc _]. apply letter_not_space, negb_true_iff in Hc.
    simpl. now rewrite Hc. }
  rewrite El. destruct (rstrip_tight_prefix h r Ht) as (r' & ->).
  unfold startswith. rewrite upper_app, Hu. now apply prefix_app.
Qed.

(** *** [_clean_sql] *)

Lemma scan_lines_stripped (lines : list string) (b : bool) (l : string) :
  In l (GeminiNLtoSQL.scan_lines lines b) -> exists l0, In l0 lines /\ l = strip l0.
Proof.
  revert b. induction lines as [|x lines IH]; intros b Hin; [destruct Hin|].
  cbn [GeminiNLtoSQL.scan_lines] in Hin.
  destruct (if startswith (upper (strip x)) "SELECT" then true else b).
  - destruct Hin as [<-|Hin]; [exists x; split; [now left | reflexivity]|].
    destruct (endswith (strip x) ";"); [destruct Hin|].
    destruct (IH _ Hin) as (l0 & H0 & E). exists l0. split; [now right | exact E].
  - destruct (IH _ Hin) as (l0 & H0 & E). exists l0. split; [now right | exact E].
Qed.

Lemma scan_lines_head (lines : list string) :
  GeminiNLtoSQL.scan_lines lines false = [] \/
  exists l rest,
    GeminiNLtoSQL.scan_lines lines false = l :: rest /\
    startswith (upper l) "SELECT" = true.
Proof.
  induction lines as [|x lines IH]; [now left|].
  cbn [GeminiNLtoSQL.scan_lines].
  destruct (startswith (upper (strip x)) "SELECT") eqn:E; [|exact IH].
  right. eexists _, _. split; [reflexivity | exact E].
Qed.

Lemma join_head (sep l : string) (rest : list string) :
  exists y, join sep (l :: rest) = l ++ y.
Proof.
  destruct rest as [|x rest].
  - exists "". simpl. now rewrite app_nil_r.
  - exists (sep ++ join sep (x :: rest)). reflexivity.
Qed.

Lemma clean_sql_no_newline (sql : string) :
  avoids GeminiNLtoSQL.newline (GeminiNLtoSQL._clean_sql sql) = true.
Proof.
  unfold GeminiNLtoSQL._clean_sql. cbv zeta.
  apply all_strip, all_rstrip_chars, all_join; [reflexivity|].
  intros l Hl. apply scan_lines_stripped in Hl as (l0 & H0 & ->).
  apply all_strip. exact (split_avoids _ _ _ H0).
Qed.

Lemma clean_sql_select (sql : string) :
  GeminiNLtoSQL._clean_sql sql = "" \/
  startswith (upper (GeminiNLtoSQL._clean_sql sql)) "SELECT" = true.
Proof.
  unfold GeminiNLtoSQL._clean_sql. cbv zeta.
  set (lines := split GeminiNLtoSQL.newline _).
  destruct (scan_lines_head lines) as [-> | (l & rest & -> & Hs)].
  - left. reflexivity.
  - right. destruct (join_head " " l rest) as (y & ->).
    now apply select_survives.
Qed.

(** X13.  Whatever text it is given, [_clean_sql] of the Gemini and OpenAI
    translators returns a text that is trimmed, has no newline, and is
    either empty or starts with SELECT in some letter case. *)
Theorem clean_sql_result (sql : string) :
  let r := GeminiNLtoSQL._clean_sql sql in
  strip r = r /\ avoids GeminiNLtoSQL.newline r = true /\
  (r = "" \/ startswith (upper r) "SELECT" = true).
Proof.
  cbv zeta. split; [|split].
  - unfold GeminiNLtoSQL._clean_sql. cbv zeta. apply strip_idem.
  - apply clean_sql_no_newline.
  - apply clean_sql_select.
Qed.

(** X14.  Whatever the model answers, [parse_question] of the Gemini and
    OpenAI translators returns the cleaned text with the explanation that
    quotes the question, or the could-not-generate message, or the error
    message of a failed call; the rejection "Only SELECT queries are
    allowed" is never issued, since a cleaned text that is not empty
    starts with SELECT.  SQL that is returned is trimmed, has no newline
    and starts with SELECT in some letter case. *)
Theorem gemini_parse_question_outcomes (ask : string -> GeminiNLtoSQL.reply)
    (question : string) :
  GeminiNLtoSQL.parse_question ask question =
    match ask question with
    | GeminiNLtoSQL.Text t =>
        match GeminiNLtoSQL._clean_sql (strip t) with
        | "" => (None, Some GeminiNLtoSQL.could_not_generate)
        | sql => (Some sql, Some ("Generated SQL query for: " ++ question))
        end
    | GeminiNLtoSQL.Failed message =>
        (None, Some ("Error generating SQL: " ++ message))
    end /\
  GeminiNLtoSQL.parse_question ask question
    <> (None, Some GeminiNLtoSQL.only_select) /\
  forall sql e,
    GeminiNLtoSQL.parse_question ask question = (Some sql, e) ->
    strip sql = sql /\ avoids GeminiNLtoSQL.newline sql = true /\
    startswith (upper sql) "SELECT" = true.
Proof.
  assert (E : GeminiNLtoSQL.parse_question ask question =
    match ask question with
    | GeminiNLtoSQL.Text t =>
        match GeminiNLtoSQL._clean_sql (strip t) with
        | "" => (None, Some GeminiNLtoSQL.could_not_generate)
        | sql => (Some sql, Some ("Generated SQL query for: " ++ question))
        end
    | GeminiNLtoSQL.Failed message =>
        (None, Some ("Error generating SQL: " ++ message))
    end).
  { unfold GeminiNLtoSQL.parse_question. destruct (ask question) as [t|msg]; [|reflexivity].
    cbv zeta. destruct (clean_sql_select (strip t)) as [E|E].
    - now rewrite E.
    - rewrite E. destruct (GeminiNLtoSQL._clean_sql (strip t)); reflexivity. }
  split; [exact E|]. rewrite E. split.
  - destruct (ask question) as [t|msg]; [|discriminate].
    destruct (GeminiNLtoSQL._clean_sql (strip t)); discriminate.
  - intros sql e H. destruct (ask question) as [t|msg]; [|discriminate].
    pose proof (clean_sql_no_newline (strip t)) as H2.
    pose proof (clean_sql_select (strip t)) as H3.
    assert (H1 : strip (GeminiNLtoSQL._clean_sql (strip t))
                 = GeminiNLtoSQL._clean_sql (strip t))
      by (unfold GeminiNLtoSQL._clean_sql; cbv zeta; apply strip_idem).
    destruct (GeminiNLtoSQL._clean_sql (strip t)) as [|c r] eqn:Ec; [discriminate|].
    injection H as <- _. repeat split; try assumption.
    destruct H3 as [H3|H3]; [discriminate | exact H3].
Qed.

Lemma gemini_parse_question_outcomes_witness :
  strip "select 1; drop table x" = "select 1; drop table x" /\
  avoids GeminiNLtoSQL.newline "select 1; drop table x" = true /\
  startswith (upper "select 1; drop table x") "SELECT" = true.
Proof.
  apply (proj2 (proj2 (gemini_parse_question_outcomes
                         (fun _ => GeminiNLtoSQL.Text " select 1; drop table x ")
                         "q"))
           "select 1; drop table x" (Some "Generated SQL query for: q")).
  reflexivity.
Defined.

(** *** [replace] *)

Lemma contains_false_prefix (old s : string) :
  contains old s = false -> prefix old s = false.
Proof.
  destruct s; [rewrite contains_nil | rewrite contains_cons]; intros H.
  - exact H.
  - now apply orb_false_iff in H.
Qed.

Lemma replace_absent (old new s : string) :
  contains old s = false -> replace_str old new s = s.
Proof.
  unfold replace_str. induction s as [|c s IH]; intros H; [reflexivity|].
  cbn [replace_from]. rewrite (contains_false_prefix _ _ H).
  rewrite contains_cons in H. apply orb_false_iff in H as [_ H].
  now rewrite IH.
Qed.

Lemma replace_from_skip (old new a b : string) :
  replace_from old new (String.length a) (a ++ b) = replace_from old new 0 b.
Proof.
  induction a as [|c a IH]; [reflexivity|].
  destruct b as [|d b]; simpl; exact IH.
Qed.

Lemma prefix_refl_app (a b : string) : prefix a (a ++ b) = true.
Proof. apply prefix_spec. now exists b. Qed.

(** An occurrence at the front is replaced, and the search goes on behind
    it. *)
Lemma replace_prefix (o : ascii) (old new rest : string) :
  replace_str (String o old) new (String o old ++ rest) =
    new ++ replace_str (String o old) new rest.
Proof.
  unfold replace_str.
  change (String o old ++ rest) with (String o (old ++ rest)).
  cbn [replace_from].
  change (String o (old ++ rest)) with (String o old ++ rest).
  rewrite prefix_refl_app.
  change (String.length (String o old) - 1) with (String.length old - 0).
  now rewrite PeanoNat.Nat.sub_0_r, replace_from_skip.
Qed.

Lemma prefix_length (w s : string) :
  prefix w s = true -> String.length w <= String.length s.
Proof.
  rewrite prefix_spec. intros (post & ->). rewrite length_app. lia.
Qed.

(** No occurrence of [old] includes a character that [old] lacks, so the
    replacement works on both sides of such a character separately. *)
Lemma replace_from_cut (old new a b : string) (c : ascii) (n : nat) :
  avoids c old = true -> old <> "" -> n <= String.length a ->
  replace_from old new n (a ++ String c b) =
    replace_from old new n a ++ String c (replace_from old new 0 b).
Proof.
  intros Hc Hne. revert n. induction a as [|x a IH]; intros n Hn.
  - simpl in Hn. assert (n = 0) as -> by lia.
    change ("" ++ String c b) with (String c b). cbn [replace_from append].
    change (String c b) with ("" ++ String c b) at 1.
    rewrite prefix_cut by assumption.
    destruct old; [contradiction | reflexivity].
  - change (String x a ++ String c b) with (String x (a ++ String c b)).
    cbn [replace_from]. destruct n as [|k].
    + change (String x (a ++ String c b)) with (String x a ++ String c b).
      rewrite prefix_cut by assumption.
      destruct (prefix old (String x a)) eqn:E.
      * apply prefix_length in E. simpl in E.
        rewrite IH by lia. now rewrite app_assoc.
      * now rewrite IH by lia.
    + simpl in Hn. apply IH. lia.
Qed.

Lemma replace_cut (old new a b : string) (c : ascii) :
  avoids c old = true -> old <> "" ->
  replace_str old new (a ++ String c b) =
    replace_str old new a ++ String c (replace_str old new b).
Proof. intros Hc Hne. apply replace_from_cut; try assumption. lia. Qed.

Lemma contains_weaken (a b s : string) :
  contains a s = false -> contains (a ++ b) s = false.
Proof.
  intros H. destruct (contains (a ++ b) s) eqn:E; [|reflexivity].
  apply contains_spec in E as (pre & post & ->).
  assert (contains a (pre ++ (a ++ b) ++ post) = true); [|congruence].
  apply contains_spec. exists pre, (b ++ post). now rewrite !app_assoc.
Qed.

(** *** [_clean_sql] on well-formed answers *)

Lemma semicolons_mem (k : string) :
  semicolons k = true -> all (fun c => mem c ";") k = true.
Proof.
  apply all_impl. intros c H. simpl. now rewrite H.
Qed.

Lemma semicolons_no_space (k : string) :
  semicolons k = true -> all (fun c => negb (is_space c)) k = true.
Proof.
  apply all_impl. intros c H. apply Ascii.eqb_eq in H as ->. reflexivity.
Qed.

Lemma plain_query_head (s : string) :
  plain_query s -> s <> "" /\ head_ok s = true /\ tight s.
Proof.
  intros (Hs & _ & _ & Hsel & _).
  assert (Hne : s <> "") by (intros ->; discriminate Hsel).
  destruct (strip_cases s) as [E|[Hh Ht]]; rewrite Hs in *; [contradiction|].
  auto.
Qed.

(** What [_clean_sql] does once the fences are gone and the text is
    trimmed, on a plain query followed by semicolons. *)
Lemma clean_lines_plain (s k : string) :
  plain_query s -> semicolons k = true ->
  strip (rstrip_chars ";"
           (join " " (GeminiNLtoSQL.scan_lines
                        (split GeminiNLtoSQL.newline (s ++ k)) false))) = s.
Proof.
  intros Hp Hk. destruct (plain_query_head _ Hp) as (Hne & Hh & Ht).
  destruct Hp as (Hs & Hn & _ & Hsel & Hend).
  assert (Hsk : strip (s ++ k) = s ++ k).
  { apply strip_tight.
    - destruct s; [contradiction | exact Hh].
    - destruct k as [|c k]; [now rewrite app_nil_r|].
      apply tight_app, tight_no_space; [discriminate|].
      now apply semicolons_no_space. }
  rewrite split_whole.
  2: { unfold avoids. rewrite all_app. fold (avoids GeminiNLtoSQL.newline s).
       rewrite Hn. simpl. eapply all_impl; [|exact Hk].
       intros c H. apply Ascii.eqb_eq in H as ->. reflexivity. }
  cbn [GeminiNLtoSQL.scan_lines]. rewrite Hsk.
  assert (Hsel' : startswith (upper (s ++ k)) "SELECT" = true).
  { unfold startswith in *. rewrite upper_app. now apply prefix_app. }
  rewrite Hsel'.
  assert (Ej : forall b : bool,
             join " " ((s ++ k)%string :: (if b then [] else [])) = (s ++ k)%string)
    by (intros []; reflexivity).
  rewrite Ej, rstrip_chars_run by now apply semicolons_mem.
  now rewrite endswith_char by assumption.
Qed.

(** X15.  A plain one-line query (trimmed, no newline, no code fence,
    starting with SELECT, not ending with a semicolon) comes out of
    [_clean_sql] unchanged, whatever else it holds, and semicolons at its
    end are removed. *)
Theorem clean_sql_plain_query (s k : string) :
  plain_query s -> semicolons k = true ->
  GeminiNLtoSQL._clean_sql (s ++ k) = s.
Proof.
  intros Hp Hk. unfold GeminiNLtoSQL._clean_sql. cbv zeta.
  destruct (plain_query_head _ Hp) as (Hne & Hh & Ht).
  assert (Hf : contains "```" (s ++ k) = false).
  { destruct k as [|c k]; [rewrite app_nil_r; apply Hp|].
    assert (Hc : c = ";"%char).
    { unfold semicolons in Hk. cbn [all] in Hk.
      apply andb_prop in Hk as [Hc _]. now apply Ascii.eqb_eq in Hc. }
    subst c. rewrite contains_app_head by reflexivity.
    destruct Hp as (_ & _ & -> & _).
    rewrite (contains_class (fun c => Ascii.eqb c ";") "`" "``" _ eq_refl Hk).
    reflexivity. }
  rewrite (replace_absent "```sql"), (replace_absent "```"); try assumption.
  2: { change "```sql" with ("```" ++ "sql"). now apply contains_weaken. }
  assert (Hsk : strip (s ++ k) = s ++ k).
  { apply strip_tight.
    - destruct s; [contradiction | exact Hh].
    - destruct k as [|c k]; [now rewrite app_nil_r|].
      apply tight_app, tight_no_space; [discriminate|].
      now apply semicolons_no_space. }
  rewrite Hsk. now apply clean_lines_plain.
Qed.

Lemma clean_sql_plain_query_witness :
  GeminiNLtoSQL._clean_sql ("SELECT 1; DROP TABLE users" ++ ";;") =
    "SELECT 1; DROP TABLE users".
Proof.
  apply clean_sql_plain_query; [|reflexivity].
  repeat split; reflexivity.
Defined.

(** X16.  A plain query that the model wraps in a Markdown code fence, a
    line with the opening fence and the word sql before it and a line with
    the closing fence after it, is unwrapped by [_clean_sql]. *)
Theorem clean_sql_unwraps_fence (s : string) :
  plain_query s ->
  GeminiNLtoSQL._clean_sql
    ("```sql" ++ String GeminiNLtoSQL.newline "" ++ s
       ++ String GeminiNLtoSQL.newline "" ++ "```") = s.
Proof.
  intros Hp. unfold GeminiNLtoSQL._clean_sql. cbv zeta.
  assert (Hf : contains "```" s = false) by apply Hp.
  assert (Hf' : contains "```sql" s = false)
    by (change "```sql" with ("```" ++ "sql"); now apply contains_weaken).
  set (n := GeminiNLtoSQL.newline).
  assert (E1 : replace_str "```sql" ""
                 ("```sql" ++ String n "" ++ s ++ String n "" ++ "```")
               = String n "" ++ s ++ String n "" ++ "```").
  { rewrite replace_prefix. cbn [append].
    change (String n (s ++ String n "```")) with ("" ++ String n (s ++ String n "```")).
    rewrite replace_cut by (reflexivity || discriminate).
    rewrite replace_cut by (reflexivity || discriminate).
    now rewrite (replace_absent _ _ s). }
  rewrite E1.
  assert (E2 : replace_str "```" "" (String n "" ++ s ++ String n "" ++ "```")
               = String n "" ++ s ++ String n "").
  { cbn [append].
    change (String n (s ++ String n "```")) with ("" ++ String n (s ++ String n "```")).
    rewrite replace_cut by (reflexivity || discriminate).
    rewrite replace_cut by (reflexivity || discriminate).
    now rewrite (replace_absent _ _ s). }
  rewrite E2, strip_padded by reflexivity.
  destruct Hp as (Hs & Hrest). rewrite Hs.
  rewrite <- (app_nil_r s) at 1.
  apply clean_lines_plain; [now split | reflexivity].
Qed.

Lemma clean_sql_unwraps_fence_witness :
  GeminiNLtoSQL._clean_sql
    ("```sql" ++ String GeminiNLtoSQL.newline "" ++ "SELECT COUNT(*) FROM agents"
       ++ String GeminiNLtoSQL.newline "" ++ "```") = "SELECT COUNT(*) FROM agents".
Proof.
  apply clean_sql_unwraps_fence. repeat split; reflexivity.
Defined.

(** *** The Vanna translator *)

Lemma endswith_drop_last (s : string) (c : ascii) :
  endswith s (String c "") = true -> s = drop_last s ++ String c "".
Proof.
  induction s as [|x s IH]; intros H; [discriminate|].
  destruct s as [|y s].
  - unfold endswith in H. rewrite orb_false_r in H.
    apply String.eqb_eq in H. exact H.
  - change (endswith (String x (String y s)) (String c ""))
      with (String.eqb (String x (String y s)) (String c "")
            || endswith (String y s) (String c "")) in H.
    replace (String.eqb (String x (String y s)) (String c "")) with false in H.
    2: { symmetry. apply String.eqb_neq. intros E. discriminate E. }
    change (drop_last (String x (String y s)))
      with (String x (drop_last (String y s))).
    cbn [append]. f_equal. now apply IH.
Qed.

(** Taking a final semicolon away does not change whether a text starts
    with SELECT. *)
Lemma select_without_semicolon (s : string) :
  endswith s ";" = true ->
  startswith (upper (drop_last s)) "SELECT" = startswith (upper s) "SELECT".
Proof.
  intros H. apply endswith_drop_last in H.
  rewrite H at 2. rewrite upper_app. unfold startswith.
  change (upper ";") with (String ";" "").
  symmetry. apply prefix_cut; [reflexivity | discriminate].
Qed.

(** X17.  The Vanna translator accepts a non-empty generated text exactly
    when the trimmed text starts with SELECT in any letter case, a final
    semicolon making no difference; the SQL it returns is the trimmed text
    without one final semicolon if it has one, and it starts with SELECT.
    Every other non-empty text, a blank one included, gets the only-SELECT
    refusal. *)
Theorem vanna_parse_question_outcomes (generate_sql : string -> VannaNLtoSQL.reply)
    (question t : string) :
  generate_sql question = VannaNLtoSQL.Generated (Some t) -> t <> "" ->
  if startswith (upper (strip t)) "SELECT" then
    exists s,
      VannaNLtoSQL.parse_question generate_sql question =
        (Some s, Some ("Generated SQL query using Vanna AI for: " ++ question)) /\
      startswith (upper s) "SELECT" = true /\
      (strip t = s ++ ";" \/ (strip t = s /\ endswith s ";" = false))
  else
    VannaNLtoSQL.parse_question generate_sql question =
      (None, Some VannaNLtoSQL.only_select).
Proof.
  intros E Hne. unfold VannaNLtoSQL.parse_question. rewrite E.
  destruct t as [|c t]; [contradiction|]. cbn [truthy negb]. cbv zeta.
  set (x := strip (String c t)).
  destruct (endswith x ";") eqn:Ee.
  - rewrite (select_without_semicolon _ Ee).
    destruct (startswith (upper x) "SELECT") eqn:Es; cbn [negb]; [|reflexivity].
    exists (drop_last x). split; [reflexivity|]. split.
    + now rewrite (select_without_semicolon _ Ee).
    + left. now apply endswith_drop_last.
  - destruct (startswith (upper x) "SELECT") eqn:Es; cbn [negb]; [|reflexivity].
    exists x. auto.
Qed.

Lemma vanna_parse_question_outcomes_witness :
  exists s,
    VannaNLtoSQL.parse_question
      (fun _ => VannaNLtoSQL.Generated (Some " select 1 ; ")) "q" =
      (Some s, Some ("Generated SQL query using Vanna AI for: " ++ "q")) /\
    startswith (upper s) "SELECT" = true /\
    (strip " select 1 ; " = s ++ ";" \/
     (strip " select 1 ; " = s /\ endswith s ";" = false)).
Proof.
  exact (vanna_parse_question_outcomes
           (fun _ => VannaNLtoSQL.Generated (Some " select 1 ; ")) "q"
           " select 1 ; " eq_refl ltac:(discriminate)).
Defined.

(** *** The Ollama translator *)

Lemma split_cons (c : ascii) (s : string) : exists l ls, split c s = l :: ls.
Proof.
  induction s as [|x s (l & ls & E)]; simpl; [now eexists _, _|].
  destruct (Ascii.eqb x c); [now eexists _, _|].
  rewrite E. now eexists _, _.
Qed.

Lemma comment_not_select (x : string) :
  negb (truthy_str x) || startswith x "--" = true ->
  startswith (upper x) "SELECT" = false.
Proof.
  intros H. apply orb_prop in H as [H|H].
  - destruct x; [reflexivity | discriminate H].
  - unfold startswith in H. apply prefix_spec in H as (post & ->).
    rewrite upper_app. reflexivity.
Qed.

Lemma ollama_scan_in (lines acc : list string) (l : string) :
  In l (OllamaNLtoSQL.scan_lines lines acc) ->
  In l acc \/ exists l0, In l0 lines /\ l = strip l0.
Proof.
  revert acc. induction lines as [|x lines IH]; intros acc Hin; [now left|].
  cbn [OllamaNLtoSQL.scan_lines] in Hin.
  assert (Hrec : forall acc',
             (forall y, In y acc' -> In y acc \/ y = strip x) ->
             In l (OllamaNLtoSQL.scan_lines lines acc') ->
             In l acc \/ exists l0, In l0 (x :: lines) /\ l = strip l0).
  { intros acc' Hacc H. destruct (IH _ H) as [H1 | (l0 & H0 & E)].
    - destruct (Hacc _ H1) as [H2 | ->]; [now left|].
      right. exists x. split; [now left | reflexivity].
    - right. exists l0. split; [now right | exact E]. }
  destruct (negb (truthy_str (strip x)) || startswith (strip x) "--").
  { apply (Hrec acc); [now left | exact Hin]. }
  destruct (startswith (upper (strip x)) "SELECT").
  { apply (Hrec [strip x]); [|exact Hin]. intros y [<-|[]]. now right. }
  destruct acc as [|a acc].
  { apply (Hrec []); [intros y [] | exact Hin]. }
  assert (Happ : forall y, In y ((a :: acc) ++ [strip x])%list ->
                           In y (a :: acc) \/ y = strip x).
  { intros y Hy. apply in_app_or in Hy as [Hy | [<-|[]]]; auto. }
  destruct (endswith (strip x) ";").
  - destruct (Happ _ Hin) as [H1 | ->]; [now left|].
    right. exists x. split; [now left | reflexivity].
  - apply (Hrec _ Happ Hin).
Qed.

(** The first of the collected lines starts with SELECT. *)
Lemma ollama_scan_head (lines acc : list string) :
  (acc = [] \/ exists l rest, acc = l :: rest /\ startswith (upper l) "SELECT" = true) ->
  OllamaNLtoSQL.scan_lines lines acc = [] \/
  exists l rest,
    OllamaNLtoSQL.scan_lines lines acc = l :: rest /\
    startswith (upper l) "SELECT" = true.
Proof.
  revert acc. induction lines as [|x lines IH]; intros acc Hacc; [exact Hacc|].
  cbn [OllamaNLtoSQL.scan_lines].
  destruct (negb (truthy_str (strip x)) || startswith (strip x) "--");
    [now apply IH|].
  destruct (startswith (upper (strip x)) "SELECT") eqn:E.
  { apply IH. right. now eexists _, _. }
  destruct acc as [|a acc]; [now apply IH|].
  destruct Hacc as [Hacc | (l & rest & Hacc & Hl)]; [discriminate|].
  injection Hacc as -> ->.
  destruct (endswith (strip x) ";").
  - right. now exists l, (rest ++ [strip x])%list.
  - apply IH. right. now exists l, (rest ++ [strip x])%list.
Qed.

Lemma ollama_scan_keeps (lines acc : list string) :
  acc <> [] -> OllamaNLtoSQL.scan_lines lines acc <> [].
Proof.
  revert acc. induction lines as [|x lines IH]; intros acc Hacc; [exact Hacc|].
  cbn [OllamaNLtoSQL.scan_lines].
  destruct (negb (truthy_str (strip x)) || startswith (strip x) "--");
    [now apply IH|].
  destruct (startswith (upper (strip x)) "SELECT"); [now apply IH|].
  destruct acc as [|a acc]; [contradiction|].
  destruct (endswith (strip x) ";"); [discriminate | now apply IH].
Qed.

(** A line that starts with SELECT is never lost. *)
Lemma ollama_scan_finds (lines acc : list string) :
  existsb (fun line => startswith (upper (strip line)) "SELECT") lines = true ->
  OllamaNLtoSQL.scan_lines lines acc <> [].
Proof.
  revert acc. induction lines as [|x lines IH]; intros acc H; [discriminate|].
  cbn [OllamaNLtoSQL.scan_lines]. cbn [existsb] in H.
  destruct (negb (truthy_str (strip x)) || startswith (strip x) "--") eqn:Ec.
  { rewrite (comment_not_select _ Ec) in H. now apply IH. }
  destruct (startswith (upper (strip x)) "SELECT") eqn:E.
  { now apply ollama_scan_keeps. }
  cbn [orb] in H. destruct acc as [|a acc]; [now apply IH|].
  destruct (endswith (strip x) ";"); [discriminate|].
  now apply ollama_scan_keeps.
Qed.

(** X18.  Whatever text it is given, [_clean_sql] of the Ollama translator
    returns a text that is trimmed and has no newline; and when some line
    of the text, once fences and labels are removed, starts with SELECT in
    any letter case, so does the result. *)
Theorem ollama_clean_sql_result (sql : string) :
  let r := OllamaNLtoSQL._clean_sql sql in
  strip r = r /\ avoids OllamaNLtoSQL.newline r = true /\
  (select_line (unlabelled sql) = true -> startswith (upper r) "SELECT" = true).
Proof.
  unfold OllamaNLtoSQL._clean_sql, select_line, unlabelled. cbv zeta.
  set (body := fold_left _ _ _).
  split; [apply strip_idem|]. split.
  - apply all_strip, all_rstrip_chars.
    destruct (OllamaNLtoSQL.scan_lines _ []) as [|l ls] eqn:E.
    + destruct (split_cons OllamaNLtoSQL.newline body) as (l0 & ls0 & E0).
      rewrite E0. cbn [hd]. apply (split_avoids _ body). rewrite E0. now left.
    + apply all_join; [reflexivity|]. intros y Hy. rewrite <- E in Hy.
      apply ollama_scan_in in Hy as [[] | (l0 & H0 & ->)].
      apply all_strip. exact (split_avoids _ _ _ H0).
  - intros H. apply (ollama_scan_finds _ []) in H.
    destruct (ollama_scan_head (split OllamaNLtoSQL.newline body) [])
      as [E | (l & rest & E & Hs)]; [now left | contradiction |].
    rewrite E. destruct (join_head " " l rest) as (y & ->).
    now apply select_survives.
Qed.

Lemma ollama_clean_sql_result_witness :
  startswith
    (upper (OllamaNLtoSQL._clean_sql
              ("Answer: it is" ++ String OllamaNLtoSQL.newline "" ++ "select 1;")))
    "SELECT" = true.
Proof.
  apply (proj2 (proj2 (ollama_clean_sql_result
                         ("Answer: it is" ++ String OllamaNLtoSQL.newline ""
                            ++ "select 1;")))).
  reflexivity.
Defined.

Lemma upper_char_SE_table (c : ascii) :
  (if String.eqb (upper_char c) "S" then Ascii.eqb c "S" || Ascii.eqb c "s"
   else true) &&
  (if String.eqb (upper_char c) "E" then Ascii.eqb c "E" || Ascii.eqb c "e"
   else true) = true.
Proof. each_char c; reflexivity. Qed.

(** A text that starts with SELECT in some letter case starts with an S
    and an E in some letter case. *)
Lemma select_first_chars (x : string) :
  startswith (upper x) "SELECT" = true ->
  exists c1 c2 rest,
    x = String c1 (String c2 rest) /\
    (c1 = "S" \/ c1 = "s")%char /\ (c2 = "E" \/ c2 = "e")%char.
Proof.
  unfold startswith. intros H.
  destruct x as [|c1 x]; [discriminate|].
  apply prefix_upper_step_S in H as [E1 H]; [|discriminate].
  destruct x as [|c2 x]; [discriminate|].
  apply prefix_upper_step in H as [E2 _]; [|discriminate].
  exists c1, c2, x. split; [reflexivity|].
  pose proof (upper_char_SE_table c1) as T1.
  pose proof (upper_char_SE_table c2) as T2.
  apply andb_prop in T1 as [T1 _]. apply andb_prop in T2 as [_ T2].
  rewrite E1 in T1. rewrite E2 in T2.
  change (String.eqb "S" "S") with true in T1.
  change (String.eqb "E" "E") with true in T2. cbv iota in T1, T2.
  apply orb_prop in T1. apply orb_prop in T2.
  rewrite !Ascii.eqb_eq in T1, T2. now split.
Qed.

(** Such a text starts with no label and no comment mark, and not with a
    backquote. *)
Lemma select_not_label (x : string) :
  startswith (upper x) "SELECT" = true ->
  startswith x "SQL:" = false /\ startswith x "Query:" = false /\
  startswith x "Answer:" = false /\ startswith x "--" = false /\
  head_avoids "```" x = true /\ head_ok x = true.
Proof.
  intros H.
  apply select_first_chars in H as (c1 & c2 & rest & -> & [-> | ->] & [-> | ->]);
    repeat split; reflexivity.
Qed.

Lemma strip_lpad (w x : string) : all is_space w = true -> strip (w ++ x) = strip x.
Proof.
  intros Hw. rewrite <- (app_nil_r x) at 1.
  now rewrite strip_padded by (assumption || reflexivity).
Qed.

Lemma space_not_backquote (c : ascii) :
  is_space c = true -> avoids c "```" = true.
Proof. each_char c; auto. Qed.

Lemma contains_app_none (k a b : string) :
  nonempty k && head_avoids k b = true ->
  contains k a = false -> contains k b = false -> contains k (a ++ b) = false.
Proof. intros H Ha Hb. now rewrite contains_app_head, Ha, Hb. Qed.

(** A plain query followed by semicolons: it is trimmed, has no fence and
    still starts with SELECT. *)
Lemma plain_with_semicolons (s k : string) :
  plain_query s -> semicolons k = true ->
  s <> "" /\ strip (s ++ k) = s ++ k /\ tight (s ++ k) /\
  contains "```" (s ++ k) = false /\
  avoids OllamaNLtoSQL.newline (s ++ k) = true /\
  startswith (upper (s ++ k)) "SELECT" = true.
Proof.
  intros Hp Hk. destruct (plain_query_head _ Hp) as (Hne & Hh & Ht).
  destruct Hp as (Hs & Hn & Hf & Hsel & Hend).
  assert (Htk : tight (s ++ k)).
  { destruct k as [|c k]; [now rewrite app_nil_r|].
    apply tight_app, tight_no_space; [discriminate|].
    now apply semicolons_no_space. }
  split; [assumption|]. split.
  { apply strip_tight; [|assumption]. destruct s; [contradiction | exact Hh]. }
  split; [assumption|]. split; [|split].
  - destruct k as [|c k]; [now rewrite app_nil_r|].
    assert (Hc : c = ";"%char).
    { unfold semicolons in Hk. cbn [all] in Hk.
      apply andb_prop in Hk as [Hc _]. now apply Ascii.eqb_eq in Hc. }
    subst c. apply contains_app_none; [reflexivity | assumption |].
    now apply (contains_class (fun c => Ascii.eqb c ";")).
  - unfold avoids. rewrite all_app. fold (avoids OllamaNLtoSQL.newline s).
    change OllamaNLtoSQL.newline with GeminiNLtoSQL.newline.
    rewrite Hn. cbn [andb]. eapply all_impl; [|exact Hk].
    intros c H. apply Ascii.eqb_eq in H as ->. reflexivity.
  - unfold startswith in *. rewrite upper_app. now apply prefix_app.
Qed.

(** The second half of [_clean_sql], on one line that holds a plain query
    and semicolons. *)
Lemma ollama_clean_lines_plain (s k : string) :
  plain_query s -> semicolons k = true ->
  strip (rstrip_chars ";"
           match OllamaNLtoSQL.scan_lines (split OllamaNLtoSQL.newline (s ++ k)) [] with
           | _ :: _ =>
               join " " (OllamaNLtoSQL.scan_lines
                           (split OllamaNLtoSQL.newline (s ++ k)) [])
           | [] => hd "" (split OllamaNLtoSQL.newline (s ++ k))
           end) = s.
Proof.
  intros Hp Hk.
  destruct (plain_with_semicolons s k Hp Hk) as (Hne & Hst & _ & _ & Hn & Hsel).
  destruct (select_not_label _ Hsel) as (_ & _ & _ & Hc & _ & _).
  rewrite (split_whole _ _ Hn). cbn [OllamaNLtoSQL.scan_lines].
  rewrite Hst, Hc, Hsel.
  assert (Et : truthy_str (s ++ k) = true)
    by (destruct s; [contradiction | reflexivity]).
  rewrite Et. cbn [negb orb join].
  rewrite rstrip_chars_run by now apply semicolons_mem.
  rewrite endswith_char by (assumption || apply Hp). apply Hp.
Qed.

Lemma ollama_labels_plain (pre s k : string) :
  preamble pre -> plain_query s -> semicolons k = true ->
  contains "```" (pre ++ s ++ k) = false /\
  fold_left OllamaNLtoSQL.remove_prefix (removelast OllamaNLtoSQL.prefixes)
    (pre ++ s ++ k) = s ++ k /\
  head_ok (pre ++ s ++ k) = true.
Proof.
  intros Hpre Hp Hk.
  destruct (plain_with_semicolons s k Hp Hk) as (Hne & Hst & _ & Hf & _ & Hsel).
  destruct (select_not_label _ Hsel) as (L1 & L2 & L3 & _ & Hb & Hh).
  change (removelast OllamaNLtoSQL.prefixes) with ["SQL:"; "Query:"; "Answer:"].
  cbn [fold_left]. unfold OllamaNLtoSQL.remove_prefix.
  destruct Hpre as [-> | (p & w & Hin & Hw & ->)].
  - change ("" ++ s ++ k) with (s ++ k). now rewrite L1, L2, L3.
  - rewrite app_assoc.
    assert (Hfw : contains "```" (w ++ s ++ k) = false).
    { apply contains_app_none; [exact Hb | | exact Hf].
      destruct w as [|c w]; [reflexivity|].
      now apply (contains_class is_space). }
    assert (Hbw : head_avoids "```" (w ++ s ++ k) = true).
    { destruct w as [|c w]; [exact Hb|]. cbn [append head_avoids].
      cbn [all] in Hw. apply andb_prop in Hw as [Hc _].
      now apply space_not_backquote. }
    assert (Es : strip (w ++ s ++ k) = s ++ k)
      by now rewrite strip_lpad.
    change (removelast OllamaNLtoSQL.prefixes)
      with ["SQL:"; "Query:"; "Answer:"] in Hin.
    destruct Hin as [<- | [<- | [<- | []]]].
    + split; [now apply contains_app_none|]. split; [|reflexivity].
      replace (startswith ("SQL:" ++ w ++ s ++ k) "SQL:") with true
        by (symmetry; apply prefix_refl_app).
      change (drop (String.length "SQL:") ("SQL:" ++ w ++ s ++ k))
        with (w ++ s ++ k).
      now rewrite Es, L2, L3.
    + split; [now apply contains_app_none|]. split; [|reflexivity].
      change (startswith ("Query:" ++ w ++ s ++ k) "SQL:") with false. cbv iota.
      replace (startswith ("Query:" ++ w ++ s ++ k) "Query:") with true
        by (symmetry; apply prefix_refl_app).
      change (drop (String.length "Query:") ("Query:" ++ w ++ s ++ k))
        with (w ++ s ++ k).
      now rewrite Es, L3.
    + split; [now apply contains_app_none|]. split; [|reflexivity].
      change (startswith ("Answer:" ++ w ++ s ++ k) "SQL:") with false. cbv iota.
      change (startswith ("Answer:" ++ w ++ s ++ k) "Query:") with false. cbv iota.
      replace (startswith ("Answer:" ++ w ++ s ++ k) "Answer:") with true
        by (symmetry; apply prefix_refl_app).
      change (drop (String.length "Answer:") ("Answer:" ++ w ++ s ++ k))
        with (w ++ s ++ k).
      now rewrite Es.
Qed.

(** [_clean_sql] gives back a plain query from under a label and before
    semicolons. *)
Lemma ollama_clean_sql_plain (pre s k : string) :
  preamble pre -> plain_query s -> semicolons k = true ->
  OllamaNLtoSQL._clean_sql (pre ++ s ++ k) = s.
Proof.
  intros Hpre Hp Hk. unfold OllamaNLtoSQL._clean_sql. cbv zeta.
  destruct (ollama_labels_plain pre s k Hpre Hp Hk) as (Hf & El & _).
  rewrite (replace_absent "```sql"), (replace_absent "```"); try assumption.
  2: { change "```sql" with ("```" ++ "sql"). now apply contains_weaken. }
  rewrite El. now apply ollama_clean_lines_plain.
Qed.

(** X19.  When the local server answers with status 200 and the answer is
    a plain one-line query, possibly under one of the labels SQL:, Query:
    or Answer:, followed by semicolons and surrounded by blanks,
    [parse_question] of the Ollama translator returns exactly that query,
    with the explanation that names the model. *)
Theorem ollama_parse_question_plain_query
    (post : string -> OllamaNLtoSQL.reply)
    (model question w1 pre s k w2 : string) :
  post question = OllamaNLtoSQL.Response 200 (w1 ++ (pre ++ s ++ k) ++ w2) ->
  all is_space w1 = true -> all is_space w2 = true ->
  preamble pre -> plain_query s -> semicolons k = true ->
  OllamaNLtoSQL.parse_question post model question =
    (Some s, Some ("Generated SQL using Ollama (" ++ model ++ ")")).
Proof.
  intros E H1 H2 Hpre Hp Hk. unfold OllamaNLtoSQL.parse_question.
  rewrite E. change (negb (200 =? 200)%N) with false. cbv iota zeta.
  rewrite strip_padded by assumption.
  destruct (ollama_labels_plain pre s k Hpre Hp Hk) as (_ & _ & Hh).
  destruct (plain_with_semicolons s k Hp Hk) as (Hne & _ & Ht & _).
  rewrite (strip_tight (pre ++ s ++ k)); [|exact Hh | now apply tight_app].
  rewrite (ollama_clean_sql_plain pre s k Hpre Hp Hk).
  destruct Hp as (_ & _ & _ & -> & _).
  destruct s; [contradiction | reflexivity].
Qed.

Lemma ollama_parse_question_plain_query_witness :
  OllamaNLtoSQL.parse_question
    (fun _ => OllamaNLtoSQL.Response 200
                (" " ++ (("SQL:" ++ " ") ++ "SELECT name FROM agents" ++ ";") ++ " "))
    "llama3.1" "list the agents" =
    (Some "SELECT name FROM agents",
     Some ("Generated SQL using Ollama (" ++ "llama3.1" ++ ")")).
Proof.
  apply (ollama_parse_question_plain_query _ _ _ " " ("SQL:" ++ " ")
           "SELECT name FROM agents" ";" " ");
    try reflexivity.
  - right. exists "SQL:", " ". repeat split. now left.
  - repeat split; reflexivity.
Defined.
